(** * The recommendation engine of the e-commerce API

    A shallow embedding of [internal/service/recommendationService.go]
    (methods [GetRecommendations], [GetSimilarUsers], [getPopularProducts])
    together with the domain records it reads and builds, and the properties
    the design document states about them.

    Conventions of the embedding:
    - Go's [int] is [Z]; [len] of a map or slice is the [Z] image of its size.
    - [map[int]bool] holding only [true] is a [gset Z]; [map[int]T] is a
      [gmap Z T]; a nil map read from an outer map is [None].
    - [float64] arithmetic is an interface ([ScoreArith]) with two instances:
      IEEE-754 binary64 (Rocq's primitive floats, what the program runs) and
      exact rationals (the same expressions without rounding). The bounds on
      the scores are proved for binary64, from the specification of its
      operations, and for the exact value.
    - a repository call returns [result]; a service method returns [outcome],
      which adds the run-time panic of an out-of-range slice expression.
    - [range] over a map visits the keys in the order of stdpp's [elements] /
      [map_to_list], and [sort.Slice] is a stable merge sort. Go fixes neither
      order; the statements below are about membership, length, sortedness and
      single-element results only. *)

From Stdlib Require Import ZArith Reals Lra QArith Lqa Floats DecimalString.
From stdpp Require Import gmap strings list fin_maps sorting.

Set Warnings "-inexact-float".

Local Open Scope Z_scope.

(** ** Results of calls *)

(** The [(T, error)] pair a repository method returns. *)
Inductive result (A : Type) : Type :=
| Ok (a : A)
| Err (e : string).
Arguments Ok {A} a.
Arguments Err {A} e.

(** What a service method does: return a value, return an error, or panic. *)
Inductive outcome (A : Type) : Type :=
| Done (a : A)
| Failed (e : string)
| Panicked (msg : string).
Arguments Done {A} a.
Arguments Failed {A} e.
Arguments Panicked {A} msg.

#[global] Instance outcome_bind : MBind outcome := λ A B f m,
  match m with
  | Done a => f a
  | Failed e => Failed e
  | Panicked msg => Panicked msg
  end.

(** [v, err := call(); if err != nil { return nil, fmt.Errorf("<what>: %w", err) }] *)
Definition wrap_err {A} (what : string) (r : result A) : outcome A :=
  match r with
  | Ok a => Done a
  | Err e => Failed (what +:+ ": " +:+ e)
  end.

Definition len {A} (s : list A) : Z := Z.of_nat (length s).

(** The slice expression [s[:hi]]. It panics when [hi] is negative or beyond
    the capacity; the capacity is taken to be the length, which is all the
    callers below can reach (they slice only under [len(s) > hi]). *)
Definition slice_to {A} (s : list A) (hi : Z) : outcome (list A) :=
  if bool_decide (0 ≤ hi ≤ len s) then Done (take (Z.to_nat hi) s)
  else Panicked "slice bounds out of range".

(** [if len(s) > limit { s = s[:limit] }] *)
Definition truncate {A} (s : list A) (limit : Z) : outcome (list A) :=
  if bool_decide (len s > limit) then slice_to s limit else Done s.

(** [sort.Slice(s, less)]: the element [x] stays before [y] unless [less y x].
    Go's sort is not stable: the order it gives to elements that [less] does
    not separate is open, and this is one of the orders it may produce. *)
Definition not_after {A} (less : A → A → bool) (x y : A) : Prop :=
  less y x = false.

#[global] Instance not_after_dec {A} (less : A → A → bool) x y :
  Decision (not_after less x y) := bool_eq_dec (less y x) false.

Definition sort_Slice {A} (less : A → A → bool) (s : list A) : list A :=
  merge_sort (not_after less) s.

(** [fmt.Sprintf("%d", n)] *)
Definition fmt_d (n : Z) : string := NilZero.string_of_int (Z.to_int n).

(** ** float64 *)

Class ScoreArith (F : Type) : Type := {
  f_of_int : Z → F;            (* float64(n) *)
  f_add : F → F → F;
  f_mul : F → F → F;
  f_div : F → F → F;
  f_ltb : F → F → bool;        (* x < y *)
  f_zero : F;                  (* 0.0 *)
  w_purchase : F;              (* 0.5 *)
  w_like : F;                  (* 0.35 *)
  w_view : F;                  (* 0.15 *)
  min_similarity : F;          (* 0.1 *)
  boost_purchase : F;          (* 3.0 *)
  boost_like : F;              (* 1.5 *)
}.

(** The conversion [float64(n)] of an [int] of magnitude below 2^63, rounded
    to nearest even as the hardware conversion does. *)
Definition float64_of_int (n : Z) : float :=
  if (n <? 0)%Z then PrimFloat.opp (PrimFloat.of_uint63 (Uint63.of_Z (- n)))
  else PrimFloat.of_uint63 (Uint63.of_Z n).

(** IEEE-754 binary64, every operation rounded on its own (the compiler is
    allowed to fuse [x*y + z] on some targets; it does not on amd64). *)
#[global] Instance float64 : ScoreArith float := {|
  f_of_int := float64_of_int;
  f_add := PrimFloat.add;
  f_mul := PrimFloat.mul;
  f_div := PrimFloat.div;
  f_ltb := PrimFloat.ltb;
  f_zero := 0%float;
  w_purchase := 0.5%float;
  w_like := 0.35%float;
  w_view := 0.15%float;
  min_similarity := 0.1%float;
  boost_purchase := 3.0%float;
  boost_like := 1.5%float;
|}.

(** Exact rational arithmetic: the same expressions without rounding. *)
#[global] Instance exact : ScoreArith Q := {|
  f_of_int := inject_Z;
  f_add := Qplus;
  f_mul := Qmult;
  f_div := Qdiv;
  f_ltb x y := negb (Qle_bool y x);
  f_zero := 0%Q;
  w_purchase := (1 # 2)%Q;
  w_like := (35 # 100)%Q;
  w_view := (15 # 100)%Q;
  min_similarity := (1 # 10)%Q;
  boost_purchase := 3%Q;
  boost_like := (3 # 2)%Q;
|}.

(** ** Rounding in binary64

    The specification of the binary64 operations ([SpecFloat]) rounds an
    integer mantissa [m] with exponent [e] and a location of the remaining
    digits. The definitions below name what that rounding computes, for the
    positive normal numbers the scores are made of. *)

(** The record [(m, round, sticky)] locates the fraction [N/D]: twice the
    mantissa plus the round bit is the number of half units below [N/D], and
    the sticky bit says whether something remains. *)
Definition rec_ok (N D : Z) (mrs : shr_record) : Prop :=
  let b2 := 2 * shr_m mrs + (if shr_r mrs then 1 else 0) in
  if shr_s mrs then b2 * D < 2 * N < (b2 + 1) * D else 2 * N = b2 * D.

(** The state of the record after [k] one-bit shifts of the mantissa [m0]. *)
Definition shifted (N D m0 : Z) (k : Z) (mrs : shr_record) : Prop :=
  rec_ok N (D * 2 ^ k) mrs ∧ 0 ≤ shr_m mrs
  ∧ shr_m mrs * 2 ^ k ≤ m0 < (shr_m mrs + 1) * 2 ^ k.

(** The integer nearest to [N/D], ties to even. *)
Definition RNE (N D : Z) : Z :=
  let q := N / D in
  let r := N mod D in
  match 2 * r ?= D with
  | Lt => q
  | Eq => if Z.even q then q else q + 1
  | Gt => q + 1
  end.

(** Mantissa and exponent of [N/D * 2^E] rounded to 53 bits, for
    [2^52 <= N/D < 2^53]: a carry out of the mantissa moves to the exponent. *)
Definition roundpair (N D E : Z) : Z * Z :=
  let M := RNE N D in
  if M =? 2 ^ 53 then (2 ^ 52, E + 1) else (M, E).

(** The positive number [M * 2^E] of the format. *)
Definition fin (M E : Z) : spec_float := S754_finite false (Z.to_pos M) E.

(** [N/D] has 53 bits before the point and the exponent [E] is that of a
    normal number that does not overflow when rounded up. *)
Definition at_target (N D E : Z) : Prop :=
  0 < D ∧ 2 ^ 52 * D ≤ N < 2 ^ 53 * D ∧ -1074 ≤ E ≤ 970.

(** The real number a [spec_float] stands for (0 for infinities and NaN). *)
Definition B2R (f : spec_float) : R :=
  match f with
  | S754_finite s m e =>
      ((if s then -1 else 1) * IZR (Zpos m) * powerRZ 2 e)%R
  | _ => 0%R
  end.

Definition val (N D E : Z) : R := (IZR N / IZR D * powerRZ 2 E)%R.

(** A mantissa of exactly 53 bits. *)
Definition normal (M : Z) : Prop := 2 ^ 52 ≤ M < 2 ^ 53.

(** The order of normal numbers [(mantissa, exponent)]: by exponent, then by
    mantissa. *)
Definition nlex (p1 p2 : Z * Z) : Prop :=
  p1.2 < p2.2 ∨ (p1.2 = p2.2 ∧ p1.1 ≤ p2.1).

(** [p] is the positive real [x] rounded to nearest, ties to even. *)
Definition Rnd (x : R) (p : Z * Z) : Prop :=
  ∃ N D E, at_target N D E ∧ x = val N D E ∧ roundpair N D E = p.

Definition pval (p : Z * Z) : R := (IZR p.1 * powerRZ 2 p.2)%R.

(** The real value of a binary64 number. *)
Definition fval (x : float) : R := B2R (Prim2SF x).

(** [x] is a positive normal number with exponent between [lo] and [hi]. *)
Definition pos64 (lo hi : Z) (x : float) : Prop :=
  ∃ M E, Prim2SF x = fin M E ∧ normal M ∧ lo ≤ E ≤ hi.

(** [x] is [+0] or such a number. *)
Definition nonneg64 (lo hi : Z) (x : float) : Prop :=
  Prim2SF x = S754_zero false ∨ pos64 lo hi x.

(** The binary64 number [x] is the real [r >= 0] rounded to nearest, ties
    to even. *)
Definition RndF (r : R) (x : float) : Prop :=
  (r = 0%R ∧ Prim2SF x = S754_zero false)
  ∨ ∃ p, Prim2SF x = fin p.1 p.2 ∧ Rnd r p.

(** [x] is a binary64 number in [0,1] that is [+0] or at least 2^-64, as
    every quotient of two counts below 2^63 is. *)
Definition unit64 (x : float) : Prop :=
  nonneg64 (-116) 12 x ∧ (fval x <= 1)%R.

(** ** Domain records ([internal/domain]) *)

(** [time.Time] values are kept as opaque integers: the engine never reads them. *)
Module UserProductView.
Record t : Type := mk { UserID : Z; ProductID : Z; ViewedAt : Z }.
End UserProductView.

Module UserProductLike.
Record t : Type := mk { UserID : Z; ProductID : Z; LikedAt : Z }.
End UserProductLike.

Module UserProductPurchase.
Record t (F : Type) : Type := mk {
  UserID : Z;
  ProductID : Z;
  Quantity : Z;
  PriceAtPurchase : F;
  PurchasedAt : Z;
}.
Arguments mk {F}.
Arguments UserID {F}.
Arguments ProductID {F}.
Arguments Quantity {F}.
Arguments PriceAtPurchase {F}.
Arguments PurchasedAt {F}.
End UserProductPurchase.

Module Product.
Record t (F : Type) : Type := mk {
  ID : Z;
  Name : string;
  Description : string;
  CategoryID : option Z;       (* *int *)
  Price : F;
  Stock : Z;
  ImageURL : string;
  IsActive : bool;
  CreatedAt : Z;
  UpdatedAt : Z;
}.
Arguments mk {F}.
Arguments ID {F}.
Arguments Name {F}.
Arguments Description {F}.
Arguments CategoryID {F}.
Arguments Price {F}.
Arguments Stock {F}.
Arguments ImageURL {F}.
Arguments IsActive {F}.
Arguments CreatedAt {F}.
Arguments UpdatedAt {F}.
End Product.

Module ProductRecommendation.
Record t (F : Type) : Type := mk {
  ProductID : Z;
  ProductName : string;
  CategoryID : Z;
  Price : F;
  Score : F;
  Reason : string;
}.
Arguments mk {F}.
Arguments ProductID {F}.
Arguments ProductName {F}.
Arguments CategoryID {F}.
Arguments Price {F}.
Arguments Score {F}.
Arguments Reason {F}.
End ProductRecommendation.

Module RecommendationResponse.
Record t (F : Type) : Type := mk {
  UserID : Z;
  Recommendations : list (ProductRecommendation.t F);
  Algorithm : string;
  GeneratedAt : string;
}.
Arguments mk {F}.
Arguments UserID {F}.
Arguments Recommendations {F}.
Arguments Algorithm {F}.
Arguments GeneratedAt {F}.
End RecommendationResponse.

Module UserSimilarity.
Record t (F : Type) : Type := mk {
  UserID : Z;
  SimilarityScore : F;
  CommonLikes : Z;
  CommonViews : Z;
}.
Arguments mk {F}.
Arguments UserID {F}.
Arguments SimilarityScore {F}.
Arguments CommonLikes {F}.
Arguments CommonViews {F}.
End UserSimilarity.

(** ** Collaborators ([internal/repository]) *)

(** The three bulk reads of the interaction store. One request sees one
    snapshot: every call of a method returns the same value, so the reads
    that [GetSimilarUsers] and [getPopularProducts] repeat inside
    [GetRecommendations] agree with its own. A store that fails or changes
    between two reads of one request is outside the model, and with it the
    error prefixed "get similar users"; no statement below is about that
    case. *)
Record InteractionRepository (F : Type) : Type := {
  GetAllUserLikes : result (list UserProductLike.t);
  GetAllUserViews : result (list UserProductView.t);
  GetAllUserPurchases : result (list (UserProductPurchase.t F));
}.
Arguments GetAllUserLikes {F}.
Arguments GetAllUserViews {F}.
Arguments GetAllUserPurchases {F}.

Record ProductRepository (F : Type) : Type := {
  GetByID : Z → result (Product.t F);
}.
Arguments GetByID {F}.

(** The receiver of the service methods. [timeNow] is what
    [time.Now().Format(time.RFC3339)] yields during the call. *)
Record recommendationService (F : Type) : Type := {
  interactionRepo : InteractionRepository F;
  productRepo : ProductRepository F;
  timeNow : string;
}.
Arguments interactionRepo {F}.
Arguments productRepo {F}.
Arguments timeNow {F}.

(** ** Interaction sets *)

Definition len_set (m : gset Z) : Z := Z.of_nat (size m).

(** [len(m)] and [m[k]] for an inner map that may be nil. *)
Definition len_nilable (m : option (gset Z)) : Z :=
  match m with
  | Some m => len_set m
  | None => 0
  end.

Definition has_key (m : option (gset Z)) (k : Z) : bool :=
  match m with
  | Some m => bool_decide (k ∈ m)
  | None => false
  end.

(** [for _, e := range events { if e.UserID == userID { mine[e.ProductID] = true } }] *)
Definition own_products {E} (uid pid : E → Z) (userID : Z) (events : list E)
  : gset Z :=
  foldl (λ mine e, if bool_decide (uid e = userID) then {[pid e]} ∪ mine else mine)
        ∅ events.

(** The same loop with its else branch, which files the event under its user:
    [if others[e.UserID] == nil { others[e.UserID] = make(map[int]bool) };
     others[e.UserID][e.ProductID] = true]. *)
Definition group_products {E} (uid pid : E → Z) (userID : Z) (events : list E)
  : gset Z * gmap Z (gset Z) :=
  foldl (λ acc e,
           if bool_decide (uid e = userID) then ({[pid e]} ∪ acc.1, acc.2)
           else (acc.1, <[uid e := {[pid e]} ∪ default ∅ (acc.2 !! uid e)]> acc.2))
        (∅, ∅) events.

(** [n := 0; for productID := range mine { if other != nil && other[productID] { n++ } }] *)
Definition count_common (mine : gset Z) (other : option (gset Z)) : Z :=
  foldl (λ n productID, if has_key other productID then n + 1 else n)
        0 (elements mine).

(** The local struct of [getPopularProducts]. *)
Record productCount : Type := { productID : Z; count : Z }.

(** [likeCounts[like.ProductID]++] over every like. *)
Definition count_likes (allLikes : list UserProductLike.t) : gmap Z Z :=
  foldl (λ likeCounts like,
           <[UserProductLike.ProductID like :=
               default 0 (likeCounts !! UserProductLike.ProductID like) + 1]> likeCounts)
        ∅ allLikes.

(** [if limit <= 0 || limit > 50 { limit = 10 }] *)
Definition clamp_limit (limit : Z) : Z :=
  if bool_decide (limit ≤ 0 ∨ limit > 50) then 10 else limit.

(** [if err != nil { return nil, fmt.Errorf("<what>: %w", err) }] around a
    service call; a panic keeps unwinding. *)
Definition wrap_call {A} (what : string) (o : outcome A) : outcome A :=
  match o with
  | Failed e => Failed (what +:+ ": " +:+ e)
  | _ => o
  end.

(** ** The service ([internal/service/recommendationService.go]) *)

Section Service.
Context {F : Type} `{!ScoreArith F}.

(** *** GetSimilarUsers *)

(** [sim := 0.0; if union > 0 { sim = float64(common) / float64(union) }] *)
Definition jaccard_ratio (common union : Z) : F :=
  if bool_decide (union > 0) then f_div (f_of_int common) (f_of_int union)
  else f_zero.

(** [(purchaseSimilarity * 0.5) + (likeSimilarity * 0.35) + (viewSimilarity * 0.15)] *)
Definition weighted_sum (purchaseSimilarity likeSimilarity viewSimilarity : F) : F :=
  f_add (f_add (f_mul purchaseSimilarity w_purchase) (f_mul likeSimilarity w_like))
        (f_mul viewSimilarity w_view).

(** The body of the loop [for otherUserID := range allUserIDs]; [None] is
    [continue], [Some] the entry appended to [similarities]. *)
Definition compare_user
    (userLikedProducts userViewedProducts userPurchasedProducts : gset Z)
    (otherUsersLikes otherUsersViews otherUsersPurchases : gmap Z (gset Z))
    (otherUserID : Z) : option (UserSimilarity.t F) :=
  let otherLikes := otherUsersLikes !! otherUserID in
  let otherViews := otherUsersViews !! otherUserID in
  let otherPurchases := otherUsersPurchases !! otherUserID in
  let commonPurchases := count_common userPurchasedProducts otherPurchases in
  let commonLikes := count_common userLikedProducts otherLikes in
  let commonViews := count_common userViewedProducts otherViews in
  if bool_decide (commonLikes = 0 ∧ commonViews = 0 ∧ commonPurchases = 0)
  then None
  else
    let unionPurchases :=
      len_set userPurchasedProducts + len_nilable otherPurchases - commonPurchases in
    let unionLikes :=
      len_set userLikedProducts + len_nilable otherLikes - commonLikes in
    let unionViews :=
      len_set userViewedProducts + len_nilable otherViews - commonViews in
    let purchaseSimilarity := jaccard_ratio commonPurchases unionPurchases in
    let likeSimilarity := jaccard_ratio commonLikes unionLikes in
    let viewSimilarity := jaccard_ratio commonViews unionViews in
    let similarity := weighted_sum purchaseSimilarity likeSimilarity viewSimilarity in
    if f_ltb similarity min_similarity then None
    else Some {| UserSimilarity.UserID := otherUserID;
                 UserSimilarity.SimilarityScore := similarity;
                 UserSimilarity.CommonLikes := commonLikes;
                 UserSimilarity.CommonViews := commonViews |}.

(** [similarities] as the loop leaves it, before sorting. *)
Definition similar_candidates (userID : Z)
    (allLikes : list UserProductLike.t) (allViews : list UserProductView.t)
    (allPurchases : list (UserProductPurchase.t F))
  : list (UserSimilarity.t F) :=
  let likes :=
    group_products UserProductLike.UserID UserProductLike.ProductID userID allLikes in
  let views :=
    group_products UserProductView.UserID UserProductView.ProductID userID allViews in
  let purchases :=
    group_products UserProductPurchase.UserID UserProductPurchase.ProductID
                   userID allPurchases in
  let allUserIDs : gset Z := dom likes.2 ∪ dom views.2 ∪ dom purchases.2 in
  omap (compare_user likes.1 views.1 purchases.1 likes.2 views.2 purchases.2)
       (elements allUserIDs).

(** [similarities[i].SimilarityScore > similarities[j].SimilarityScore] *)
Definition higher_similarity (a b : UserSimilarity.t F) : bool :=
  f_ltb (UserSimilarity.SimilarityScore b) (UserSimilarity.SimilarityScore a).

Definition GetSimilarUsers (s : recommendationService F) (userID limit : Z)
  : outcome (list (UserSimilarity.t F)) :=
  allLikes ← wrap_err "get all likes" (GetAllUserLikes (interactionRepo s));
  allViews ← wrap_err "get all views" (GetAllUserViews (interactionRepo s));
  allPurchases ← wrap_err "get all purchases" (GetAllUserPurchases (interactionRepo s));
  let similarities := similar_candidates userID allLikes allViews allPurchases in
  let similarities := sort_Slice higher_similarity similarities in
  truncate similarities limit.

(** *** getPopularProducts *)

(** The body of [for _, pc := range productCounts]; [None] is [continue]. *)
Definition popular_item (products : ProductRepository F) (maxCount : Z)
    (pc : productCount) : option (ProductRecommendation.t F) :=
  match GetByID products (productID pc) with
  | Err _ => None
  | Ok product =>
      let score := f_div (f_of_int (count pc)) (f_of_int maxCount) in
      let categoryID := default 0 (Product.CategoryID product) in
      Some {| ProductRecommendation.ProductID := productID pc;
              ProductRecommendation.ProductName := Product.Name product;
              ProductRecommendation.CategoryID := categoryID;
              ProductRecommendation.Price := Product.Price product;
              ProductRecommendation.Score := score;
              ProductRecommendation.Reason :=
                "Popular choice - " +:+ fmt_d (count pc) +:+ " users liked this" |}
  end.

(** [productCounts[i].count > productCounts[j].count] *)
Definition more_liked (a b : productCount) : bool := bool_decide (count a > count b).

(** [productCounts] sorted, before the limit is applied. *)
Definition ranked_counts (allLikes : list UserProductLike.t) : list productCount :=
  let likeCounts := count_likes allLikes in
  let productCounts :=
    (λ kv : Z * Z, {| productID := kv.1; count := kv.2 |}) <$> map_to_list likeCounts in
  sort_Slice more_liked productCounts.

(** [maxCount := 1; if len(productCounts) > 0 { maxCount = productCounts[0].count }]
    and the loop over the (already limited) [productCounts]. *)
Definition popular_recommendations (products : ProductRepository F)
    (productCounts : list productCount) : list (ProductRecommendation.t F) :=
  let maxCount := match productCounts with pc :: _ => count pc | [] => 1 end in
  omap (popular_item products maxCount) productCounts.

Definition getPopularProducts (s : recommendationService F) (limit : Z)
  : outcome (RecommendationResponse.t F) :=
  allLikes ← wrap_err "get all likes" (GetAllUserLikes (interactionRepo s));
  productCounts ← truncate (ranked_counts allLikes) limit;
  let recommendations := popular_recommendations (productRepo s) productCounts in
  Done {| RecommendationResponse.UserID := 0;
          RecommendationResponse.Recommendations := recommendations;
          RecommendationResponse.Algorithm := "popularity_based";
          RecommendationResponse.GeneratedAt := timeNow s |}.

(** *** GetRecommendations *)

(** [if productDetails[id] == nil { product, err := GetByID(id);
     if err != nil { continue }; productDetails[id] = product }]:
    [None] is the [continue], [Some] the cache afterwards. *)
Definition cached_product (products : ProductRepository F)
    (productDetails : gmap Z (Product.t F)) (id : Z)
  : option (gmap Z (Product.t F)) :=
  match productDetails !! id with
  | Some _ => Some productDetails
  | None =>
      match GetByID products id with
      | Ok product => Some (<[id := product]> productDetails)
      | Err _ => None
      end
  end.

(** [productScores[id] += x] *)
Definition add_score (productScores : gmap Z F) (id : Z) (x : F) : gmap Z F :=
  <[id := f_add (default f_zero (productScores !! id)) x]> productScores.

(** The body of the inner loop of a scoring pass, for the neighbor [simUser]
    and the event [e], over the pair [(productScores, productDetails)].
    [skip] is the exclusion test of the pass and [boost] its multiplier; the
    three ways to leave the state as it is are the three [continue]s. *)
Definition score_event {E} (uid pid : E → Z) (skip : Z → bool) (boost : F)
    (products : ProductRepository F) (simUser : UserSimilarity.t F)
    (st : gmap Z F * gmap Z (Product.t F)) (e : E)
  : gmap Z F * gmap Z (Product.t F) :=
  if bool_decide (uid e ≠ UserSimilarity.UserID simUser) then st
  else if skip (pid e) then st
  else match cached_product products st.2 (pid e) with
       | None => st
       | Some productDetails =>
           (add_score st.1 (pid e)
                      (f_mul (UserSimilarity.SimilarityScore simUser) boost),
            productDetails)
       end.

(** One scoring pass:
    [for _, simUser := range similarUsers { for _, e := range events { ... } }]. *)
Definition score_pass {E} (uid pid : E → Z) (skip : Z → bool) (boost : F)
    (products : ProductRepository F)
    (similarUsers : list (UserSimilarity.t F)) (events : list E)
    (st : gmap Z F * gmap Z (Product.t F))
  : gmap Z F * gmap Z (Product.t F) :=
  foldl (λ st simUser,
           foldl (score_event uid pid skip boost products simUser) st events)
        st similarUsers.

(** [userPurchasedProducts[purchase.ProductID]], weight 3.0. *)
Definition purchase_pass (products : ProductRepository F)
    (userPurchasedProducts : gset Z)
    (similarUsers : list (UserSimilarity.t F))
    (allPurchases : list (UserProductPurchase.t F)) :=
  score_pass UserProductPurchase.UserID UserProductPurchase.ProductID
             (λ id, bool_decide (id ∈ userPurchasedProducts))
             boost_purchase products similarUsers allPurchases.

(** [userLikedProducts[like.ProductID] || userPurchasedProducts[like.ProductID]],
    weight 1.5. *)
Definition like_pass (products : ProductRepository F)
    (userLikedProducts userPurchasedProducts : gset Z)
    (similarUsers : list (UserSimilarity.t F))
    (allLikes : list UserProductLike.t) :=
  score_pass UserProductLike.UserID UserProductLike.ProductID
             (λ id, bool_decide (id ∈ userLikedProducts)
                    || bool_decide (id ∈ userPurchasedProducts))
             boost_like products similarUsers allLikes.

(** Both passes, from empty maps. *)
Definition aggregate (products : ProductRepository F)
    (userLikedProducts userPurchasedProducts : gset Z)
    (similarUsers : list (UserSimilarity.t F))
    (allLikes : list UserProductLike.t)
    (allPurchases : list (UserProductPurchase.t F))
  : gmap Z F * gmap Z (Product.t F) :=
  like_pass products userLikedProducts userPurchasedProducts similarUsers allLikes
    (purchase_pass products userPurchasedProducts similarUsers allPurchases (∅, ∅)).

(** [for productID, score := range productScores { ... append ... }] *)
Definition to_recommendations (productScores : gmap Z F)
    (productDetails : gmap Z (Product.t F)) : list (ProductRecommendation.t F) :=
  omap (λ kv : Z * F,
          match productDetails !! kv.1 with
          | None => None
          | Some product =>
              let categoryID := default 0 (Product.CategoryID product) in
              Some {| ProductRecommendation.ProductID := kv.1;
                      ProductRecommendation.ProductName := Product.Name product;
                      ProductRecommendation.CategoryID := categoryID;
                      ProductRecommendation.Price := Product.Price product;
                      ProductRecommendation.Score := kv.2;
                      ProductRecommendation.Reason :=
                        "Users with similar interests liked this" |}
          end)
       (map_to_list productScores).

(** [recommendations[i].Score > recommendations[j].Score] *)
Definition higher_score (a b : ProductRecommendation.t F) : bool :=
  f_ltb (ProductRecommendation.Score b) (ProductRecommendation.Score a).

Definition GetRecommendations (s : recommendationService F) (userID limit : Z)
  : outcome (RecommendationResponse.t F) :=
  let limit := clamp_limit limit in
  allLikes ← wrap_err "get all likes" (GetAllUserLikes (interactionRepo s));
  allViews ← wrap_err "get all views" (GetAllUserViews (interactionRepo s));
  allPurchases ← wrap_err "get all purchases" (GetAllUserPurchases (interactionRepo s));
  let userLikedProducts :=
    own_products UserProductLike.UserID UserProductLike.ProductID userID allLikes in
  let userViewedProducts :=
    own_products UserProductView.UserID UserProductView.ProductID userID allViews in
  let userPurchasedProducts :=
    own_products UserProductPurchase.UserID UserProductPurchase.ProductID
                 userID allPurchases in
  if bool_decide (len_set userLikedProducts = 0 ∧ len_set userViewedProducts = 0
                  ∧ len_set userPurchasedProducts = 0)
  then getPopularProducts s limit
  else
    similarUsers ← wrap_call "get similar users" (GetSimilarUsers s userID 10);
    if bool_decide (len similarUsers = 0) then getPopularProducts s limit
    else
      let st := aggregate (productRepo s) userLikedProducts userPurchasedProducts
                          similarUsers allLikes allPurchases in
      let recommendations := to_recommendations st.1 st.2 in
      let recommendations := sort_Slice higher_score recommendations in
      recommendations ← truncate recommendations limit;
      if bool_decide (len recommendations = 0) then getPopularProducts s limit
      else
        Done {| RecommendationResponse.UserID := userID;
                RecommendationResponse.Recommendations := recommendations;
                RecommendationResponse.Algorithm := "collaborative_filtering";
                RecommendationResponse.GeneratedAt := timeNow s |}.

End Service.

(** *** cosineSimilarity *)

(** The helper works on binary64 values directly ([math.Sqrt]). A
    [map[int]bool] argument may hold [false] values: [len] counts every key,
    [b[key]] is the stored value, or [false] for a missing key. *)
Definition dot_product (a b : gmap Z bool) : Z :=
  foldl (λ dotProduct kv, if default false (b !! kv.1) then dotProduct + 1
                          else dotProduct)
        0 (map_to_list a).

Definition cosineSimilarity (a b : gmap Z bool) : float :=
  if bool_decide (len (map_to_list a) = 0 ∨ len (map_to_list b) = 0) then 0%float
  else
    let dotProduct := dot_product a b in
    let magnitudeA := PrimFloat.sqrt (float64_of_int (len (map_to_list a))) in
    let magnitudeB := PrimFloat.sqrt (float64_of_int (len (map_to_list b))) in
    if PrimFloat.eqb magnitudeA 0%float || PrimFloat.eqb magnitudeB 0%float
    then 0%float
    else PrimFloat.div (float64_of_int dotProduct)
                       (PrimFloat.mul magnitudeA magnitudeB).

(** The map holds only [true] values: it is a set. *)
Definition only_true (a : gmap Z bool) : Prop :=
  ∀ key value, a !! key = Some value → value = true.

(** ** The HTTP handlers ([internal/delivery/rest/v1/profile_api.go]) *)

Module Handler.

(** A value kept under a key of the request context: a string, or a value
    of another type. *)
Inductive any : Type :=
| Str (s : string)
| NotStr.

(** What the two handlers read of a request: the context value under
    ["userId"], if set, and the raw query parameter ["limit"], if present. *)
Record Context : Type := {
  userId : option any;
  limit : option string;
}.

(** [dto.ErrorResponse], [domain.RecommendationResponse] and the [gin.H] of
    the similar-users endpoint. *)
Inductive Body (F : Type) : Type :=
| ErrorResponse (Error : string)
| Recommendations (response : RecommendationResponse.t F)
| SimilarUsers (user_id : Z) (similar_users : list (UserSimilarity.t F))
               (count : Z).
Arguments ErrorResponse {F} Error.
Arguments Recommendations {F} response.
Arguments SimilarUsers {F} user_id similar_users count.

(** [h.logger.WithComponent(component).WithError(err).Error(message)] *)
Record LogEntry : Type := {
  component : string;
  error : string;
  message : string;
}.

(** The [c.JSON(status, body)] of a handler and what it logged before. *)
Record Reply (F : Type) : Type := {
  status : Z;
  body : Body F;
  logged : list LogEntry;
}.
Arguments status {F} r.
Arguments body {F} r.
Arguments logged {F} r.

Section Handlers.
Context {F : Type} `{!ScoreArith F}.

(** [strconv.Atoi]: the value and the error, if any. *)
Variable Atoi : string → Z * option string.

(** [limit, _ := strconv.Atoi(c.DefaultQuery("limit", "10"));
     if limit <= 0 || limit > 50 { limit = 10 }] *)
Definition query_limit (c : Context) : Z :=
  let limit := (Atoi (default "10" (limit c))).1 in
  if bool_decide (limit ≤ 0 ∨ limit > 50) then 10 else limit.

(** The common head of the two handlers: the reply that ends the request
    early, or the user id to go on with. [userIDStr.(string)] panics on a
    value that is not a string. *)
Definition user_id (c : Context) (next : Z → outcome (Reply F))
  : outcome (Reply F) :=
  match userId c with
  | None =>
      Done {| status := 401; body := ErrorResponse "user not authenticated";
              logged := [] |}
  | Some NotStr => Panicked "interface conversion"
  | Some (Str userIDStr) =>
      match Atoi userIDStr with
      | (_, Some _) =>
          Done {| status := 400; body := ErrorResponse "invalid user id";
                  logged := [] |}
      | (userID, None) => next userID
      end
  end.

Definition GetRecommendations (s : recommendationService F) (c : Context)
  : outcome (Reply F) :=
  user_id c (λ userID,
    let limit := query_limit c in
    match GetRecommendations s userID limit with
    | Failed err =>
        Done {| status := 500;
                body := ErrorResponse "failed to get recommendations";
                logged := [{| component := "recommendation"; error := err;
                              message := "Failed to get recommendations" |}] |}
    | Done recommendations =>
        Done {| status := 200; body := Recommendations recommendations;
                logged := [] |}
    | Panicked msg => Panicked msg
    end).

Definition GetSimilarUsers (s : recommendationService F) (c : Context)
  : outcome (Reply F) :=
  user_id c (λ userID,
    let limit := query_limit c in
    match GetSimilarUsers s userID limit with
    | Failed err =>
        Done {| status := 500;
                body := ErrorResponse "failed to get similar users";
                logged := [{| component := "recommendation"; error := err;
                              message := "Failed to get similar users" |}] |}
    | Done similarUsers =>
        Done {| status := 200;
                body := SimilarUsers userID similarUsers (len similarUsers);
                logged := [] |}
    | Panicked msg => Panicked msg
    end).

End Handlers.

End Handler.

(** ** The vocabulary of the design document *)

(** "User interaction set": the product identifiers of one user's events of
    one type. *)
Definition interaction_set {E} (uid pid : E → Z) (user : Z) (events : list E)
  : gset Z :=
  list_to_set (pid <$> filter (λ e, uid e = user) events).

(** The three interaction sets of a user. *)
Record interactions : Type := {
  liked : gset Z;
  viewed : gset Z;
  purchased : gset Z;
}.

Definition interactions_of {F} (user : Z)
    (allLikes : list UserProductLike.t) (allViews : list UserProductView.t)
    (allPurchases : list (UserProductPurchase.t F)) : interactions :=
  {| liked :=
       interaction_set UserProductLike.UserID UserProductLike.ProductID user allLikes;
     viewed :=
       interaction_set UserProductView.UserID UserProductView.ProductID user allViews;
     purchased :=
       interaction_set UserProductPurchase.UserID UserProductPurchase.ProductID
                       user allPurchases |}.

(** Two users share a product when some interaction type has it on both sides. *)
Definition share_nothing (a b : interactions) : Prop :=
  liked a ∩ liked b = ∅ ∧ viewed a ∩ viewed b = ∅ ∧ purchased a ∩ purchased b = ∅.

#[global] Instance share_nothing_dec a b : Decision (share_nothing a b).
Proof. unfold share_nothing. apply _. Defined.

(** The number of like events on a product, over all users. *)
Definition like_count (allLikes : list UserProductLike.t) (product : Z) : Z :=
  len (filter (λ like, UserProductLike.ProductID like = product) allLikes).

(** [m] is the largest like count of any product. *)
Definition top_like_count (allLikes : list UserProductLike.t) (m : Z) : Prop :=
  (∃ product, like_count allLikes product = m)
  ∧ ∀ product, like_count allLikes product ≤ m.

Section Formulas.
Context {F : Type} `{!ScoreArith F}.

(** "Jaccard index: |A ∩ B| / |A ∪ B|, where union size = |A| + |B| -
    |intersection|. If the union is empty, that type's similarity is 0."
    Written from the document's words, to be compared with [compare_user]. *)
Definition jaccard_index (A B : gset Z) : F :=
  let intersection := len_set (A ∩ B) in
  let union := len_set A + len_set B - intersection in
  if bool_decide (union = 0) then f_zero
  else f_div (f_of_int intersection) (f_of_int union).

(** "purchase*0.50 + like*0.35 + view*0.15" *)
Definition weighted_jaccard (target other : interactions) : F :=
  f_add (f_add (f_mul (jaccard_index (purchased target) (purchased other)) w_purchase)
               (f_mul (jaccard_index (liked target) (liked other)) w_like))
        (f_mul (jaccard_index (viewed target) (viewed other)) w_view).

(** "count / max_count": the like count of a product over the count [m]. *)
Definition normalized_score (allLikes : list UserProductLike.t) (m product : Z)
  : F :=
  f_div (f_of_int (like_count allLikes product)) (f_of_int m).

End Formulas.

(** The comparison [<] of the arithmetic never holds in both directions. *)
Definition ltb_asymmetric (F : Type) `{!ScoreArith F} : Prop :=
  ∀ x y : F, f_ltb x y = true → f_ltb y x = false.

(** The entry of the neighbor list for user [v]. *)
Definition similarity_entry {F} `{!ScoreArith F} (target other : interactions)
    (v : Z) : UserSimilarity.t F :=
  {| UserSimilarity.UserID := v;
     UserSimilarity.SimilarityScore := weighted_jaccard target other;
     UserSimilarity.CommonLikes := len_set (liked target ∩ liked other);
     UserSimilarity.CommonViews := len_set (viewed target ∩ viewed other) |}.

(** The catalog lookup of a product succeeds. *)
Definition in_catalog {F} (products : ProductRepository F) (id : Z) : bool :=
  match GetByID products id with
  | Ok _ => true
  | Err _ => false
  end.

(** The state of the aggregation is consistent: the cache holds only what
    the catalog returned, and every scored product is cached. *)
Definition cache_ok {F} (products : ProductRepository F)
    (st : gmap Z F * gmap Z (Product.t F)) : Prop :=
  (∀ id product, st.2 !! id = Some product → GetByID products id = Ok product)
  ∧ dom st.1 ⊆ dom st.2.

(** The user has no event of any type ("cold start"). *)
Definition no_events (user : interactions) : Prop :=
  liked user = ∅ ∧ viewed user = ∅ ∧ purchased user = ∅.

#[global] Instance no_events_dec user : Decision (no_events user).
Proof. unfold no_events. apply _. Defined.

(** The interaction store answers its three bulk reads with these events. *)
Definition store_holds {F} (s : recommendationService F)
    (allLikes : list UserProductLike.t) (allViews : list UserProductView.t)
    (allPurchases : list (UserProductPurchase.t F)) : Prop :=
  GetAllUserLikes (interactionRepo s) = Ok allLikes
  ∧ GetAllUserViews (interactionRepo s) = Ok allViews
  ∧ GetAllUserPurchases (interactionRepo s) = Ok allPurchases.

(** ** Concrete stores *)

(** Small binary64 instances of the service, on which the statements below
    are evaluated. *)
Module Scenario.

Definition product (id : Z) : Product.t float :=
  Product.mk id "item" "" (Some 3) 9.5%float 4 "" true 0 0.

(** A catalog holding exactly the products [have]; [domain.ErrNotFound]
    otherwise. *)
Definition catalog (have : list Z) : ProductRepository float :=
  {| GetByID id :=
       if bool_decide (id ∈ have) then Ok (product id) else Err "not found" |}.

Definition like (user product : Z) : UserProductLike.t :=
  UserProductLike.mk user product 0.

Definition view (user product : Z) : UserProductView.t :=
  UserProductView.mk user product 0.

Definition purchase (user product : Z) : UserProductPurchase.t float :=
  UserProductPurchase.mk user product 1 9.5%float 0.

Definition service (allLikes : list UserProductLike.t)
    (allViews : list UserProductView.t)
    (allPurchases : list (UserProductPurchase.t float)) (have : list Z)
  : recommendationService float :=
  {| interactionRepo := {| GetAllUserLikes := Ok allLikes;
                           GetAllUserViews := Ok allViews;
                           GetAllUserPurchases := Ok allPurchases |};
     productRepo := catalog have;
     timeNow := "2025-11-07T12:00:00Z" |}.

(** User 1 bought product 101; user 2 bought 101 and 102. *)
Definition shared_purchase_purchases : list (UserProductPurchase.t float) :=
  [purchase 1 101; purchase 2 101; purchase 2 102].

Definition shared_purchase : recommendationService float :=
  service [] [] shared_purchase_purchases [101; 102].

Definition shared_purchase_user (user : Z) : interactions :=
  interactions_of user [] [] shared_purchase_purchases.

(** What [GetSimilarUsers shared_purchase 1 10] returns. *)
Definition shared_purchase_neighbors : list (UserSimilarity.t float) :=
  [UserSimilarity.mk 2 0.25%float 0 0].

(** User 2 mirrors user 1 in all three types; user 3 shares one view out of
    three; user 4 shares nothing. *)
Definition neighbors_likes : list UserProductLike.t :=
  [like 1 101; like 2 101; like 4 104].

Definition neighbors_views : list UserProductView.t :=
  [view 1 101; view 2 101; view 3 101; view 3 102; view 3 103].

Definition neighbors_purchases : list (UserProductPurchase.t float) :=
  [purchase 1 101; purchase 2 101; purchase 4 105].

Definition neighbors : recommendationService float :=
  service neighbors_likes neighbors_views neighbors_purchases [101; 102; 103; 104; 105].

Definition neighbors_user (user : Z) : interactions :=
  interactions_of user neighbors_likes neighbors_views neighbors_purchases.

(** What [GetSimilarUsers neighbors 1 10] returns. *)
Definition neighbors_of_1 : list (UserSimilarity.t float) :=
  [UserSimilarity.mk 2 1%float 1 1].

(** Users 1 and 2 liked the same single product and did nothing else. *)
Definition likes_only : recommendationService float :=
  service [like 1 101; like 2 101] [] [] [101].

(** Users 1 and 2 have interactions, none in common. *)
Definition strangers_likes : list UserProductLike.t :=
  [like 1 101; like 2 102; like 2 103].

Definition strangers_purchases : list (UserProductPurchase.t float) :=
  [purchase 1 104; purchase 2 105].

Definition strangers : recommendationService float :=
  service strangers_likes [] strangers_purchases [101; 102; 103; 104; 105].

Definition strangers_user (user : Z) : interactions :=
  interactions_of user strangers_likes [] strangers_purchases.

(** A collaborative recommendation with the fields of [product]. *)
Definition recommended (id : Z) (score : float) : ProductRecommendation.t float :=
  ProductRecommendation.mk id "item" 3 9.5%float score
                           "Users with similar interests liked this".

(** A fallback recommendation of a product with [likes] likes. *)
Definition popular (id : Z) (score : float) (likes : string)
  : ProductRecommendation.t float :=
  ProductRecommendation.mk id "item" 3 9.5%float score
    ("Popular choice - " +:+ likes +:+ " users liked this").

Definition response (user : Z) (items : list (ProductRecommendation.t float))
    (algorithm : string) : RecommendationResponse.t float :=
  RecommendationResponse.mk user items algorithm "2025-11-07T12:00:00Z".

(** User 1 bought 101. User 2 bought 101, 102 and 103 and liked 104 and 105;
    products 102 and 104 have since been deleted from the catalog. *)
Definition deleted_likes : list UserProductLike.t :=
  [like 2 104; like 2 105].

Definition deleted_purchases : list (UserProductPurchase.t float) :=
  [purchase 1 101; purchase 2 101; purchase 2 102; purchase 2 103].

Definition deleted : recommendationService float :=
  service deleted_likes [] deleted_purchases [101; 103; 105].

(** What [GetRecommendations shared_purchase 1 10] returns. *)
Definition shared_purchase_response : RecommendationResponse.t float :=
  response 1 [recommended 102 0.75%float] "collaborative_filtering".

Definition deleted_user (user : Z) : interactions :=
  interactions_of user deleted_likes [] deleted_purchases.

(** What [GetRecommendations deleted 1 10] returns. *)
Definition deleted_response : RecommendationResponse.t float :=
  response 1 [recommended 103 0.5%float; recommended 105 0.25%float]
           "collaborative_filtering".

(** User 1 has no event. Product 101 has two likes, product 102 one. *)
Definition cold_likes : list UserProductLike.t :=
  [like 2 101; like 3 101; like 2 102].

Definition cold : recommendationService float :=
  service cold_likes [] [] [101; 102].

(** What [GetRecommendations cold 1 10] returns. *)
Definition cold_response : RecommendationResponse.t float :=
  response 0 [popular 101 1%float "2"; popular 102 0.5%float "1"]
           "popularity_based".

(** The same likes after product 101 was deleted from the catalog. *)
Definition cold_top_deleted : recommendationService float :=
  service cold_likes [] [] [102].

(** What [GetRecommendations cold_top_deleted 1 10] returns. *)
Definition cold_top_deleted_response : RecommendationResponse.t float :=
  response 0 [popular 102 0.5%float "1"] "popularity_based".

End Scenario.

(** ** Concrete requests *)

Module Request.

(** A reader of decimal numerals in the place of [strconv.Atoi]; the two
    agree on the strings used below. *)
Definition Atoi (s : string) : Z * option string :=
  match NilZero.int_of_string s with
  | Some n => (Z.of_int n, None)
  | None => (0, Some "invalid syntax")
  end.

(** A request that passed the authentication middleware as user [user]. *)
Definition authenticated (user : string) (limit : option string)
  : Handler.Context :=
  {| Handler.userId := Some (Handler.Str user); Handler.limit := limit |}.

End Request.

(** ** Bounded checks of the binary64 arithmetic *)

(** Every value a per-type similarity can take when the union has at most
    [n] products. *)
Definition ratios_up_to (n : Z) : list float :=
  f_zero :: (union ← seqZ 1 n; common ← seqZ 0 (union + 1);
             [jaccard_ratio common union]).

Definition in_unit_interval (x : float) : bool :=
  PrimFloat.leb 0%float x && PrimFloat.leb x 1%float.

(** All combined scores over those values lie in [0,1]. *)
Definition scores_in_unit_interval (n : Z) : bool :=
  let ratios := ratios_up_to n in
  forallb (λ purchaseSimilarity,
    forallb (λ likeSimilarity,
      forallb (λ viewSimilarity,
        in_unit_interval
          (weighted_sum purchaseSimilarity likeSimilarity viewSimilarity))
        ratios) ratios) ratios.

(** [float64(k) / float64(k)] is 1.0 for every [k] from 1 to [n]. *)
Definition self_ratio_is_one (n : Z) : bool :=
  forallb (λ k, PrimFloat.eqb (jaccard_ratio k k) 1%float) (seqZ 1 n).

(** * Properties *)

(** ** Slices, sorting and calls *)

Lemma len_nonneg {A} (s : list A) : 0 ≤ len s.
Proof. unfold len. lia. Qed.

Lemma truncate_nonneg {A} (s : list A) (limit : Z) :
  0 ≤ limit → truncate s limit = Done (take (Z.to_nat limit) s).
Proof.
  intros Hl. unfold truncate, slice_to, len.
  case_bool_decide as Hgt.
  - rewrite bool_decide_true by lia. done.
  - rewrite take_ge by lia. done.
Qed.

Lemma truncate_negative {A} (s : list A) (limit : Z) :
  limit < 0 → truncate s limit = Panicked "slice bounds out of range".
Proof.
  intros Hl. unfold truncate, slice_to.
  pose proof (len_nonneg s).
  rewrite bool_decide_true by lia.
  rewrite bool_decide_false by lia. done.
Qed.

Lemma truncate_Done {A} (s l : list A) (limit : Z) :
  truncate s limit = Done l → 0 ≤ limit ∧ l = take (Z.to_nat limit) s.
Proof.
  intros H. destruct (Z_lt_le_dec limit 0) as [Hneg|Hpos].
  - rewrite truncate_negative in H by done. discriminate.
  - rewrite truncate_nonneg in H by done. by inversion H.
Qed.

Lemma truncate_len {A} (s l : list A) (limit : Z) :
  truncate s limit = Done l → len l ≤ limit.
Proof.
  intros [Hl ->]%truncate_Done. unfold len. rewrite length_take. lia.
Qed.

Lemma sort_Slice_perm {A} (less : A → A → bool) (s : list A) :
  sort_Slice less s ≡ₚ s.
Proof. apply merge_sort_Permutation. Qed.

Lemma elem_of_sort_Slice {A} (less : A → A → bool) (s : list A) x :
  x ∈ sort_Slice less s ↔ x ∈ s.
Proof. by rewrite sort_Slice_perm. Qed.

(** ** Interaction sets *)

Lemma elem_of_interaction_set {E} (uid pid : E → Z) user events p :
  p ∈ interaction_set uid pid user events
  ↔ ∃ e, e ∈ events ∧ uid e = user ∧ pid e = p.
Proof.
  unfold interaction_set. rewrite elem_of_list_to_set, list_elem_of_fmap.
  split.
  - intros (e & -> & [? ?]%list_elem_of_filter). eauto.
  - intros (e & ? & ? & <-). exists e. by rewrite list_elem_of_filter.
Qed.

Lemma interaction_set_snoc {E} (uid pid : E → Z) user events e :
  interaction_set uid pid user (events ++ [e])
  = if bool_decide (uid e = user)
    then {[pid e]} ∪ interaction_set uid pid user events
    else interaction_set uid pid user events.
Proof.
  apply set_eq. intros p.
  case_bool_decide as Hu; rewrite ?elem_of_union, ?elem_of_singleton,
    !elem_of_interaction_set; setoid_rewrite elem_of_app;
    setoid_rewrite list_elem_of_singleton.
  - split.
    + intros (e' & [?| ->] & ? & ?); eauto.
    + intros [->|(e' & ? & ? & ?)]; eauto 6.
  - split.
    + intros (e' & [?| ->] & ? & ?); [eauto|done].
    + intros (e' & ? & ? & ?); eauto 6.
Qed.

(** The loop of [GetRecommendations] builds the user's interaction set. *)
Lemma own_products_spec {E} (uid pid : E → Z) userID events :
  own_products uid pid userID events = interaction_set uid pid userID events.
Proof.
  unfold own_products.
  induction events as [|e events IH] using rev_ind; [done|].
  rewrite foldl_snoc, IH, interaction_set_snoc. done.
Qed.

(** The loop of [GetSimilarUsers] builds the same set for the target ... *)
Lemma group_products_own {E} (uid pid : E → Z) userID events :
  (group_products uid pid userID events).1
  = interaction_set uid pid userID events.
Proof.
  unfold group_products.
  induction events as [|e events IH] using rev_ind; [done|].
  rewrite foldl_snoc, interaction_set_snoc.
  case_bool_decide; cbn [fst snd]; by rewrite IH.
Qed.

(** ... and files every other user's set under that user's id; users without
    an event of the type have no entry (a nil inner map). *)
Lemma group_products_other {E} (uid pid : E → Z) userID events other :
  (group_products uid pid userID events).2 !! other
  = if bool_decide (other ≠ userID
                    ∧ interaction_set uid pid other events ≠ ∅)
    then Some (interaction_set uid pid other events) else None.
Proof.
  unfold group_products.
  induction events as [|e events IH] using rev_ind.
  - simpl. rewrite lookup_empty. rewrite bool_decide_false; [done|].
    intros [_ H]. by apply H.
  - rewrite foldl_snoc, interaction_set_snoc.
    set (acc := foldl _ _ events) in *.
    destruct (decide (uid e = userID)) as [Hme|Hme].
    + rewrite (bool_decide_true (uid e = userID)) by done. cbn [fst snd].
      rewrite IH. destruct (decide (uid e = other)) as [Ho|Ho].
      * rewrite !bool_decide_false; [done|intros [? _]; congruence..].
      * by rewrite (bool_decide_false (uid e = other)).
    + rewrite (bool_decide_false (uid e = userID)) by done. cbn [fst snd].
      destruct (decide (uid e = other)) as [Ho|Ho].
      * rewrite Ho in Hme |- *.
        rewrite lookup_insert_eq, IH, (bool_decide_true (other = other)) by done.
        assert (Hne : {[pid e]} ∪ interaction_set uid pid other events ≠ ∅)
          by set_solver.
        rewrite (bool_decide_true (_ ∧ {[pid e]} ∪ _ ≠ _)) by done.
        f_equal. case_bool_decide as Hs; simpl; [done|].
        apply not_and_l in Hs as [Hs|Hs]; [done|].
        apply dec_stable in Hs. by rewrite Hs.
      * rewrite lookup_insert_ne by done. rewrite IH.
        by rewrite (bool_decide_false (uid e = other)).
Qed.

Lemma group_products_default {E} (uid pid : E → Z) userID events other :
  other ≠ userID →
  default ∅ ((group_products uid pid userID events).2 !! other)
  = interaction_set uid pid other events.
Proof.
  intros Hne. rewrite group_products_other.
  case_bool_decide as H; simpl; [done|].
  apply not_and_l in H as [H|H]; [done|].
  apply dec_stable in H. by rewrite H.
Qed.

Lemma elem_of_dom_group_products {E} (uid pid : E → Z) userID events other :
  other ∈ dom (group_products uid pid userID events).2
  ↔ other ≠ userID ∧ interaction_set uid pid other events ≠ ∅.
Proof.
  rewrite elem_of_dom, group_products_other.
  case_bool_decide as H.
  - split; [done|]. intros _. by eexists.
  - split; [by intros [? ?]|done].
Qed.

(** ** The similarity loop *)

Lemma foldl_count {A} (P : A → bool) (l : list A) (n : Z) :
  foldl (λ n x, if P x then n + 1 else n) n l
  = n + len (filter (λ x, P x = true) l).
Proof.
  unfold len. revert n. induction l as [|x l IH]; intros n; simpl; [lia|].
  rewrite IH, filter_cons. destruct (P x) eqn:HP.
  - rewrite decide_True by done. simpl. lia.
  - rewrite decide_False by done. lia.
Qed.

(** The counting loop computes the size of the intersection. *)
Lemma count_common_spec (mine : gset Z) (other : option (gset Z)) :
  count_common mine other = len_set (mine ∩ default ∅ other).
Proof.
  unfold count_common, len_set. rewrite foldl_count, Z.add_0_l.
  unfold len, size, set_size. simpl. f_equal.
  apply Permutation_length, NoDup_Permutation.
  - apply NoDup_filter, NoDup_elements.
  - apply NoDup_elements.
  - intros p. rewrite list_elem_of_filter, !elem_of_elements, elem_of_intersection.
    destruct other as [o|]; simpl.
    + rewrite bool_decide_eq_true. tauto.
    + rewrite elem_of_empty. split; [by intros [? _]|tauto].
Qed.

Lemma len_nilable_spec (other : option (gset Z)) :
  len_nilable other = len_set (default ∅ other).
Proof. by destruct other. Qed.

Lemma len_set_0 (X : gset Z) : len_set X = 0 ↔ X = ∅.
Proof.
  unfold len_set. split.
  - intros H. apply leibniz_equiv, size_empty_iff. lia.
  - intros ->. by rewrite size_empty.
Qed.

Lemma len_set_nonneg (X : gset Z) : 0 ≤ len_set X.
Proof. unfold len_set. lia. Qed.

Lemma len_set_inter_l (A B : gset Z) : len_set (A ∩ B) ≤ len_set A.
Proof.
  unfold len_set. apply Nat2Z.inj_le, subseteq_size, intersection_subseteq_l.
Qed.

Lemma len_set_inter_r (A B : gset Z) : len_set (A ∩ B) ≤ len_set B.
Proof.
  unfold len_set. apply Nat2Z.inj_le, subseteq_size, intersection_subseteq_r.
Qed.

Section SimilarityProofs.
Context {F : Type} `{!ScoreArith F}.

(** The guarded division of the code is the Jaccard index of the document. *)
Lemma jaccard_ratio_spec (A B : gset Z) :
  jaccard_ratio (F:=F) (len_set (A ∩ B)) (len_set A + len_set B - len_set (A ∩ B))
  = jaccard_index A B.
Proof.
  unfold jaccard_ratio, jaccard_index.
  pose proof (len_set_inter_l A B). pose proof (len_set_nonneg B).
  case_bool_decide; case_bool_decide; try done; lia.
Qed.

(** One iteration of the loop, in the document's terms. *)
Lemma compare_user_spec uL uV uP (oLs oVs oPs : gmap Z (gset Z)) v :
  let target := {| liked := uL; viewed := uV; purchased := uP |} in
  let other := {| liked := default ∅ (oLs !! v);
                  viewed := default ∅ (oVs !! v);
                  purchased := default ∅ (oPs !! v) |} in
  compare_user (F:=F) uL uV uP oLs oVs oPs v
  = if bool_decide (share_nothing target other) then None
    else if f_ltb (weighted_jaccard target other) min_similarity then None
    else Some {| UserSimilarity.UserID := v;
                 UserSimilarity.SimilarityScore := weighted_jaccard target other;
                 UserSimilarity.CommonLikes := len_set (liked target ∩ liked other);
                 UserSimilarity.CommonViews := len_set (viewed target ∩ viewed other) |}.
Proof.
  intros target other. unfold compare_user.
  rewrite !count_common_spec, !len_nilable_spec, !jaccard_ratio_spec.
  destruct (decide (share_nothing target other)) as [Hs|Hs].
  - rewrite (bool_decide_true (share_nothing _ _)) by done.
    rewrite bool_decide_true; [done|].
    rewrite !len_set_0. by destruct Hs as (?&?&?).
  - rewrite (bool_decide_false (share_nothing _ _)) by done.
    rewrite bool_decide_false; [done|].
    rewrite !len_set_0. intros (?&?&?). by apply Hs.
Qed.

End SimilarityProofs.

(** ** GetSimilarUsers *)

Section GetSimilarUsersProofs.
Context {F : Type} `{!ScoreArith F}.
Implicit Types (allLikes : list UserProductLike.t)
  (allViews : list UserProductView.t)
  (allPurchases : list (UserProductPurchase.t F)).

Lemma compare_user_groups userID allLikes allViews allPurchases v :
  v ≠ userID →
  let likes :=
    group_products UserProductLike.UserID UserProductLike.ProductID userID allLikes in
  let views :=
    group_products UserProductView.UserID UserProductView.ProductID userID allViews in
  let purchases :=
    group_products UserProductPurchase.UserID UserProductPurchase.ProductID
                   userID allPurchases in
  let target := interactions_of userID allLikes allViews allPurchases in
  let other := interactions_of v allLikes allViews allPurchases in
  compare_user likes.1 views.1 purchases.1 likes.2 views.2 purchases.2 v
  = if bool_decide (share_nothing target other) then None
    else if f_ltb (weighted_jaccard target other) min_similarity then None
    else Some (similarity_entry target other v).
Proof.
  intros Hv likes views purchases target other.
  rewrite compare_user_spec. subst likes views purchases.
  rewrite !group_products_own, !group_products_default by done.
  done.
Qed.

(** Who is in [similarities] when the loop ends. *)
Lemma elem_of_similar_candidates userID allLikes allViews allPurchases e :
  e ∈ similar_candidates userID allLikes allViews allPurchases
  ↔ ∃ v, let target := interactions_of userID allLikes allViews allPurchases in
         let other := interactions_of v allLikes allViews allPurchases in
         v ≠ userID
         ∧ ¬ share_nothing target other
         ∧ f_ltb (weighted_jaccard target other) min_similarity = false
         ∧ e = similarity_entry target other v.
Proof.
  unfold similar_candidates. rewrite list_elem_of_omap. split.
  - intros (v & Hv & He). exists v. simpl.
    assert (v ≠ userID) as Hne.
    { apply elem_of_elements in Hv.
      rewrite !elem_of_union, !elem_of_dom_group_products in Hv. tauto. }
    rewrite compare_user_groups in He by done.
    case_bool_decide; [done|].
    destruct (f_ltb _ _) eqn:Hlt; [done|]. by inversion He.
  - intros (v & Hne & Hshare & Hlt & ->). exists v. split.
    + apply elem_of_elements.
      rewrite !elem_of_union, !elem_of_dom_group_products.
      destruct (decide (liked (interactions_of v allLikes allViews allPurchases) = ∅))
        as [HL|HL]; [|by left; left].
      destruct (decide (viewed (interactions_of v allLikes allViews allPurchases) = ∅))
        as [HV|HV]; [|by left; right].
      right. split; [done|]. intros HP. apply Hshare.
      unfold share_nothing. rewrite HL, HV. simpl in HP |- *. rewrite HP.
      by rewrite !intersection_empty_r_L.
    + rewrite compare_user_groups by done.
      rewrite bool_decide_false by done. by rewrite Hlt.
Qed.

Lemma GetSimilarUsers_reads (s : recommendationService F) userID limit
    allLikes allViews allPurchases :
  store_holds s allLikes allViews allPurchases →
  GetSimilarUsers s userID limit
  = truncate (sort_Slice higher_similarity
                (similar_candidates userID allLikes allViews allPurchases)) limit.
Proof.
  intros (HL & HV & HP). unfold GetSimilarUsers. by rewrite HL, HV, HP.
Qed.

Lemma GetSimilarUsers_Done (s : recommendationService F) userID limit l :
  GetSimilarUsers s userID limit = Done l →
  ∃ allLikes allViews allPurchases,
    store_holds s allLikes allViews allPurchases
    ∧ 0 ≤ limit
    ∧ l = take (Z.to_nat limit)
            (sort_Slice higher_similarity
               (similar_candidates userID allLikes allViews allPurchases)).
Proof.
  unfold GetSimilarUsers, store_holds.
  destruct (GetAllUserLikes _) as [allLikes|]; [|done].
  destruct (GetAllUserViews _) as [allViews|]; [|done].
  destruct (GetAllUserPurchases _) as [allPurchases|]; [|done].
  simpl. intros [? ->]%truncate_Done. by exists allLikes, allViews, allPurchases.
Qed.

(** Every returned neighbor went through the loop. *)
Lemma GetSimilarUsers_elem_of (s : recommendationService F) userID limit
    allLikes allViews allPurchases l e :
  store_holds s allLikes allViews allPurchases →
  GetSimilarUsers s userID limit = Done l →
  e ∈ l →
  e ∈ similar_candidates userID allLikes allViews allPurchases.
Proof.
  intros Hs Hl He. rewrite (GetSimilarUsers_reads _ _ _ _ _ _ Hs) in Hl.
  apply truncate_Done in Hl as [_ ->].
  apply subseteq_take in He. by apply elem_of_sort_Slice in He.
Qed.

End GetSimilarUsersProofs.

(** ** Rounding in binary64 *)

(** *** Bit lengths *)

Lemma digits2_pos_bounds p :
  2 ^ (Zpos (digits2_pos p) - 1) ≤ Zpos p < 2 ^ Zpos (digits2_pos p).
Proof.
  induction p as [p IH|p IH|]; simpl digits2_pos.
  - rewrite Pos2Z.inj_succ, Pos2Z.inj_xI.
    replace (Z.succ (Z.pos (digits2_pos p)) - 1)
      with (Z.succ (Z.pos (digits2_pos p) - 1)) by lia.
    rewrite !Z.pow_succ_r by lia. lia.
  - rewrite Pos2Z.inj_succ. change (Z.pos p~0) with (2 * Z.pos p).
    replace (Z.succ (Z.pos (digits2_pos p)) - 1)
      with (Z.succ (Z.pos (digits2_pos p) - 1)) by lia.
    rewrite !Z.pow_succ_r by lia. lia.
  - simpl. lia.
Qed.

Lemma Zdigits2_bounds m :
  0 < m → 2 ^ (Zdigits2 m - 1) ≤ m < 2 ^ Zdigits2 m.
Proof. destruct m as [|p|p]; [lia| |lia]. intros _. apply digits2_pos_bounds. Qed.

Lemma Zdigits2_pos m : 0 < m → 0 < Zdigits2 m.
Proof. destruct m; simpl; lia. Qed.

Lemma Zdigits2_unique m d :
  0 < m → 2 ^ (d - 1) ≤ m < 2 ^ d → Zdigits2 m = d.
Proof.
  intros Hm Hd. pose proof (Zdigits2_bounds m Hm) as Hb.
  pose proof (Zdigits2_pos m Hm).
  assert (0 < d).
  { destruct (Z.lt_trichotomy d 0) as [?|[->|?]]; [|simpl in Hd; lia|done].
    rewrite (Z.pow_neg_r 2 d) in Hd by done. lia. }
  destruct (Z.lt_trichotomy (Zdigits2 m) d) as [Hlt|[?|Hgt]]; [|done|].
  - assert (2 ^ Zdigits2 m ≤ 2 ^ (d - 1)) by (apply Z.pow_le_mono_r; lia). lia.
  - assert (2 ^ d ≤ 2 ^ (Zdigits2 m - 1)) by (apply Z.pow_le_mono_r; lia). lia.
Qed.

(** *** Shifting the mantissa *)

Lemma iter_pos_inv {A} (f : A → A) (I : Z → A → Prop) :
  (∀ k x, 0 ≤ k → I k x → I (k + 1) (f x)) →
  ∀ p k x, 0 ≤ k → I k x → I (k + Zpos p) (SpecFloat.iter_pos f p x).
Proof.
  intros Hf. induction p as [p IH|p IH|]; intros k x Hk Hx; simpl.
  - replace (k + Z.pos p~1) with (k + 1 + Z.pos p + Z.pos p) by lia.
    apply IH; [lia|]. apply IH; [lia|]. by apply Hf.
  - replace (k + Z.pos p~0) with (k + Z.pos p + Z.pos p) by lia.
    apply IH; [lia|]. by apply IH.
  - by apply Hf.
Qed.

Lemma shr_1_ok N D mrs :
  0 < D → 0 ≤ shr_m mrs → rec_ok N D mrs →
  rec_ok N (2 * D) (shr_1 mrs)
  ∧ 0 ≤ shr_m (shr_1 mrs)
  ∧ shr_m mrs = 2 * shr_m (shr_1 mrs) + (if shr_r (shr_1 mrs) then 1 else 0).
Proof.
  intros HD. destruct mrs as [m r s]. unfold rec_ok. simpl.
  destruct m as [|[p|p|]|p]; intros Hm; try lia;
    destruct r, s; simpl;
    try change (Z.pos p~1) with (2 * Z.pos p + 1);
    try change (Z.pos p~0) with (2 * Z.pos p); nia.
Qed.

Lemma shifted_step N D m0 k mrs :
  0 < D → 0 ≤ k → shifted N D m0 k mrs → shifted N D m0 (k + 1) (shr_1 mrs).
Proof.
  intros HD Hk (Hok & Hm & Hb).
  assert (0 < 2 ^ k) by (apply Z.pow_pos_nonneg; lia).
  destruct (shr_1_ok N (D * 2 ^ k) mrs) as (Hok' & Hm' & Heq); [nia|done..|].
  unfold shifted. rewrite Z.pow_add_r, Z.pow_1_r by lia.
  split; [|split; [done|]].
  - by replace (D * (2 ^ k * 2)) with (2 * (D * 2 ^ k)) by lia.
  - destruct (shr_r (shr_1 mrs)); nia.
Qed.

Lemma shifted_iter N D m0 p mrs :
  0 < D → shifted N D m0 0 mrs →
  shifted N D m0 (Zpos p) (SpecFloat.iter_pos shr_1 p mrs).
Proof.
  intros HD H0.
  apply (iter_pos_inv shr_1 (shifted N D m0)
           (λ k x Hk, shifted_step N D m0 k x HD Hk) p 0 mrs); [lia|done].
Qed.

Lemma shifted_0 N D m l :
  0 ≤ m → rec_ok N D (shr_record_of_loc m l) →
  shifted N D m 0 (shr_record_of_loc m l).
Proof.
  intros Hm Hok. unfold shifted. rewrite Z.pow_0_r, Z.mul_1_r.
  split; [done|]. destruct l as [|[]]; simpl; lia.
Qed.

(** *** Rounding to nearest even *)

Lemma rne_ok N D mrs :
  0 < D → 0 ≤ shr_m mrs → rec_ok N D mrs →
  round_nearest_even (shr_m mrs) (loc_of_shr_record mrs) = RNE N D
  ∧ shr_m mrs * D ≤ N < (shr_m mrs + 1) * D.
Proof.
  intros HD Hm. destruct mrs as [m r s]. unfold rec_ok, RNE. simpl in *.
  intros Hok.
  assert (m * D ≤ N < (m + 1) * D) as Hb by (destruct r, s; nia).
  split; [|done].
  assert (N / D = m) as Hq.
  { symmetry. apply (Z.div_unique N D m (N - D * m)); lia. }
  assert (N mod D = N - D * m) as Hr.
  { symmetry. apply (Z.mod_unique N D m (N - D * m)); lia. }
  rewrite Hq, Hr.
  destruct r, s; simpl;
    destruct (Z.compare_spec (2 * (N - D * m)) D); try nia; done.
Qed.

Lemma RNE_bounds N D m :
  0 < D → m * D ≤ N < (m + 1) * D → m ≤ RNE N D ≤ m + 1.
Proof.
  intros HD Hb. unfold RNE.
  assert (N / D = m) as ->.
  { symmetry. apply (Z.div_unique N D m (N - D * m)); lia. }
  destruct (_ ?= _); [destruct (Z.even m)|..]; lia.
Qed.

Lemma RNE_mono N1 D1 N2 D2 :
  0 < D1 → 0 < D2 → N1 * D2 ≤ N2 * D1 → RNE N1 D1 ≤ RNE N2 D2.
Proof.
  intros H1 H2 Hle. unfold RNE.
  pose proof (Z.div_mod N1 D1 ltac:(lia)) as E1.
  pose proof (Z.div_mod N2 D2 ltac:(lia)) as E2.
  pose proof (Z.mod_pos_bound N1 D1 H1) as B1.
  pose proof (Z.mod_pos_bound N2 D2 H2) as B2.
  set (q1 := N1 / D1) in *. set (q2 := N2 / D2) in *.
  set (r1 := N1 mod D1) in *. set (r2 := N2 mod D2) in *.
  assert (q1 ≤ q2) as Hq.
  { destruct (Z_le_gt_dec q1 q2); [done|exfalso].
    assert (q2 + 1 ≤ q1) by lia.
    assert ((q2 + 1) * D2 * D1 ≤ q1 * D1 * D2) by nia. nia. }
  destruct (Z.eq_dec q1 q2) as [Heq|Hne].
  - rewrite <- Heq in *.
    assert (r1 * D2 ≤ r2 * D1) by nia.
    destruct (Z.compare_spec (2 * r1) D1), (Z.compare_spec (2 * r2) D2);
      destruct (Z.even q1); try lia; nia.
  - assert (q1 + 1 ≤ q2) by lia.
    destruct (Z.compare_spec (2 * r1) D1), (Z.compare_spec (2 * r2) D2);
      destruct (Z.even q1), (Z.even q2); lia.
Qed.

(** *** [binary_round_aux] on a mantissa of at least 53 bits *)

Lemma pow2_pos k : 0 ≤ k → 0 < 2 ^ k.
Proof. intros. apply Z.pow_pos_nonneg; lia. Qed.

Lemma fexp_normal x : -1074 ≤ x - 53 → fexp prec emax x = x - 53.
Proof. intros. unfold fexp, SpecFloat.emin, prec, emax. lia. Qed.

Lemma shr_fexp_shifted m e l N D :
  0 < D → 0 < m → 53 ≤ Zdigits2 m → -1074 ≤ e + Zdigits2 m - 53 →
  rec_ok N D (shr_record_of_loc m l) →
  ∃ mrs, shr_fexp prec emax m e l = (mrs, e + (Zdigits2 m - 53))
         ∧ shifted N D m (Zdigits2 m - 53) mrs.
Proof.
  intros HD Hm Hd He Hok. unfold shr_fexp.
  rewrite fexp_normal by lia.
  replace (Zdigits2 m + e - 53 - e) with (Zdigits2 m - 53) by lia.
  pose proof (shifted_0 N D m l ltac:(lia) Hok) as H0.
  destruct (Zdigits2 m - 53) as [|p|p] eqn:Hk; [| |lia].
  - eexists. split; [|done]. simpl. f_equal. lia.
  - eexists. split; [reflexivity|]. by apply shifted_iter.
Qed.

Lemma bra_correct m e l N D :
  0 < D → 0 < m → 53 ≤ Zdigits2 m →
  -1074 ≤ e + Zdigits2 m - 53 ≤ 970 →
  rec_ok N D (shr_record_of_loc m l) →
  binary_round_aux prec emax false m e l
  = fin (roundpair N (D * 2 ^ (Zdigits2 m - 53)) (e + (Zdigits2 m - 53))).1
        (roundpair N (D * 2 ^ (Zdigits2 m - 53)) (e + (Zdigits2 m - 53))).2
  ∧ at_target N (D * 2 ^ (Zdigits2 m - 53)) (e + (Zdigits2 m - 53)).
Proof.
  intros HD Hm Hd He Hok.
  destruct (shr_fexp_shifted m e l N D) as (mrs & Hsh & Hok' & Hm' & Hb);
    [done..|lia|done|].
  set (k := Zdigits2 m - 53) in *. set (E := e + k) in *.
  assert (0 ≤ k) by lia.
  pose proof (pow2_pos k ltac:(lia)) as Hk.
  pose proof (Zdigits2_bounds m Hm) as Hdm.
  replace (Zdigits2 m - 1) with (52 + k) in Hdm by lia.
  replace (Zdigits2 m) with (53 + k) in Hdm by lia.
  rewrite !Z.pow_add_r in Hdm by lia.
  assert (2 ^ 52 ≤ shr_m mrs < 2 ^ 53) as Hm52 by nia.
  destruct (rne_ok N (D * 2 ^ k) mrs) as [Hrne Hfrac]; [nia|done..|].
  pose proof (RNE_bounds N (D * 2 ^ k) (shr_m mrs) ltac:(nia) Hfrac) as HM.
  split; [|split; [nia|split; [nia|lia]]].
  unfold binary_round_aux. rewrite Hsh. cbv beta iota. rewrite Hrne.
  unfold roundpair. set (M := RNE N (D * 2 ^ k)) in *.
  destruct (Z.eqb_spec M (2 ^ 53)) as [->|Hne].
  - unfold shr_fexp. change (Zdigits2 (2 ^ 53)) with 54.
    rewrite fexp_normal by lia.
    replace (54 + E - 53 - E) with 1 by lia.
    cbn [shr fst snd]. cbn [SpecFloat.iter_pos].
    change (shr_m (shr_1 (shr_record_of_loc (2 ^ 53) loc_Exact)))
      with (2 ^ 52).
    change (2 ^ 52) with (Z.pos (Z.to_pos (2 ^ 52))) at 1.
    cbv iota. unfold prec, emax.
    destruct (Z.leb_spec (E + 1) (1024 - 53)); [done|lia].
  - assert (Zdigits2 M = 53) as HdM.
    { apply Zdigits2_unique; [lia|]. change (53 - 1) with 52. lia. }
    unfold shr_fexp. rewrite HdM, fexp_normal by lia.
    replace (53 + E - 53 - E) with 0 by lia.
    cbn [shr fst snd shr_record_of_loc shr_m].
    destruct M as [|pm|pm] eqn:HMe; [lia| |lia]. unfold prec, emax.
    destruct (Z.leb_spec E (1024 - 53)); [done|lia].
Qed.

(** *** Real values *)

Lemma pow2R_pos e : (0 < powerRZ 2 e)%R.
Proof. apply powerRZ_lt. Lra.lra. Qed.

Lemma pow2R_add a b : powerRZ 2 (a + b) = (powerRZ 2 a * powerRZ 2 b)%R.
Proof. apply powerRZ_add. Lra.lra. Qed.

Lemma pow2R_IZR k : 0 ≤ k → IZR (2 ^ k) = powerRZ 2 k.
Proof.
  intros Hk. rewrite <- (Z2Nat.id k) by done.
  by rewrite <- pow_IZR, pow_powerRZ.
Qed.

Lemma pow2R_ge_1 k : 0 ≤ k → (1 <= powerRZ 2 k)%R.
Proof.
  intros Hk. rewrite <- pow2R_IZR by done. apply IZR_le.
  pose proof (pow2_pos k Hk). lia.
Qed.

Lemma pow2R_le a b : a ≤ b → (powerRZ 2 a <= powerRZ 2 b)%R.
Proof.
  intros Hab. replace b with (a + (b - a)) by lia. rewrite pow2R_add.
  pose proof (pow2R_pos a). pose proof (pow2R_ge_1 (b - a) ltac:(lia)). Lra.nra.
Qed.

Lemma pow2R_succ a : powerRZ 2 (a + 1) = (2 * powerRZ 2 a)%R.
Proof. rewrite pow2R_add. change (powerRZ 2 1) with (2 * 1)%R. Lra.lra. Qed.

Lemma pow2R_lt_succ a b : a < b → (2 * powerRZ 2 a <= powerRZ 2 b)%R.
Proof. intros. rewrite <- pow2R_succ. apply pow2R_le. lia. Qed.

Lemma at_target_ratio N D E :
  at_target N D E →
  (0 < IZR D ∧ IZR (2 ^ 52) * IZR D <= IZR N ∧ IZR N < IZR (2 ^ 53) * IZR D)%R.
Proof.
  intros (HD & [Hlo Hhi] & _). split; [by apply (IZR_lt 0)|].
  rewrite <- !mult_IZR. split; [by apply IZR_le|by apply IZR_lt].
Qed.

Lemma val_bounds N D E :
  at_target N D E →
  (IZR (2 ^ 52) * powerRZ 2 E <= val N D E
   ∧ val N D E < IZR (2 ^ 53) * powerRZ 2 E)%R.
Proof.
  intros HT. destruct (at_target_ratio _ _ _ HT) as (HD & Hlo & Hhi).
  pose proof (pow2R_pos E) as HE. unfold val.
  assert (IZR N / IZR D * IZR D = IZR N)%R as Hq by (field; Lra.lra).
  assert (IZR (2 ^ 52) <= IZR N / IZR D)%R by Lra.nra.
  assert (IZR N / IZR D < IZR (2 ^ 53))%R by Lra.nra.
  split; Lra.nra.
Qed.

(** The order of the values is the order of the pairs. *)
Lemma val_le_tle N1 D1 E1 N2 D2 E2 :
  at_target N1 D1 E1 → at_target N2 D2 E2 →
  (val N1 D1 E1 <= val N2 D2 E2)%R →
  E1 < E2 ∨ (E1 = E2 ∧ N1 * D2 ≤ N2 * D1).
Proof.
  intros HT1 HT2 Hle.
  destruct (val_bounds _ _ _ HT1) as [Hlo1 Hhi1].
  destruct (val_bounds _ _ _ HT2) as [Hlo2 Hhi2].
  destruct (at_target_ratio _ _ _ HT1) as (HD1 & _ & _).
  destruct (at_target_ratio _ _ _ HT2) as (HD2 & _ & _).
  destruct (Z.lt_trichotomy E1 E2) as [?|[->|Hgt]]; [by left| |].
  - right. split; [done|]. apply le_IZR. rewrite !mult_IZR.
    pose proof (pow2R_pos E2) as HE. unfold val in Hle.
    assert (IZR N1 / IZR D1 <= IZR N2 / IZR D2)%R as Hr by Lra.nra.
    apply (Rmult_le_compat_r (IZR D1 * IZR D2)) in Hr; [|Lra.nra].
    replace (IZR N1 / IZR D1 * (IZR D1 * IZR D2))%R
      with (IZR N1 * IZR D2)%R in Hr by (field; Lra.lra).
    replace (IZR N2 / IZR D2 * (IZR D1 * IZR D2))%R
      with (IZR N2 * IZR D1)%R in Hr by (field; Lra.lra).
    done.
  - exfalso. pose proof (pow2R_lt_succ E2 E1 Hgt) as Hp.
    pose proof (pow2R_pos E2).
    change (IZR (2 ^ 53)) with (2 * IZR (2 ^ 52))%R in Hhi2.
    assert (0 < IZR (2 ^ 52))%R by (apply (IZR_lt 0); done).
    Lra.nra.
Qed.

Lemma roundpair_normal N D E :
  at_target N D E →
  normal (roundpair N D E).1
  ∧ E ≤ (roundpair N D E).2 ≤ E + 1.
Proof.
  intros (HD & Hb & HE). unfold roundpair, normal.
  assert (N / D * D ≤ N < (N / D + 1) * D) as Hq.
  { pose proof (Z.div_mod N D ltac:(lia)).
    pose proof (Z.mod_pos_bound N D HD). nia. }
  assert (2 ^ 52 ≤ N / D < 2 ^ 53) as Hq52.
  { split; [apply Z.div_le_lower_bound; lia|apply Z.div_lt_upper_bound; lia]. }
  pose proof (RNE_bounds N D (N / D) HD Hq) as HM.
  destruct (Z.eqb_spec (RNE N D) (2 ^ 53)); simpl; lia.
Qed.

Lemma roundpair_mono N1 D1 E1 N2 D2 E2 :
  at_target N1 D1 E1 → at_target N2 D2 E2 →
  E1 < E2 ∨ (E1 = E2 ∧ N1 * D2 ≤ N2 * D1) →
  nlex (roundpair N1 D1 E1) (roundpair N2 D2 E2).
Proof.
  intros HT1 HT2 Hle.
  destruct (roundpair_normal _ _ _ HT1) as [Hn1 He1].
  destruct (roundpair_normal _ _ _ HT2) as [Hn2 He2].
  unfold nlex, normal in *.
  destruct Hle as [Hlt|[-> Hle]].
  - unfold roundpair in *.
    destruct (Z.eqb_spec (RNE N1 D1) (2 ^ 53)),
      (Z.eqb_spec (RNE N2 D2) (2 ^ 53)); simpl in *; lia.
  - pose proof (RNE_mono N1 D1 N2 D2 ltac:(apply HT1) ltac:(apply HT2) Hle).
    unfold roundpair in *.
    destruct (Z.eqb_spec (RNE N1 D1) (2 ^ 53)),
      (Z.eqb_spec (RNE N2 D2) (2 ^ 53)); simpl in *; lia.
Qed.

Lemma Rnd_normal x p : Rnd x p → normal p.1.
Proof. intros (N & D & E & HT & _ & <-). by apply roundpair_normal. Qed.

Lemma Rnd_pos x p : Rnd x p → (0 < x)%R.
Proof.
  intros (N & D & E & HT & -> & _). destruct (val_bounds _ _ _ HT) as [Hlo _].
  pose proof (pow2R_pos E).
  assert (0 < IZR (2 ^ 52))%R by (apply (IZR_lt 0); done). Lra.nra.
Qed.

Lemma Rnd_mono x1 p1 x2 p2 :
  Rnd x1 p1 → Rnd x2 p2 → (x1 <= x2)%R → nlex p1 p2.
Proof.
  intros (N1 & D1 & E1 & HT1 & -> & <-) (N2 & D2 & E2 & HT2 & -> & <-) Hle.
  apply roundpair_mono; [done..|]. by apply val_le_tle.
Qed.

Lemma nlex_pval p1 p2 :
  normal p1.1 → normal p2.1 → nlex p1 p2 → (pval p1 <= pval p2)%R.
Proof.
  destruct p1 as [M1 E1], p2 as [M2 E2]. unfold normal, nlex, pval. simpl.
  intros H1 H2 [Hlt|[-> Hle]].
  - pose proof (pow2R_lt_succ E1 E2 Hlt). pose proof (pow2R_pos E1).
    assert (IZR M1 <= IZR (2 ^ 53))%R by (apply IZR_le; lia).
    assert (IZR (2 ^ 52) <= IZR M2)%R by (apply IZR_le; lia).
    change (IZR (2 ^ 53)) with (2 * IZR (2 ^ 52))%R in *.
    assert (0 < IZR (2 ^ 52))%R by (apply (IZR_lt 0); done).
    Lra.nra.
  - pose proof (pow2R_pos E2). apply IZR_le in Hle. Lra.nra.
Qed.

Lemma pval_nlex p1 p2 :
  normal p1.1 → normal p2.1 → (pval p1 <= pval p2)%R → nlex p1 p2.
Proof.
  destruct p1 as [M1 E1], p2 as [M2 E2]. unfold normal, nlex, pval. simpl.
  intros H1 H2 Hle.
  destruct (Z.lt_trichotomy E1 E2) as [?|[->|Hgt]]; [by left| |].
  - right. split; [done|]. apply le_IZR. pose proof (pow2R_pos E2). Lra.nra.
  - exfalso. pose proof (pow2R_lt_succ E2 E1 Hgt). pose proof (pow2R_pos E2).
    assert (IZR M2 < IZR (2 ^ 53))%R by (apply IZR_lt; lia).
    assert (IZR (2 ^ 52) <= IZR M1)%R by (apply IZR_le; lia).
    change (IZR (2 ^ 53)) with (2 * IZR (2 ^ 52))%R in *.
    assert (0 < IZR (2 ^ 52))%R by (apply (IZR_lt 0); done).
    Lra.nra.
Qed.

Lemma nlex_antisym p1 p2 : nlex p1 p2 → nlex p2 p1 → p1 = p2.
Proof.
  destruct p1, p2. unfold nlex. simpl. intros [|[]] [|[]]; f_equal; lia.
Qed.

(** A normal number in range is its own rounding. *)
Lemma Rnd_exact M E :
  normal M → -1074 ≤ E ≤ 970 → Rnd (pval (M, E)) (M, E).
Proof.
  intros HM HE. exists M, 1, E. unfold normal in HM.
  split; [unfold at_target; lia|]. split.
  - unfold pval, val. simpl. field.
  - unfold roundpair, RNE. rewrite Z.div_1_r, Z.mod_1_r. simpl.
    destruct (Z.eqb_spec M (2 ^ 53)); [lia|done].
Qed.

Lemma Rnd_unique x p1 p2 : Rnd x p1 → Rnd x p2 → p1 = p2.
Proof.
  intros H1 H2. apply nlex_antisym; eapply Rnd_mono; try done; Lra.lra.
Qed.

(** *** The operations on normal numbers *)

Lemma Zdigits2_range m a b :
  0 < m → 0 ≤ a → 2 ^ a ≤ m < 2 ^ b → a < Zdigits2 m ≤ b.
Proof.
  intros Hm Ha Hab. pose proof (Zdigits2_bounds m Hm) as Hd.
  pose proof (Zdigits2_pos m Hm). split.
  - destruct (Z_lt_le_dec a (Zdigits2 m)); [done|exfalso].
    assert (2 ^ Zdigits2 m ≤ 2 ^ a) by (apply Z.pow_le_mono_r; lia). lia.
  - destruct (Z_le_gt_dec (Zdigits2 m) b); [done|exfalso].
    assert (0 ≤ b).
    { destruct (Z_lt_le_dec b 0); [|done].
      rewrite (Z.pow_neg_r 2 b) in Hab by done. lia. }
    assert (2 ^ b ≤ 2 ^ (Zdigits2 m - 1)) by (apply Z.pow_le_mono_r; lia). lia.
Qed.

Lemma val_shift N D e k :
  0 < D → 0 ≤ k →
  val N (D * 2 ^ k) (e + k) = (IZR N / IZR D * powerRZ 2 e)%R.
Proof.
  intros HD Hk. unfold val. rewrite mult_IZR, pow2R_IZR, pow2R_add by done.
  pose proof (pow2R_pos k). apply (IZR_lt 0) in HD. field. Lra.lra.
Qed.

Lemma bra_Rnd m e l N D :
  0 < D → 0 < m → 53 ≤ Zdigits2 m →
  -1074 ≤ e + Zdigits2 m - 53 ≤ 970 →
  rec_ok N D (shr_record_of_loc m l) →
  ∃ p, binary_round_aux prec emax false m e l = fin p.1 p.2
       ∧ Rnd (IZR N / IZR D * powerRZ 2 e) p
       ∧ e + Zdigits2 m - 53 ≤ p.2 ≤ e + Zdigits2 m - 52.
Proof.
  intros HD Hm Hd He Hok.
  destruct (bra_correct m e l N D HD Hm Hd He Hok) as [Heq HT].
  eexists. split; [exact Heq|]. split.
  - eexists _, _, _. split; [exact HT|]. split; [|reflexivity].
    rewrite val_shift by lia. done.
  - pose proof (roundpair_normal _ _ _ HT) as [_ ?]. lia.
Qed.

Lemma rec_ok_exact m : rec_ok m 1 (shr_record_of_loc m loc_Exact).
Proof. unfold rec_ok. simpl. lia. Qed.

Lemma fin_B2R M E : 0 < M → B2R (fin M E) = pval (M, E).
Proof.
  intros HM. unfold B2R, fin, pval. simpl. rewrite Z2Pos.id by done. Lra.lra.
Qed.

Lemma normal_pos M : normal M → 0 < M.
Proof. unfold normal. intros [? _]. pose proof (pow2_pos 52 ltac:(lia)). lia. Qed.

Lemma SFmul_Rnd Ma Ea Mb Eb :
  normal Ma → normal Mb → -1074 ≤ Ea + Eb + 52 → Ea + Eb + 53 ≤ 970 →
  ∃ p, SFmul prec emax (fin Ma Ea) (fin Mb Eb) = fin p.1 p.2
       ∧ Rnd (pval (Ma, Ea) * pval (Mb, Eb)) p
       ∧ Ea + Eb + 52 ≤ p.2 ≤ Ea + Eb + 54.
Proof.
  intros Ha Hb Hlo Hhi.
  pose proof (normal_pos _ Ha). pose proof (normal_pos _ Hb).
  unfold SFmul, fin. cbn [xorb].
  rewrite Pos2Z.inj_mul, !Z2Pos.id by done.
  assert (0 < Ma * Mb) by nia.
  assert (104 < Zdigits2 (Ma * Mb) ≤ 106) as Hd.
  { apply Zdigits2_range; [done|lia|]. unfold normal in *.
    change (2 ^ 104) with (2 ^ 52 * 2 ^ 52).
    change (2 ^ 106) with (2 ^ 53 * 2 ^ 53). nia. }
  destruct (bra_Rnd (Ma * Mb) (Ea + Eb) loc_Exact (Ma * Mb) 1)
    as (p & Heq & HR & Hp); [lia..|apply rec_ok_exact|].
  exists p. split; [done|]. split; [|lia].
  replace (pval (Ma, Ea) * pval (Mb, Eb))%R
    with (IZR (Ma * Mb) / IZR 1 * powerRZ 2 (Ea + Eb))%R; [done|].
  unfold pval. simpl. rewrite mult_IZR, pow2R_add. field.
Qed.

Lemma new_location_ok N D q r :
  0 < D → N = D * q + r → 0 ≤ r < D →
  rec_ok N D (shr_record_of_loc q (new_location D r)).
Proof.
  intros HD -> Hr. unfold new_location, new_location_even, new_location_odd.
  destruct (Z.even D) eqn:Hev.
  - destruct (Z.eqb_spec r 0) as [->|Hne]; [unfold rec_ok; simpl; lia|].
    destruct (Z.compare_spec (2 * r) D); unfold rec_ok; simpl; nia.
  - destruct (Z.eqb_spec r 0) as [->|Hne]; [unfold rec_ok; simpl; lia|].
    assert (Z.odd D = true) as Hodd by (rewrite <- Z.negb_even, Hev; done).
    apply Z.odd_spec in Hodd as [j Hj].
    destruct (Z.compare_spec (2 * r + 1) D); unfold rec_ok; simpl; nia.
Qed.

Lemma pow2R_sub a b : powerRZ 2 (a - b) = (powerRZ 2 a / powerRZ 2 b)%R.
Proof.
  replace (a - b) with (a + - b) by lia.
  rewrite pow2R_add, powerRZ_neg'. done.
Qed.

Lemma SFdiv_Rnd Ma Ea Mb Eb :
  normal Ma → normal Mb → -1074 ≤ Ea - Eb - 53 → Ea - Eb - 52 ≤ 970 →
  ∃ p, SFdiv prec emax (fin Ma Ea) (fin Mb Eb) = fin p.1 p.2
       ∧ Rnd (pval (Ma, Ea) / pval (Mb, Eb)) p
       ∧ Ea - Eb - 53 ≤ p.2 ≤ Ea - Eb - 51.
Proof.
  intros Ha Hb Hlo Hhi.
  pose proof (normal_pos _ Ha) as HMa. pose proof (normal_pos _ Hb) as HMb.
  unfold SFdiv, fin, SFdiv_core_binary. cbn [xorb].
  rewrite !Z2Pos.id by done.
  assert (Zdigits2 Ma = 53) as -> by (apply Zdigits2_unique; done).
  assert (Zdigits2 Mb = 53) as -> by (apply Zdigits2_unique; done).
  replace (53 + Ea - (53 + Eb)) with (Ea - Eb) by lia.
  rewrite fexp_normal by lia.
  rewrite Z.min_l by lia.
  replace (Ea - Eb - (Ea - Eb - 53)) with 53 by lia.
  rewrite Z.shiftl_mul_pow2 by lia.
  pose proof (Z.div_mod (Ma * 2 ^ 53) Mb ltac:(lia)) as Hdm.
  pose proof (Z.mod_pos_bound (Ma * 2 ^ 53) Mb HMb) as Hr.
  unfold Z.div, Z.modulo in Hdm, Hr.
  destruct (Z.div_eucl (Ma * 2 ^ 53) Mb) as [q r].
  unfold normal in Ha, Hb.
  assert (2 ^ 52 ≤ q < 2 ^ 54) as Hq.
  { change (2 ^ 54) with (2 * 2 ^ 53). nia. }
  assert (52 < Zdigits2 q ≤ 54) as Hd.
  { apply Zdigits2_range; lia. }
  destruct (bra_Rnd q (Ea - Eb - 53) (new_location Mb r) (Ma * 2 ^ 53) Mb)
    as (p & Heq & HR & Hp); [lia..|by apply new_location_ok|].
  exists p. split; [done|]. split; [|lia].
  replace (pval (Ma, Ea) / pval (Mb, Eb))%R
    with (IZR (Ma * 2 ^ 53) / IZR Mb * powerRZ 2 (Ea - Eb - 53))%R; [done|].
  unfold pval. simpl.
  rewrite mult_IZR, (pow2R_IZR 53), !pow2R_sub by lia.
  pose proof (pow2R_pos Ea). pose proof (pow2R_pos Eb).
  pose proof (pow2R_pos 53). apply (IZR_lt 0) in HMb. field. Lra.lra.
Qed.

Lemma Pos_iter_xO m k : Zpos (Pos.iter xO m k) = Zpos m * 2 ^ Zpos k.
Proof.
  induction k as [|k IH] using Pos.peano_ind.
  - simpl. lia.
  - rewrite Pos.iter_succ, Pos2Z.inj_succ, Z.pow_succ_r by lia.
    change (Z.pos (Pos.iter xO m k)~0) with (2 * Z.pos (Pos.iter xO m k)).
    lia.
Qed.

Lemma shl_align_fst mx ex ez :
  ez ≤ ex → Zpos (shl_align mx ex ez).1 = Zpos mx * 2 ^ (ex - ez).
Proof.
  intros Hle. unfold shl_align.
  destruct (ez - ex) as [|d|d] eqn:Hd; [|lia|].
  - replace (ex - ez) with 0 by lia. simpl. lia.
  - simpl. rewrite Pos_iter_xO. f_equal. f_equal. lia.
Qed.

Lemma binary_round_normalized s e :
  53 ≤ Zdigits2 (Zpos s) → -1074 ≤ e →
  binary_round prec emax false s e
  = binary_round_aux prec emax false (Zpos s) e loc_Exact.
Proof.
  intros Hd He. unfold binary_round. simpl Zdigits2 in Hd.
  rewrite fexp_normal by lia. unfold shl_align.
  destruct (Z.pos (digits2_pos s) + e - 53 - e) eqn:Hk; [done..|lia].
Qed.

Lemma SFadd_Rnd Ma Ea Mb Eb :
  normal Ma → normal Mb →
  -1074 ≤ Z.min Ea Eb → Z.max Ea Eb + 1 ≤ 970 →
  ∃ p, SFadd prec emax (fin Ma Ea) (fin Mb Eb) = fin p.1 p.2
       ∧ Rnd (pval (Ma, Ea) + pval (Mb, Eb)) p
       ∧ Z.max Ea Eb ≤ p.2 ≤ Z.max Ea Eb + 2.
Proof.
  intros Ha Hb Hlo Hhi.
  pose proof (normal_pos _ Ha) as HMa. pose proof (normal_pos _ Hb) as HMb.
  unfold SFadd, fin. cbn [cond_Zopp].
  set (ez := Z.min Ea Eb). set (hi := Z.max Ea Eb) in *.
  rewrite !shl_align_fst, !Z2Pos.id by lia.
  pose proof (pow2_pos (Ea - ez) ltac:(lia)) as HA.
  pose proof (pow2_pos (Eb - ez) ltac:(lia)) as HB.
  pose proof (pow2_pos (hi - ez) ltac:(lia)) as HH.
  assert (2 ^ (Ea - ez) ≤ 2 ^ (hi - ez)) as HAH
    by (apply Z.pow_le_mono_r; lia).
  assert (2 ^ (Eb - ez) ≤ 2 ^ (hi - ez)) as HBH
    by (apply Z.pow_le_mono_r; lia).
  assert (2 ^ (Ea - ez) = 2 ^ (hi - ez) ∨ 2 ^ (Eb - ez) = 2 ^ (hi - ez)) as Hone.
  { destruct (Z.max_spec Ea Eb) as [[_ Heq]|[_ Heq]]; fold hi in Heq;
      rewrite Heq; auto. }
  set (S := Ma * 2 ^ (Ea - ez) + Mb * 2 ^ (Eb - ez)) in *.
  unfold normal in Ha, Hb.
  assert (2 ^ (52 + (hi - ez)) ≤ S < 2 ^ (54 + (hi - ez))) as HS.
  { rewrite !Z.pow_add_r by lia. change (2 ^ 54) with (2 * 2 ^ 53).
    subst S. destruct Hone as [Hone|Hone]; nia. }
  assert (0 < S) as HSpos.
  { pose proof (pow2_pos (52 + (hi - ez)) ltac:(lia)). lia. }
  assert (52 + (hi - ez) < Zdigits2 S ≤ 54 + (hi - ez)) as Hd
    by (apply Zdigits2_range; [done|lia|done]).
  destruct S as [|s|s] eqn:HSe; [lia| |lia].
  unfold binary_normalize. rewrite binary_round_normalized by lia.
  destruct (bra_Rnd (Zpos s) ez loc_Exact (Zpos s) 1)
    as (p & Heq & HR & Hp); [lia..|apply rec_ok_exact|].
  exists p. split; [done|]. split; [|lia].
  replace (pval (Ma, Ea) + pval (Mb, Eb))%R
    with (IZR (Z.pos s) / IZR 1 * powerRZ 2 ez)%R; [done|].
  rewrite <- HSe. unfold pval, S. simpl.
  rewrite plus_IZR, !mult_IZR, !pow2R_IZR, !pow2R_sub by lia.
  pose proof (pow2R_pos ez). field. Lra.lra.
Qed.

Lemma binary_normalize_Rnd n :
  0 < n < 2 ^ 63 →
  ∃ p, binary_normalize prec emax n 0 false = fin p.1 p.2
       ∧ Rnd (IZR n) p ∧ -52 ≤ p.2 ≤ 11.
Proof.
  intros Hn. destruct n as [|pn|pn]; [lia| |lia].
  assert (0 < Zdigits2 (Zpos pn) ≤ 63) as Hd.
  { split; [by apply Zdigits2_pos|].
    destruct (Z_le_gt_dec (Zdigits2 (Z.pos pn)) 63); [done|exfalso].
    pose proof (Zdigits2_bounds (Zpos pn) ltac:(done)).
    assert (2 ^ 63 ≤ 2 ^ (Zdigits2 (Z.pos pn) - 1))
      by (apply Z.pow_le_mono_r; lia). lia. }
  unfold binary_normalize.
  destruct (Z_le_gt_dec 53 (Zdigits2 (Zpos pn))) as [Hbig|Hsmall].
  - rewrite binary_round_normalized by lia.
    destruct (bra_Rnd (Zpos pn) 0 loc_Exact (Zpos pn) 1)
      as (p & Heq & HR & Hp); [lia..|apply rec_ok_exact|].
    exists p. split; [done|]. split; [|lia].
    replace (IZR (Z.pos pn))
      with (IZR (Z.pos pn) / IZR 1 * powerRZ 2 0)%R; [done|].
    simpl. field.
  - unfold binary_round. simpl Zdigits2 in *.
    rewrite fexp_normal by lia. unfold shl_align.
    set (d := Z.pos (digits2_pos pn)) in *.
    destruct (d + 0 - 53 - 0) as [|k|k] eqn:Hk; [lia..|].
    pose proof (Pos_iter_xO pn k) as Hm.
    pose proof (Zdigits2_bounds (Zpos pn) ltac:(done)) as Hb.
    simpl Zdigits2 in Hb. fold d in Hb.
    assert (Z.pos k = 53 - d) as Hkd by lia.
    assert (Zdigits2 (Z.pos (Pos.iter xO pn k)) = 53) as Hd53.
    { apply Zdigits2_unique; [done|]. rewrite Hm, Hkd.
      assert (2 ^ (53 - 1) = 2 ^ (d - 1) * 2 ^ (53 - d)) as ->
        by (rewrite <- Z.pow_add_r by lia; f_equal; lia).
      assert (2 ^ 53 = 2 ^ d * 2 ^ (53 - d)) as ->
        by (rewrite <- Z.pow_add_r by lia; f_equal; lia).
      pose proof (pow2_pos (53 - d) ltac:(lia)). nia. }
    destruct (bra_Rnd (Z.pos (Pos.iter xO pn k)) (d + 0 - 53) loc_Exact
                (Z.pos (Pos.iter xO pn k)) 1)
      as (p & Heq & HR & Hp); [lia..|apply rec_ok_exact|].
    exists p. split; [done|]. split; [|lia].
    replace (IZR (Z.pos pn))
      with (IZR (Z.pos (Pos.iter xO pn k)) / IZR 1 * powerRZ 2 (d + 0 - 53))%R;
      [done|].
    rewrite Hm, Hkd, mult_IZR, pow2R_IZR by lia.
    replace (d + 0 - 53) with (- (53 - d)) by lia. rewrite powerRZ_neg'.
    pose proof (pow2R_pos (53 - d)). field. Lra.lra.
Qed.

(** *** The values of binary64 numbers *)

Lemma pval_pos p : normal p.1 → (0 < pval p)%R.
Proof.
  intros Hn. unfold pval. pose proof (pow2R_pos p.2).
  pose proof (normal_pos _ Hn) as HM. apply (IZR_lt 0) in HM. Lra.nra.
Qed.

Lemma fval_fin x M E : Prim2SF x = fin M E → normal M → fval x = pval (M, E).
Proof.
  intros Hx HM. unfold fval. rewrite Hx. apply fin_B2R. by apply normal_pos.
Qed.

Lemma fval_zero x : Prim2SF x = S754_zero false → fval x = 0%R.
Proof. intros Hx. unfold fval. by rewrite Hx. Qed.

Lemma fin_inj M1 E1 M2 E2 :
  0 < M1 → 0 < M2 → fin M1 E1 = fin M2 E2 → M1 = M2 ∧ E1 = E2.
Proof.
  unfold fin. intros H1 H2 [= Hm He]. split; [|done].
  by apply Z2Pos.inj in Hm.
Qed.

Lemma nonneg64_fval lo hi x : nonneg64 lo hi x → (0 <= fval x)%R.
Proof.
  intros [Hz|(M & E & Hx & HM & _)].
  - rewrite (fval_zero _ Hz). Lra.lra.
  - rewrite (fval_fin _ _ _ Hx HM). pose proof (pval_pos (M, E) HM). Lra.lra.
Qed.

Lemma pos64_fval lo hi x : pos64 lo hi x → (0 < fval x)%R.
Proof.
  intros (M & E & Hx & HM & _). rewrite (fval_fin _ _ _ Hx HM).
  apply (pval_pos (M, E) HM).
Qed.

Lemma pos64_nonneg64 lo hi x : pos64 lo hi x → nonneg64 lo hi x.
Proof. by right. Qed.

Lemma nonneg64_weaken lo hi lo' hi' x :
  nonneg64 lo hi x → lo' ≤ lo → hi ≤ hi' → nonneg64 lo' hi' x.
Proof.
  intros [Hz|(M & E & Hx & HM & HE)] Hlo Hhi; [by left|right].
  exists M, E. split; [done|]. split; [done|lia].
Qed.

Lemma RndF_fval r x : RndF r x → (0 <= fval x)%R.
Proof.
  intros [[_ Hz]|(p & Hx & Hp)].
  - rewrite (fval_zero _ Hz). Lra.lra.
  - pose proof (Rnd_normal _ _ Hp) as HM.
    rewrite (fval_fin _ _ _ Hx HM). destruct p.
    pose proof (pval_pos _ HM). simpl in *. Lra.lra.
Qed.

(** Rounding is monotone. *)
Lemma RndF_mono r1 x1 r2 x2 :
  RndF r1 x1 → RndF r2 x2 → (r1 <= r2)%R → (fval x1 <= fval x2)%R.
Proof.
  intros [[-> Hz1]|(p1 & Hx1 & Hp1)] H2 Hle.
  - rewrite (fval_zero _ Hz1). by eapply RndF_fval.
  - destruct H2 as [[-> Hz2]|(p2 & Hx2 & Hp2)].
    + pose proof (Rnd_pos _ _ Hp1). Lra.lra.
    + pose proof (Rnd_normal _ _ Hp1) as HM1.
      pose proof (Rnd_normal _ _ Hp2) as HM2.
      rewrite (fval_fin _ _ _ Hx1 HM1), (fval_fin _ _ _ Hx2 HM2).
      destruct p1, p2. apply nlex_pval; [done..|].
      by eapply Rnd_mono.
Qed.

(** A number of the format is its own rounding. *)
Lemma RndF_exact lo hi x :
  nonneg64 lo hi x → -1074 ≤ lo → hi ≤ 970 → RndF (fval x) x.
Proof.
  intros [Hz|(M & E & Hx & HM & HE)] Hlo Hhi.
  - left. by rewrite (fval_zero _ Hz).
  - right. exists (M, E). split; [done|].
    rewrite (fval_fin _ _ _ Hx HM). apply Rnd_exact; [done|lia].
Qed.

Lemma RndF_unique r x y : RndF r x → RndF r y → x = y.
Proof.
  intros [[-> Hx]|(p & Hx & Hp)] [[Hr Hy]|(q & Hy & Hq)].
  - apply Prim2SF_inj. congruence.
  - pose proof (Rnd_pos _ _ Hq). Lra.lra.
  - pose proof (Rnd_pos _ _ Hp). Lra.lra.
  - apply Prim2SF_inj. rewrite Hx, Hy.
    by rewrite (Rnd_unique _ _ _ Hp Hq).
Qed.

(** The order of the values is the order [<=] of binary64. *)
Lemma fval_leb lo hi lo' hi' x y :
  nonneg64 lo hi x → nonneg64 lo' hi' y → (fval x <= fval y)%R →
  PrimFloat.leb x y = true.
Proof.
  intros Hx Hy Hle. rewrite leb_spec. unfold SFleb.
  destruct Hx as [Hx|(M1 & E1 & Hx & HM1 & _)],
    Hy as [Hy|(M2 & E2 & Hy & HM2 & _)].
  - by rewrite Hx, Hy.
  - by rewrite Hx, Hy.
  - rewrite (fval_zero _ Hy), (fval_fin _ _ _ Hx HM1) in Hle.
    pose proof (pval_pos (M1, E1) HM1). Lra.lra.
  - rewrite (fval_fin _ _ _ Hx HM1), (fval_fin _ _ _ Hy HM2) in Hle.
    apply pval_nlex in Hle; [|done..].
    rewrite Hx, Hy. unfold fin, SFcompare.
    pose proof (normal_pos _ HM1). pose proof (normal_pos _ HM2).
    destruct Hle as [Hlt|[Heq Hle]]; simpl in *.
    + apply Z.compare_lt_iff in Hlt. by rewrite Hlt.
    + subst E2. rewrite Z.compare_refl.
      change (Pos.compare_cont Eq (Z.to_pos M1) (Z.to_pos M2))
        with (Z.to_pos M1 ?= Z.to_pos M2)%positive.
      rewrite <- Z2Pos.inj_compare by done.
      destruct (Z.compare_spec M1 M2); [done..|lia].
Qed.

Lemma fval_0_leb lo hi x : nonneg64 lo hi x → PrimFloat.leb 0 x = true.
Proof.
  intros Hx. eapply (fval_leb 0 0); [by left|done|].
  rewrite (fval_zero 0%float) by done. by eapply nonneg64_fval.
Qed.

(** *** The operations of binary64 *)

Lemma mul64 la ha lb hb a b :
  nonneg64 la ha a → nonneg64 lb hb b →
  -1074 ≤ la + lb + 52 → ha + hb + 53 ≤ 970 →
  nonneg64 (la + lb + 52) (ha + hb + 54) (a * b)
  ∧ RndF (fval a * fval b) (a * b).
Proof.
  intros Ha Hb Hlo Hhi. unfold nonneg64, pos64, RndF. rewrite !mul_spec.
  destruct Ha as [Ha|(Ma & Ea & Ha & HMa & HEa)],
    Hb as [Hb|(Mb & Eb & Hb & HMb & HEb)].
  - rewrite (fval_zero _ Ha), Ha, Hb. split; left; [done|]. split; [Lra.lra|done].
  - rewrite (fval_zero _ Ha), Ha, Hb. split; left; [done|]. split; [Lra.lra|done].
  - rewrite (fval_zero _ Hb), Ha, Hb. split; left; [done|]. split; [Lra.lra|done].
  - rewrite (fval_fin _ _ _ Ha HMa), (fval_fin _ _ _ Hb HMb), Ha, Hb.
    destruct (SFmul_Rnd Ma Ea Mb Eb HMa HMb) as (p & Heq & HR & Hp); [lia..|].
    unfold SF64mul. rewrite Heq. split; right.
    + exists p.1, p.2. split; [done|]. split; [by eapply Rnd_normal|lia].
    + by exists p.
Qed.

Lemma add64 la ha lb hb a b :
  nonneg64 la ha a → nonneg64 lb hb b →
  -1074 ≤ Z.min la lb → Z.max ha hb + 1 ≤ 970 →
  nonneg64 (Z.min la lb) (Z.max ha hb + 2) (a + b)
  ∧ RndF (fval a + fval b) (a + b).
Proof.
  intros Ha Hb Hlo Hhi. unfold nonneg64, pos64, RndF. rewrite !add_spec.
  destruct Ha as [Ha|(Ma & Ea & Ha & HMa & HEa)],
    Hb as [Hb|(Mb & Eb & Hb & HMb & HEb)].
  - rewrite (fval_zero _ Ha), (fval_zero _ Hb), Ha, Hb.
    split; left; [done|]. split; [Lra.lra|done].
  - rewrite (fval_zero _ Ha), (fval_fin _ _ _ Hb HMb), Ha, Hb. split; right.
    + exists Mb, Eb. split; [done|]. split; [done|lia].
    + exists (Mb, Eb). split; [done|]. rewrite Rplus_0_l.
      apply Rnd_exact; [done|lia].
  - rewrite (fval_zero _ Hb), (fval_fin _ _ _ Ha HMa), Ha, Hb. split; right.
    + exists Ma, Ea. split; [done|]. split; [done|lia].
    + exists (Ma, Ea). split; [done|]. rewrite Rplus_0_r.
      apply Rnd_exact; [done|lia].
  - rewrite (fval_fin _ _ _ Ha HMa), (fval_fin _ _ _ Hb HMb), Ha, Hb.
    destruct (SFadd_Rnd Ma Ea Mb Eb HMa HMb) as (p & Heq & HR & Hp); [lia..|].
    unfold SF64add. rewrite Heq. split; right.
    + exists p.1, p.2. split; [done|]. split; [by eapply Rnd_normal|lia].
    + by exists p.
Qed.

Lemma div64 la ha lb hb a b :
  nonneg64 la ha a → pos64 lb hb b →
  -1074 ≤ la - hb - 53 → ha - lb - 52 ≤ 970 →
  nonneg64 (la - hb - 53) (ha - lb - 51) (a / b)
  ∧ RndF (fval a / fval b) (a / b).
Proof.
  intros Ha (Mb & Eb & Hb & HMb & HEb) Hlo Hhi.
  unfold nonneg64, pos64, RndF. rewrite !div_spec.
  destruct Ha as [Ha|(Ma & Ea & Ha & HMa & HEa)].
  - rewrite (fval_zero _ Ha), Ha, Hb. split; left; [done|].
    split; [|done]. unfold Rdiv. Lra.lra.
  - rewrite (fval_fin _ _ _ Ha HMa), (fval_fin _ _ _ Hb HMb), Ha, Hb.
    destruct (SFdiv_Rnd Ma Ea Mb Eb HMa HMb) as (p & Heq & HR & Hp); [lia..|].
    unfold SF64div. rewrite Heq. split; right.
    + exists p.1, p.2. split; [done|]. split; [by eapply Rnd_normal|lia].
    + by exists p.
Qed.

Lemma of_int64_pos n :
  0 < n < 2 ^ 63 →
  pos64 (-52) 11 (float64_of_int n) ∧ RndF (IZR n) (float64_of_int n).
Proof.
  intros Hn. unfold float64_of_int.
  destruct (Z.ltb_spec n 0); [lia|].
  unfold pos64, RndF. rewrite of_uint63_spec, Uint63.of_Z_spec.
  rewrite Z.mod_small by (change Uint63.wB with (2 ^ 63); lia).
  destruct (binary_normalize_Rnd n Hn) as (p & Heq & HR & Hp).
  rewrite Heq. split.
  - exists p.1, p.2. split; [done|]. split; [by eapply Rnd_normal|lia].
  - right. by exists p.
Qed.

Lemma of_int64 n :
  0 ≤ n < 2 ^ 63 →
  nonneg64 (-52) 11 (float64_of_int n) ∧ RndF (IZR n) (float64_of_int n).
Proof.
  intros Hn. destruct (Z.eq_dec n 0) as [->|Hne].
  - split; [by left|]. left. done.
  - destruct (of_int64_pos n ltac:(lia)) as [Hp HR]. split; [by right|done].
Qed.


(** ** The scores in binary64 *)

Lemma pos64_intro m e x :
  Prim2SF x = S754_finite false m e → normal (Zpos m) → pos64 e e x.
Proof. intros Hx Hm. by exists (Zpos m), e. Qed.

Lemma one64 : pos64 (-52) (-52) 1%float.
Proof. eapply pos64_intro; [vm_compute; reflexivity|unfold normal; lia]. Qed.

Lemma fval_one64 : fval 1%float = 1%R.
Proof.
  rewrite (fval_fin 1%float (2 ^ 52) (-52)); [|done|unfold normal; lia].
  unfold pval. cbn [fst snd]. rewrite (pow2R_IZR 52), <- pow2R_add by lia.
  reflexivity.
Qed.

Lemma RndF_one64 : RndF 1 1%float.
Proof.
  rewrite <- fval_one64.
  apply (RndF_exact (-52) (-52)); [right; apply one64|lia..].
Qed.

Lemma unit64_zero : unit64 0%float.
Proof. split; [by left|]. rewrite (fval_zero 0%float) by done. Lra.lra. Qed.

(** [float64(common) / float64(union)] lies in [0,1]. *)
Lemma ratio64 common union :
  0 ≤ common ≤ union → 0 < union < 2 ^ 63 →
  unit64 (float64_of_int common / float64_of_int union).
Proof.
  intros Hc Hu.
  destruct (of_int64 common ltac:(lia)) as [Ha HRa].
  destruct (of_int64_pos union Hu) as [Hb HRb].
  destruct (div64 _ _ _ _ _ _ Ha Hb) as [Hq HRq]; [lia..|].
  split; [exact Hq|].
  pose proof (RndF_mono _ _ _ _ HRa HRb (IZR_le common union ltac:(lia))) as Hab.
  pose proof (nonneg64_fval _ _ _ Ha). pose proof (pos64_fval _ _ _ Hb).
  rewrite <- fval_one64. refine (RndF_mono _ _ _ _ HRq RndF_one64 _).
  apply (Rmult_le_reg_r (fval (float64_of_int union))); [done|].
  unfold Rdiv. rewrite Rmult_assoc, Rinv_l by Lra.lra. Lra.lra.
Qed.

(** [float64(n) / float64(n)] is exactly 1.0. *)
Lemma ratio64_self n :
  0 < n < 2 ^ 63 → (float64_of_int n / float64_of_int n)%float = 1%float.
Proof.
  intros Hn. destruct (of_int64_pos n Hn) as [Hb HRb].
  destruct (div64 _ _ _ _ _ _ (pos64_nonneg64 _ _ _ Hb) Hb) as [_ HRq];
    [lia..|].
  pose proof (pos64_fval _ _ _ Hb).
  apply (RndF_unique 1); [|exact RndF_one64].
  replace 1%R with (fval (float64_of_int n) / fval (float64_of_int n))%R;
    [done|]. field. Lra.lra.
Qed.

(** The ratio grows with the numerator. *)
Lemma ratio64_mono c1 c2 m :
  0 ≤ c1 ≤ c2 → c2 < 2 ^ 63 → 0 < m < 2 ^ 63 →
  PrimFloat.leb (float64_of_int c1 / float64_of_int m)
                (float64_of_int c2 / float64_of_int m) = true.
Proof.
  intros Hc Hc2 Hm.
  destruct (of_int64 c1 ltac:(lia)) as [H1 HR1].
  destruct (of_int64 c2 ltac:(lia)) as [H2 HR2].
  destruct (of_int64_pos m Hm) as [Hb HRb].
  destruct (div64 _ _ _ _ _ _ H1 Hb) as [Hq1 HRq1]; [lia..|].
  destruct (div64 _ _ _ _ _ _ H2 Hb) as [Hq2 HRq2]; [lia..|].
  pose proof (RndF_mono _ _ _ _ HR1 HR2 (IZR_le c1 c2 ltac:(lia))) as H12.
  pose proof (pos64_fval _ _ _ Hb) as Hpos.
  eapply fval_leb; [exact Hq1|exact Hq2|].
  refine (RndF_mono _ _ _ _ HRq1 HRq2 _).
  unfold Rdiv. apply Rmult_le_compat_r; [|done].
  apply Rlt_le, Rinv_0_lt_compat, Hpos.
Qed.

Lemma scale64 lo hi c x :
  pos64 lo hi c → -1074 ≤ -116 + lo + 52 → 12 + hi + 53 ≤ 970 →
  unit64 x →
  nonneg64 (-116 + lo + 52) (12 + hi + 54) (x * c)
  ∧ (fval (x * c) <= fval c)%R.
Proof.
  intros Hc Hlo Hhi [Hx Hx1].
  destruct (mul64 _ _ _ _ _ _ Hx (pos64_nonneg64 _ _ _ Hc)) as [Hm HRm];
    [lia..|].
  split; [done|].
  pose proof (pos64_fval _ _ _ Hc). pose proof (nonneg64_fval _ _ _ Hx).
  refine (RndF_mono _ _ _ _ HRm
            (RndF_exact lo hi c (pos64_nonneg64 _ _ _ Hc) _ _) _); [lia..|].
  Lra.nra.
Qed.

(** The combined score of three ratios in [0,1] lies in [0,1]. *)
Lemma weighted_sum64 p l v :
  unit64 p → unit64 l → unit64 v →
  PrimFloat.leb 0 (weighted_sum p l v) = true
  ∧ PrimFloat.leb (weighted_sum p l v) 1 = true.
Proof.
  intros Hp Hl Hv.
  change (weighted_sum p l v) with (p * 0.5 + l * 0.35 + v * 0.15)%float.
  assert (pos64 (-53) (-53) 0.5%float) as Hc1
    by (eapply pos64_intro; [vm_compute; reflexivity|unfold normal; lia]).
  assert (pos64 (-54) (-54) 0.35%float) as Hc2
    by (eapply pos64_intro; [vm_compute; reflexivity|unfold normal; lia]).
  assert (pos64 (-55) (-55) 0.15%float) as Hc3
    by (eapply pos64_intro; [vm_compute; reflexivity|unfold normal; lia]).
  destruct (scale64 _ _ _ _ Hc1 ltac:(lia) ltac:(lia) Hp) as [Hp' Hpb].
  destruct (scale64 _ _ _ _ Hc2 ltac:(lia) ltac:(lia) Hl) as [Hl' Hlb].
  destruct (scale64 _ _ _ _ Hc3 ltac:(lia) ltac:(lia) Hv) as [Hv' Hvb].
  destruct (add64 _ _ _ _ _ _ Hp' Hl') as [Hs1 HRs1]; [lia..|].
  destruct (add64 _ _ _ _ _ _ Hs1 Hv') as [Hs2 HRs2]; [lia..|].
  destruct (add64 _ _ _ _ _ _ (pos64_nonneg64 _ _ _ Hc1)
              (pos64_nonneg64 _ _ _ Hc2)) as [Hk1 HRk1]; [lia..|].
  destruct (add64 _ _ _ _ _ _ Hk1 (pos64_nonneg64 _ _ _ Hc3))
    as [Hk2 HRk2]; [lia..|].
  split; [by eapply fval_0_leb|].
  change 1%float with (0.5 + 0.35 + 0.15)%float.
  eapply fval_leb; [exact Hs2|exact Hk2|].
  refine (RndF_mono _ _ _ _ HRs2 HRk2 _).
  assert (fval (p * 0.5 + l * 0.35) <= fval (0.5 + 0.35))%R
    by (refine (RndF_mono _ _ _ _ HRs1 HRk1 _); Lra.lra).
  Lra.lra.
Qed.

(** ** The similarity formula in exact arithmetic *)

Lemma jaccard_index_exact_range (A B : gset Z) :
  (0 <= jaccard_index (F:=Q) A B <= 1)%Q.
Proof.
  unfold jaccard_index. simpl.
  pose proof (len_set_inter_l A B) as Hl.
  pose proof (len_set_inter_r A B) as Hr.
  pose proof (len_set_nonneg (A ∩ B)) as H0.
  set (i := len_set (A ∩ B)) in *.
  set (u := len_set A + len_set B - i).
  assert (i ≤ u) as Hiu by (subst u; lia).
  case_bool_decide as Hu; [split; discriminate|].
  assert (0 < inject_Z u)%Q as Hpos.
  { change 0%Q with (inject_Z 0). rewrite <- Zlt_Qlt. lia. }
  split.
  - apply Qle_shift_div_l; [done|]. rewrite Qmult_0_l.
    change 0%Q with (inject_Z 0). rewrite <- Zle_Qle. lia.
  - apply Qle_shift_div_r; [done|]. rewrite Qmult_1_l.
    rewrite <- Zle_Qle. lia.
Qed.

Lemma jaccard_index_exact_same (A : gset Z) :
  A ≠ ∅ → (jaccard_index (F:=Q) A A == 1)%Q.
Proof.
  intros HA. unfold jaccard_index. simpl.
  rewrite intersection_idemp_L.
  assert (len_set A ≠ 0) as Hn by (by rewrite len_set_0).
  pose proof (len_set_nonneg A).
  rewrite bool_decide_false by lia.
  replace (len_set A + len_set A - len_set A) with (len_set A) by lia.
  apply Qmult_inv_r. change 0%Q with (inject_Z 0). rewrite inject_Z_injective. done.
Qed.

Lemma jaccard_index_exact_disjoint (A B : gset Z) :
  A ∩ B = ∅ → (jaccard_index (F:=Q) A B == 0)%Q.
Proof.
  intros HAB. unfold jaccard_index. simpl. rewrite HAB.
  change (len_set ∅) with 0.
  case_bool_decide; [reflexivity|].
  unfold Qdiv. apply Qmult_0_l.
Qed.

Lemma weighted_jaccard_exact_range (target other : interactions) :
  (0 <= weighted_jaccard (F:=Q) target other <= 1)%Q.
Proof.
  unfold weighted_jaccard. simpl.
  pose proof (jaccard_index_exact_range (purchased target) (purchased other)).
  pose proof (jaccard_index_exact_range (liked target) (liked other)).
  pose proof (jaccard_index_exact_range (viewed target) (viewed other)).
  split; lra.
Qed.

Lemma weighted_jaccard_exact_same (target other : interactions) :
  liked other = liked target → viewed other = viewed target →
  purchased other = purchased target →
  liked target ≠ ∅ → viewed target ≠ ∅ → purchased target ≠ ∅ →
  (weighted_jaccard (F:=Q) target other == 1)%Q.
Proof.
  intros EL EV EP HL HV HP. unfold weighted_jaccard. simpl.
  rewrite EL, EV, EP, !jaccard_index_exact_same by done. reflexivity.
Qed.

Lemma weighted_jaccard_exact_disjoint (target other : interactions) :
  share_nothing target other →
  (weighted_jaccard (F:=Q) target other == 0)%Q.
Proof.
  intros (HL & HV & HP). unfold weighted_jaccard. simpl.
  rewrite !jaccard_index_exact_disjoint by done. reflexivity.
Qed.

(** ** Claims about GetSimilarUsers *)

Section GetSimilarUsersClaims.
Context {F : Type} `{!ScoreArith F}.
Implicit Types (allLikes : list UserProductLike.t)
  (allViews : list UserProductView.t)
  (allPurchases : list (UserProductPurchase.t F)).

(** Every neighbor returned by [GetSimilarUsers] carries the weighted sum
    of the Jaccard indices of the two users' sets, in the program's
    arithmetic. *)
Lemma similarity_score_formula (s : recommendationService F) userID limit
    allLikes allViews allPurchases l e :
  store_holds s allLikes allViews allPurchases →
  GetSimilarUsers s userID limit = Done l →
  e ∈ l →
  UserSimilarity.SimilarityScore e
  = weighted_jaccard
      (interactions_of userID allLikes allViews allPurchases)
      (interactions_of (UserSimilarity.UserID e) allLikes allViews allPurchases).
Proof.
  intros Hs Hl He.
  pose proof (GetSimilarUsers_elem_of _ _ _ _ _ _ _ _ Hs Hl He) as Hc.
  by apply elem_of_similar_candidates in Hc as (v & _ & _ & _ & ->).
Qed.

(** C4. No user whose combined score is strictly below 0.1 is returned by
    [GetSimilarUsers]: every returned score fails the test [score < 0.1], and
    a user whose weighted Jaccard score passes that test is absent, whatever
    the user shares with the target. *)
Theorem C4_threshold_cutoff (s : recommendationService F) userID limit
    allLikes allViews allPurchases l :
  store_holds s allLikes allViews allPurchases →
  GetSimilarUsers s userID limit = Done l →
  (∀ e, e ∈ l → f_ltb (UserSimilarity.SimilarityScore e) min_similarity = false)
  ∧ (∀ v, f_ltb (weighted_jaccard
                   (interactions_of userID allLikes allViews allPurchases)
                   (interactions_of v allLikes allViews allPurchases))
                min_similarity = true →
          v ∉ UserSimilarity.UserID <$> l).
Proof.
  intros Hs Hl. split.
  - intros e He.
    pose proof (GetSimilarUsers_elem_of _ _ _ _ _ _ _ _ Hs Hl He) as Hc.
    by apply elem_of_similar_candidates in Hc as (v & _ & _ & Hlt & ->).
  - intros v Hlow (e & -> & He)%list_elem_of_fmap.
    pose proof (GetSimilarUsers_elem_of _ _ _ _ _ _ _ _ Hs Hl He) as Hc.
    apply elem_of_similar_candidates in Hc as (v & _ & _ & Hlt & ->).
    simpl in Hlow. congruence.
Qed.

(** C5. Two users who share no product in any interaction type have weighted
    Jaccard similarity 0 (evaluated exactly), and the second never appears in
    the first's neighbor list; when no other user shares a product with the
    target, [GetSimilarUsers] returns the empty list (for a limit that the
    slice expression accepts, that is, a non-negative one). *)
Theorem C5_no_shared_product (s : recommendationService F) userID limit
    allLikes allViews allPurchases :
  store_holds s allLikes allViews allPurchases →
  let target := interactions_of userID allLikes allViews allPurchases in
  (∀ other,
     share_nothing target (interactions_of other allLikes allViews allPurchases) →
     (weighted_jaccard (F:=Q) target
        (interactions_of other allLikes allViews allPurchases) == 0)%Q
     ∧ ∀ l, GetSimilarUsers s userID limit = Done l →
            other ∉ UserSimilarity.UserID <$> l)
  ∧ ((∀ other, other ≠ userID →
        share_nothing target
          (interactions_of other allLikes allViews allPurchases)) →
     0 ≤ limit →
     GetSimilarUsers s userID limit = Done []).
Proof.
  intros Hs target. split.
  - intros other Hshare. split; [by apply weighted_jaccard_exact_disjoint|].
    intros l Hl (e & -> & He)%list_elem_of_fmap.
    pose proof (GetSimilarUsers_elem_of _ _ _ _ _ _ _ _ Hs Hl He) as Hc.
    by apply elem_of_similar_candidates in Hc as (v & _ & Hn & _ & ->).
  - intros Hall Hlimit.
    rewrite (GetSimilarUsers_reads _ _ _ _ _ _ Hs), truncate_nonneg by done.
    assert (similar_candidates userID allLikes allViews allPurchases = []) as ->.
    { apply elem_of_nil_inv. intros e He.
      apply elem_of_similar_candidates in He as (v & Hv & Hn & _).
      by apply Hn, Hall. }
    change (sort_Slice higher_similarity []) with (@nil (UserSimilarity.t F)).
    by rewrite take_nil.
Qed.

(** C10. [GetSimilarUsers] uses its limit as given. When some user qualifies
    as a neighbor, limit 0 yields the empty list and every negative limit
    makes the slice expression [similarities[:limit]] panic, whereas limit
    10 (the orchestrator's default) returns a non-empty list. *)
Theorem C10_limit_used_as_given (s : recommendationService F) userID
    allLikes allViews allPurchases v :
  store_holds s allLikes allViews allPurchases →
  let target := interactions_of userID allLikes allViews allPurchases in
  let other := interactions_of v allLikes allViews allPurchases in
  v ≠ userID →
  ¬ share_nothing target other →
  f_ltb (weighted_jaccard target other) min_similarity = false →
  GetSimilarUsers s userID 0 = Done []
  ∧ (∀ limit, limit < 0 →
       GetSimilarUsers s userID limit = Panicked "slice bounds out of range")
  ∧ (∃ l, GetSimilarUsers s userID 10 = Done l ∧ l ≠ []).
Proof.
  intros Hs target other Hv Hshare Hlt.
  rewrite !(GetSimilarUsers_reads _ _ _ _ _ _ Hs).
  split; [by rewrite truncate_nonneg|]. split.
  - intros limit Hneg. rewrite (GetSimilarUsers_reads _ _ _ _ _ _ Hs).
    by apply truncate_negative.
  - rewrite truncate_nonneg by lia. eexists. split; [done|].
    assert (similarity_entry target other v
            ∈ similar_candidates userID allLikes allViews allPurchases) as Hin.
    { apply elem_of_similar_candidates. by exists v. }
    apply elem_of_sort_Slice with (less := higher_similarity) in Hin.
    destruct (sort_Slice _ _) as [|x xs]; [by apply elem_of_nil in Hin|done].
Qed.

End GetSimilarUsersClaims.

(** *** The similarity score in binary64 *)

Lemma size_list_to_set_le (l : list Z) :
  (size (list_to_set (C:=gset Z) l) ≤ length l)%nat.
Proof.
  induction l as [|x l IH]; [done|].
  cbn [list_to_set foldr length]. rewrite size_union_alt, size_singleton.
  pose proof (subseteq_size (list_to_set (C:=gset Z) l ∖ {[x]})
                (list_to_set l) (subseteq_difference_l _ _ _ (reflexivity _))).
  lia.
Qed.

Lemma len_set_interaction_set {E} (uid pid : E → Z) user (events : list E) :
  len_set (interaction_set uid pid user events) ≤ len events.
Proof.
  unfold len_set, interaction_set, len. apply Nat2Z.inj_le.
  etrans; [apply size_list_to_set_le|].
  rewrite length_fmap. apply length_filter.
Qed.

(** The Jaccard index of two sets lies in [0,1] in binary64. *)
Lemma jaccard_index64 (A B : gset Z) :
  len_set A + len_set B < 2 ^ 63 → unit64 (jaccard_index (F:=float) A B).
Proof.
  intros Hsize. unfold jaccard_index.
  pose proof (len_set_nonneg (A ∩ B)). pose proof (len_set_inter_l A B).
  pose proof (len_set_inter_r A B).
  case_bool_decide; [apply unit64_zero|].
  apply ratio64; lia.
Qed.

(** The Jaccard index of a non-empty set with itself is exactly 1.0. *)
Lemma jaccard_index64_same (A : gset Z) :
  A ≠ ∅ → len_set A < 2 ^ 63 → jaccard_index (F:=float) A A = 1%float.
Proof.
  intros HA Hsize. unfold jaccard_index. rewrite intersection_idemp_L.
  assert (len_set A ≠ 0) as Hn by (by rewrite len_set_0).
  pose proof (len_set_nonneg A).
  rewrite bool_decide_false by lia.
  replace (len_set A + len_set A - len_set A) with (len_set A) by lia.
  apply ratio64_self. lia.
Qed.

Lemma interactions_of_sizes user (allLikes : list UserProductLike.t)
    (allViews : list UserProductView.t)
    (allPurchases : list (UserProductPurchase.t float)) :
  let u := interactions_of user allLikes allViews allPurchases in
  len_set (liked u) ≤ len allLikes
  ∧ len_set (viewed u) ≤ len allViews
  ∧ len_set (purchased u) ≤ len allPurchases.
Proof. repeat split; apply len_set_interaction_set. Qed.

(** C1. Every neighbor returned by [GetSimilarUsers] carries the score
    [purchaseJaccard*0.50 + likeJaccard*0.35 + viewJaccard*0.15] over the
    Jaccard indices of the two users' interaction sets, computed in binary64
    with every operation rounded. That binary64 score lies in [0,1], and it
    is exactly 1.0 for a user whose three sets equal the target's, all three
    being non-empty. The same holds of the expression evaluated without
    rounding. The event lists are shorter than 2^62, as every Go slice of
    such records is. *)
Theorem C1_similarity_score (s : recommendationService float) userID limit
    (allLikes : list UserProductLike.t) (allViews : list UserProductView.t)
    (allPurchases : list (UserProductPurchase.t float)) l e :
  store_holds s allLikes allViews allPurchases →
  GetSimilarUsers s userID limit = Done l →
  e ∈ l →
  len allLikes < 2 ^ 62 → len allViews < 2 ^ 62 → len allPurchases < 2 ^ 62 →
  let target := interactions_of userID allLikes allViews allPurchases in
  let other :=
    interactions_of (UserSimilarity.UserID e) allLikes allViews allPurchases in
  let same := liked other = liked target ∧ viewed other = viewed target
              ∧ purchased other = purchased target
              ∧ liked target ≠ ∅ ∧ viewed target ≠ ∅ ∧ purchased target ≠ ∅ in
  UserSimilarity.SimilarityScore e = weighted_jaccard target other
  ∧ PrimFloat.leb 0 (UserSimilarity.SimilarityScore e) = true
  ∧ PrimFloat.leb (UserSimilarity.SimilarityScore e) 1 = true
  ∧ (same → UserSimilarity.SimilarityScore e = 1%float)
  ∧ (0 <= weighted_jaccard (F:=Q) target other <= 1)%Q
  ∧ (same → (weighted_jaccard (F:=Q) target other == 1)%Q).
Proof.
  intros Hs Hl He HL HV HP target other same.
  pose proof (similarity_score_formula _ _ _ _ _ _ _ _ Hs Hl He) as Hscore.
  fold target other in Hscore.
  destruct (interactions_of_sizes userID allLikes allViews allPurchases)
    as (HtL & HtV & HtP).
  destruct (interactions_of_sizes (UserSimilarity.UserID e)
              allLikes allViews allPurchases) as (HoL & HoV & HoP).
  fold target in HtL, HtV, HtP. fold other in HoL, HoV, HoP.
  split; [done|]. rewrite Hscore.
  assert (PrimFloat.leb 0 (weighted_jaccard target other) = true
          ∧ PrimFloat.leb (weighted_jaccard target other) 1 = true) as [H0 H1].
  { apply weighted_sum64; apply jaccard_index64; lia. }
  split; [done|]. split; [done|]. split; [|split].
  - intros (EL & EV & EP & NL & NV & NP). unfold weighted_jaccard.
    rewrite EL, EV, EP, !jaccard_index64_same by (done || lia).
    vm_compute. reflexivity.
  - apply weighted_jaccard_exact_range.
  - intros (EL & EV & EP & NL & NV & NP).
    by apply weighted_jaccard_exact_same.
Qed.

(** *** The claims on concrete stores *)

Lemma neighbors_store :
  store_holds Scenario.neighbors Scenario.neighbors_likes Scenario.neighbors_views
              Scenario.neighbors_purchases.
Proof. by repeat split. Qed.

(** In binary64 the mirror user of [Scenario.neighbors] scores exactly 1.0,
    and user 3, at 0.05, is cut. *)
Lemma neighbors_similar :
  GetSimilarUsers Scenario.neighbors 1 10 = Done Scenario.neighbors_of_1.
Proof. vm_compute. reflexivity. Qed.

(** Identical users score 1.0 only when all three types contribute: with
    likes alone the score is the like weight. *)
Example likes_only_similar :
  GetSimilarUsers Scenario.likes_only 1 10
  = Done [UserSimilarity.mk 2 0.35%float 1 0].
Proof. vm_compute. reflexivity. Qed.

(** The binary64 weights add up to exactly 1.0, a set divided by itself gives
    exactly 1.0 (sizes up to 1024), and every combined score over unions of
    at most 6 products lies in [0,1]. *)
Example binary64_checks :
  weighted_sum (F:=float) 1%float 1%float 1%float = 1%float
  ∧ self_ratio_is_one 1024 = true
  ∧ scores_in_unit_interval 6 = true.
Proof. repeat split; vm_compute; reflexivity. Qed.

Lemma C1_similarity_score_witness :
  let target := Scenario.neighbors_user 1 in
  let other := Scenario.neighbors_user 2 in
  1%float = weighted_jaccard target other
  ∧ PrimFloat.leb 0 (weighted_jaccard target other) = true
  ∧ PrimFloat.leb (weighted_jaccard target other) 1 = true
  ∧ (0 <= weighted_jaccard (F:=Q) target other <= 1)%Q
  ∧ (weighted_jaccard (F:=Q) target other == 1)%Q.
Proof.
  intros target other.
  destruct (C1_similarity_score Scenario.neighbors 1 10 _ _ _ _
              (UserSimilarity.mk 2 1%float 1 1)
              neighbors_store neighbors_similar)
    as (H1 & H2 & H3 & _ & H5 & H6).
  - apply list_elem_of_singleton. reflexivity.
  - vm_compute. reflexivity.
  - vm_compute. reflexivity.
  - vm_compute. reflexivity.
  - cbn [UserSimilarity.SimilarityScore UserSimilarity.UserID] in *.
    subst target other. unfold Scenario.neighbors_user. rewrite <- H1.
    split; [exact H1|]. split; [exact H2|]. split; [exact H3|].
    split; [exact H5|]. apply H6.
    repeat split; vm_compute; first [reflexivity | discriminate].
Defined.

Lemma C4_threshold_cutoff_witness :
  (∀ e, e ∈ Scenario.neighbors_of_1 →
        f_ltb (UserSimilarity.SimilarityScore e) min_similarity = false)
  ∧ (∀ v, f_ltb (weighted_jaccard (F:=float) (Scenario.neighbors_user 1)
                                  (Scenario.neighbors_user v))
                min_similarity = true →
          v ∉ UserSimilarity.UserID <$> Scenario.neighbors_of_1).
Proof.
  apply (C4_threshold_cutoff Scenario.neighbors 1 10 _ _ _ _
           neighbors_store neighbors_similar).
Defined.

(** User 3 of [Scenario.neighbors] shares a view with user 1 and is cut by
    the threshold. *)
Example neighbors_user3_cut :
  ¬ share_nothing (Scenario.neighbors_user 1) (Scenario.neighbors_user 3)
  ∧ f_ltb (weighted_jaccard (F:=float) (Scenario.neighbors_user 1)
                            (Scenario.neighbors_user 3))
          min_similarity = true
  ∧ 3 ∉ UserSimilarity.UserID <$> Scenario.neighbors_of_1.
Proof.
  split; [|split].
  - intros (_ & HV & _). vm_compute in HV. discriminate.
  - vm_compute. reflexivity.
  - vm_compute. intros H. inversion H as [|? ? ? H']. inversion H'.
Qed.

Lemma strangers_store :
  store_holds Scenario.strangers Scenario.strangers_likes []
              Scenario.strangers_purchases.
Proof. by repeat split. Qed.

Lemma strangers_share_nothing other :
  other ≠ 1 →
  share_nothing (Scenario.strangers_user 1) (Scenario.strangers_user other).
Proof.
  intros Hne.
  assert (∀ {E} (uid pid : E → Z) (events : list E),
            (∀ e1 e2, e1 ∈ events → e2 ∈ events →
                      uid e1 = 1 → uid e2 = other → pid e1 ≠ pid e2) →
            interaction_set uid pid 1 events
            ∩ interaction_set uid pid other events = ∅) as Hdisj.
  { intros E uid pid events Hev. apply set_eq. intros p.
    rewrite elem_of_intersection, !elem_of_interaction_set, elem_of_empty.
    split; [|done]. intros [(e1 & ? & ? & ?) (e2 & ? & ? & ?)].
    apply (Hev e1 e2); [done..|congruence]. }
  repeat split; apply Hdisj; intros e1 e2 H1 H2 U1 U2;
    repeat (apply elem_of_cons in H1 as [->|H1]);
    try (by apply elem_of_nil in H1);
    repeat (apply elem_of_cons in H2 as [->|H2]);
    try (by apply elem_of_nil in H2);
    cbv [Scenario.like Scenario.purchase UserProductLike.UserID
         UserProductLike.ProductID UserProductPurchase.UserID
         UserProductPurchase.ProductID] in *; congruence.
Qed.

Lemma C5_no_shared_product_witness :
  ((weighted_jaccard (F:=Q) (Scenario.strangers_user 1)
                     (Scenario.strangers_user 2) == 0)%Q
   ∧ ∀ l, GetSimilarUsers Scenario.strangers 1 10 = Done l →
          2 ∉ UserSimilarity.UserID <$> l)
  ∧ GetSimilarUsers Scenario.strangers 1 10 = Done [].
Proof.
  destruct (C5_no_shared_product Scenario.strangers 1 10 _ _ _ strangers_store)
    as [H1 H2].
  split.
  - apply (H1 2). by apply strangers_share_nothing.
  - apply H2; [apply strangers_share_nothing|done].
Defined.

Lemma C10_limit_used_as_given_witness :
  GetSimilarUsers Scenario.neighbors 1 0 = Done []
  ∧ (∀ limit, limit < 0 →
       GetSimilarUsers Scenario.neighbors 1 limit
       = Panicked "slice bounds out of range")
  ∧ (∃ l, GetSimilarUsers Scenario.neighbors 1 10 = Done l ∧ l ≠ []).
Proof.
  apply (C10_limit_used_as_given Scenario.neighbors 1 _ _ _ 2 neighbors_store).
  - done.
  - intros (HL & _). vm_compute in HL. discriminate.
  - vm_compute. reflexivity.
Defined.

(** ** Candidate aggregation *)

Section AggregationProofs.
Context {F : Type} `{!ScoreArith F}.
Implicit Types (st : gmap Z F * gmap Z (Product.t F))
  (products : ProductRepository F).

Lemma cached_product_Some products details id details' :
  cached_product products details id = Some details' →
  (details !! id = None → ∃ product,
      GetByID products id = Ok product ∧ details' = <[id := product]> details)
  ∧ (is_Some (details !! id) → details' = details).
Proof.
  unfold cached_product. destruct (details !! id) as [product|] eqn:Hd.
  - intros [= <-]. split; [done|]. done.
  - destruct (GetByID products id) as [product|] eqn:Hg; [|done].
    intros [= <-]. split; [by exists product|]. by intros [? ?].
Qed.

Lemma cached_product_missing products st id :
  cache_ok products st → in_catalog products id = false →
  cached_product products st.2 id = None.
Proof.
  intros [Hc _] Hm. unfold cached_product, in_catalog in *.
  destruct (st.2 !! id) as [product|] eqn:Hd.
  - apply Hc in Hd. by rewrite Hd in Hm.
  - by destruct (GetByID products id).
Qed.

Lemma score_event_cache_ok {E} (uid pid : E → Z) skip boost products simUser st e :
  cache_ok products st →
  cache_ok products (score_event uid pid skip boost products simUser st e).
Proof.
  intros Hok. unfold score_event.
  case_bool_decide; [done|]. destruct (skip (pid e)); [done|].
  destruct (cached_product products st.2 (pid e)) as [details'|] eqn:Hc; [|done].
  destruct Hok as [Hcat Hdom].
  apply cached_product_Some in Hc as [Hnew Hold].
  destruct (st.2 !! pid e) as [product|] eqn:Hd.
  - rewrite Hold by done. split; [done|]. cbn [fst snd]. unfold add_score.
    rewrite dom_insert_L. apply elem_of_dom_2 in Hd.
    apply union_subseteq. split; [by apply singleton_subseteq_l|done].
  - destruct Hnew as (product & Hg & ->); [done|]. split; cbn [fst snd].
    + intros id product'. rewrite lookup_insert.
      case_decide as Hid; [|by apply Hcat]. intros [= <-]. by rewrite <- Hid.
    + unfold add_score. rewrite !dom_insert_L. by apply union_mono_l.
Qed.

(** A property kept by every scoring step is kept by the whole pass. *)
Lemma score_pass_invariant {E} (uid pid : E → Z) skip boost products
    (I : gmap Z F * gmap Z (Product.t F) → Prop) :
  (∀ st simUser e, I st →
     I (score_event uid pid skip boost products simUser st e)) →
  ∀ similarUsers events st,
    I st → I (score_pass uid pid skip boost products similarUsers events st).
Proof.
  intros Hstep similarUsers events. unfold score_pass.
  induction similarUsers as [|simUser similarUsers IH]; intros st Hst; [done|].
  simpl. apply IH. clear IH. revert st Hst.
  induction events as [|e events IH]; intros st Hst; [done|].
  simpl. by apply IH, Hstep.
Qed.

Lemma score_pass_cache_ok {E} (uid pid : E → Z) skip boost products
    similarUsers events st :
  cache_ok products st →
  cache_ok products (score_pass uid pid skip boost products similarUsers events st).
Proof.
  apply score_pass_invariant. intros. by apply score_event_cache_ok.
Qed.

(** A pass scores no product that its exclusion test rejects. *)
Lemma score_pass_skips {E} (uid pid : E → Z) skip boost products
    similarUsers events st id :
  skip id = true →
  id ∈ dom (score_pass uid pid skip boost products similarUsers events st).1 →
  id ∈ dom st.1.
Proof.
  intros Hskip.
  apply (score_pass_invariant uid pid skip boost products
           (λ st', id ∈ dom st'.1 → id ∈ dom st.1)); [|done].
  intros st' simUser e IH. unfold score_event.
  case_bool_decide; [done|]. destruct (skip (pid e)) eqn:Hs; [done|].
  destruct (cached_product _ _ _); [|done].
  cbn [fst]. unfold add_score. rewrite dom_insert_L, elem_of_union, elem_of_singleton.
  intros [->|?]; [congruence|by apply IH].
Qed.

(** An event whose product the catalog does not return changes nothing. *)
Lemma score_event_missing {E} (uid pid : E → Z) skip boost products simUser st e :
  cache_ok products st → in_catalog products (pid e) = false →
  score_event uid pid skip boost products simUser st e = st.
Proof.
  intros Hok Hm. unfold score_event.
  case_bool_decide; [done|]. destruct (skip (pid e)); [done|].
  by rewrite cached_product_missing.
Qed.

(** So a pass over all events is the pass over the events whose product the
    catalog returns. *)
Lemma score_pass_found_only {E} (uid pid : E → Z) skip boost products
    similarUsers events st :
  cache_ok products st →
  score_pass uid pid skip boost products similarUsers events st
  = score_pass uid pid skip boost products similarUsers
      (filter (λ e, in_catalog products (pid e) = true) events) st.
Proof.
  unfold score_pass. revert st.
  induction similarUsers as [|simUser similarUsers IH]; intros st Hok; [done|].
  simpl.
  assert (∀ st, cache_ok products st →
            foldl (score_event uid pid skip boost products simUser) st events
            = foldl (score_event uid pid skip boost products simUser) st
                (filter (λ e, in_catalog products (pid e) = true) events)) as Hin.
  { clear. induction events as [|e events IHe]; intros st Hok; [done|].
    rewrite filter_cons. simpl. case_decide as Hf.
    - simpl. by apply IHe, score_event_cache_ok.
    - rewrite score_event_missing; [by apply IHe|done|].
      by destruct (in_catalog products (pid e)). }
  rewrite <- Hin by done. apply IH.
  apply (score_pass_cache_ok uid pid skip boost products [simUser] events st Hok).
Qed.

Lemma cache_ok_empty products : cache_ok products (∅, ∅).
Proof.
  split; [|done]. intros id product H. cbn [snd] in H. by rewrite lookup_empty in H.
Qed.

Lemma aggregate_cache_ok products uL uP similarUsers allLikes allPurchases :
  cache_ok products (aggregate products uL uP similarUsers allLikes allPurchases).
Proof.
  unfold aggregate, like_pass, purchase_pass.
  apply score_pass_cache_ok, score_pass_cache_ok, cache_ok_empty.
Qed.

(** No product the target purchased is scored by either pass. *)
Lemma aggregate_skips_purchased products uL uP similarUsers allLikes allPurchases id :
  id ∈ uP →
  id ∉ dom (aggregate products uL uP similarUsers allLikes allPurchases).1.
Proof.
  intros Hid Hin. unfold aggregate, like_pass, purchase_pass in Hin.
  apply score_pass_skips in Hin;
    [|by rewrite (bool_decide_true (id ∈ uP)), orb_true_r].
  apply score_pass_skips in Hin; [|by rewrite bool_decide_true].
  cbn [fst] in Hin. by rewrite dom_empty_L in Hin.
Qed.

(** What [to_recommendations] appends. *)
Lemma elem_of_to_recommendations (productScores : gmap Z F)
    (productDetails : gmap Z (Product.t F)) item :
  item ∈ to_recommendations productScores productDetails →
  productScores !! ProductRecommendation.ProductID item
    = Some (ProductRecommendation.Score item)
  ∧ ∃ product,
      productDetails !! ProductRecommendation.ProductID item = Some product
      ∧ ProductRecommendation.ProductName item = Product.Name product
      ∧ ProductRecommendation.Price item = Product.Price product
      ∧ ProductRecommendation.Reason item
        = "Users with similar interests liked this".
Proof.
  unfold to_recommendations. rewrite list_elem_of_omap.
  intros ([id score] & Hin & Hsome). apply elem_of_map_to_list in Hin.
  simpl in Hsome. destruct (productDetails !! id) as [product|] eqn:Hd; [|done].
  inversion Hsome; subst; simpl. split; [done|]. by exists product.
Qed.

End AggregationProofs.

(** ** The popularity ranking *)

Lemma StronglySorted_mono {A} (R1 R2 : relation A) (l : list A) :
  (∀ x y, R1 x y → R2 x y) → StronglySorted R1 l → StronglySorted R2 l.
Proof.
  intros HR. induction 1 as [|x l Hl IH Hx]; constructor; [done|].
  eapply Forall_impl; [exact Hx|]. intros y. apply HR.
Qed.

Lemma StronglySorted_take {A} (R : relation A) (n : nat) (l : list A) :
  StronglySorted R l → StronglySorted R (take n l).
Proof.
  intros Hl. revert n. induction Hl as [|x l Hl IH Hx]; intros [|n]; simpl;
    try constructor; [apply IH|by apply Forall_take].
Qed.

Lemma StronglySorted_omap {A B} (R : relation A) (R' : relation B)
    (f : A → option B) (l : list A) :
  (∀ x y a b, f x = Some a → f y = Some b → R x y → R' a b) →
  StronglySorted R l → StronglySorted R' (omap f l).
Proof.
  intros HR. induction 1 as [|x l Hl IH Hx]; simpl; [constructor|].
  destruct (f x) as [a|] eqn:Hfx; [|done].
  constructor; [done|]. apply Forall_forall. intros b Hb.
  apply list_elem_of_omap in Hb as (y & Hy & Hfy).
  rewrite Forall_forall in Hx. eauto.
Qed.

Lemma length_omap_le {A B} (f : A → option B) (l : list A) :
  (length (omap f l) ≤ length l)%nat.
Proof.
  induction l as [|x l IH]; [done|]. cbn [omap list_omap length] in *.
  destruct (f x); cbn [length]; lia.
Qed.

Lemma like_count_snoc allLikes like product :
  like_count (allLikes ++ [like]) product
  = like_count allLikes product
    + (if bool_decide (UserProductLike.ProductID like = product) then 1 else 0).
Proof.
  unfold like_count, len. rewrite filter_app, length_app, filter_cons, filter_nil.
  case_decide; case_bool_decide; try done; simpl length;
    rewrite Nat2Z.inj_add; reflexivity.
Qed.

Lemma like_count_nonneg allLikes product : 0 ≤ like_count allLikes product.
Proof. apply len_nonneg. Qed.

(** [likeCounts] holds, for each liked product, the number of its likes. *)
Lemma count_likes_spec allLikes product :
  count_likes allLikes !! product
  = if bool_decide (like_count allLikes product = 0) then None
    else Some (like_count allLikes product).
Proof.
  unfold count_likes.
  induction allLikes as [|like allLikes IH] using rev_ind; [done|].
  rewrite foldl_snoc, like_count_snoc.
  pose proof (like_count_nonneg allLikes product).
  destruct (decide (UserProductLike.ProductID like = product)) as [Hp|Hp].
  - rewrite Hp, lookup_insert_eq, IH, (bool_decide_true (product = product)) by done.
    rewrite (bool_decide_false (_ + 1 = 0)) by lia.
    by case_bool_decide as H0; simpl; [rewrite H0|].
  - rewrite lookup_insert_ne, IH, (bool_decide_false (_ = product)) by done.
    by rewrite Z.add_0_r.
Qed.

Lemma elem_of_ranked_counts allLikes pc :
  pc ∈ ranked_counts allLikes
  ↔ count pc = like_count allLikes (productID pc) ∧ 0 < count pc.
Proof.
  unfold ranked_counts. rewrite elem_of_sort_Slice, list_elem_of_fmap.
  pose proof (like_count_nonneg allLikes (productID pc)).
  split.
  - intros ([id n] & -> & Hin). apply elem_of_map_to_list in Hin.
    rewrite count_likes_spec in Hin. simpl in *.
    case_bool_decide; [done|]. inversion Hin. lia.
  - intros [Hc Hpos]. exists (productID pc, count pc). split; [by destruct pc|].
    apply elem_of_map_to_list. rewrite count_likes_spec.
    rewrite bool_decide_false by lia. by rewrite Hc.
Qed.

Lemma not_after_more_liked_total : Total (not_after more_liked).
Proof.
  intros a b. unfold not_after, more_liked.
  destruct (decide (count a ≤ count b)).
  - right. apply bool_decide_false. lia.
  - left. apply bool_decide_false. lia.
Qed.

Lemma not_after_more_liked_trans : Transitive (not_after more_liked).
Proof.
  intros a b c. unfold not_after, more_liked.
  rewrite !bool_decide_eq_false. lia.
Qed.

(** The ranking is by descending like count. *)
Lemma ranked_counts_sorted allLikes :
  StronglySorted (λ a b, count b ≤ count a) (ranked_counts allLikes).
Proof.
  unfold ranked_counts, sort_Slice.
  pose proof not_after_more_liked_total. pose proof not_after_more_liked_trans.
  eapply StronglySorted_mono; [|apply StronglySorted_merge_sort; apply _].
  intros a b. unfold not_after, more_liked. rewrite bool_decide_eq_false. lia.
Qed.

Lemma StronglySorted_Forall {A} (R : relation A) (P : A → Prop) (l : list A) :
  StronglySorted R l → Forall P l →
  StronglySorted (λ x y, R x y ∧ P x ∧ P y) l.
Proof.
  induction 1 as [|x l Hl IH Hx]; intros HP; constructor.
  - apply IH. by apply Forall_cons in HP as [_ ?].
  - apply Forall_cons in HP as [Hpx HP].
    rewrite Forall_forall in Hx, HP |- *. intros y Hy. auto.
Qed.

Section PopularityProofs.
Context {F : Type} `{!ScoreArith F}.
Implicit Types (products : ProductRepository F).

Lemma popular_item_Some products maxCount pc item :
  popular_item products maxCount pc = Some item →
  in_catalog products (productID pc) = true
  ∧ ProductRecommendation.ProductID item = productID pc
  ∧ ProductRecommendation.Score item
    = f_div (f_of_int (count pc)) (f_of_int maxCount)
  ∧ ProductRecommendation.Reason item
    = "Popular choice - " +:+ fmt_d (count pc) +:+ " users liked this".
Proof.
  unfold popular_item, in_catalog.
  destruct (GetByID products (productID pc)); [|done].
  by intros [= <-].
Qed.

Lemma popular_item_found products maxCount pc :
  in_catalog products (productID pc) = true →
  is_Some (popular_item products maxCount pc).
Proof.
  unfold popular_item, in_catalog.
  by destruct (GetByID products (productID pc)).
Qed.

(** The head of a non-empty limited ranking carries the largest like count. *)
Lemma ranked_head_top allLikes n pc rest :
  take n (ranked_counts allLikes) = pc :: rest →
  top_like_count allLikes (count pc).
Proof.
  intros Htake.
  destruct (ranked_counts allLikes) as [|pc' ranked] eqn:Hr;
    [by rewrite take_nil in Htake|].
  destruct n as [|n]; [done|]. simpl in Htake. injection Htake as -> _.
  assert (pc ∈ ranked_counts allLikes) as Hpc by (rewrite Hr; left).
  apply elem_of_ranked_counts in Hpc as [Hc Hpos].
  split; [by exists (productID pc)|].
  intros product.
  destruct (decide (like_count allLikes product = 0)) as [->|Hnz]; [lia|].
  pose proof (like_count_nonneg allLikes product).
  assert ({| productID := product; count := like_count allLikes product |}
          ∈ ranked_counts allLikes) as Hin.
  { apply elem_of_ranked_counts. simpl. split; [done|lia]. }
  pose proof (ranked_counts_sorted allLikes) as Hs. rewrite Hr in Hs, Hin.
  apply StronglySorted_inv in Hs as [_ Hall].
  apply elem_of_cons in Hin as [Heq|Hin].
  - rewrite <- Heq. simpl. lia.
  - rewrite Forall_forall in Hall. apply Hall in Hin. simpl in Hin. lia.
Qed.

(** What the fallback returns for a snapshot of the likes. *)
Lemma popular_recommendations_spec products allLikes (n : nat) item :
  item ∈ popular_recommendations products (take n (ranked_counts allLikes)) →
  ∃ m, top_like_count allLikes m
       ∧ in_catalog products (ProductRecommendation.ProductID item) = true
       ∧ 0 < like_count allLikes (ProductRecommendation.ProductID item)
       ∧ ProductRecommendation.Score item
         = f_div (f_of_int (like_count allLikes
                              (ProductRecommendation.ProductID item)))
                 (f_of_int m)
       ∧ ProductRecommendation.Reason item
         = "Popular choice - "
           +:+ fmt_d (like_count allLikes (ProductRecommendation.ProductID item))
           +:+ " users liked this".
Proof.
  unfold popular_recommendations.
  destruct (take n (ranked_counts allLikes)) as [|pc0 rest] eqn:Htake;
    [by intros ?%elem_of_nil|].
  intros (pc & Hpc & Hitem)%list_elem_of_omap.
  exists (count pc0). split; [by eapply ranked_head_top|].
  apply popular_item_Some in Hitem as (Hcat & -> & -> & ->).
  assert (pc ∈ ranked_counts allLikes) as Hin.
  { eapply subseteq_take. by rewrite Htake. }
  apply elem_of_ranked_counts in Hin as [Hc Hpos]. rewrite <- Hc. done.
Qed.

Lemma popular_recommendations_sorted products allLikes (n : nat) :
  StronglySorted
    (λ a b, like_count allLikes (ProductRecommendation.ProductID b)
            ≤ like_count allLikes (ProductRecommendation.ProductID a))
    (popular_recommendations products (take n (ranked_counts allLikes))).
Proof.
  unfold popular_recommendations.
  set (P := λ pc, count pc = like_count allLikes (productID pc)).
  eapply (StronglySorted_omap (λ a b, count b ≤ count a ∧ P a ∧ P b)).
  - intros x y a b Hx Hy (Hle & Ha & Hb).
    apply popular_item_Some in Hx as (_ & -> & _).
    apply popular_item_Some in Hy as (_ & -> & _).
    unfold P in *. lia.
  - apply StronglySorted_Forall.
    + apply StronglySorted_take, ranked_counts_sorted.
    + apply Forall_forall. intros pc Hpc. apply subseteq_take in Hpc.
      by apply elem_of_ranked_counts in Hpc as [? _].
Qed.

(** When the catalog returns every most-liked product, the first
    recommendation is one of them. *)
Lemma popular_recommendations_head products allLikes (n : nat) item rest m :
  top_like_count allLikes m →
  (∀ product, like_count allLikes product = m →
              in_catalog products product = true) →
  popular_recommendations products (take n (ranked_counts allLikes))
  = item :: rest →
  like_count allLikes (ProductRecommendation.ProductID item) = m
  ∧ ProductRecommendation.Score item = f_div (f_of_int m) (f_of_int m).
Proof.
  intros Htop Hcat. unfold popular_recommendations.
  destruct (take n (ranked_counts allLikes)) as [|pc0 top] eqn:Htake; [done|].
  pose proof (ranked_head_top _ _ _ _ Htake) as Htop0.
  assert (count pc0 = m) as Hm.
  { destruct Htop as [[p Hp] Hmax], Htop0 as [[p0 Hp0] Hmax0].
    specialize (Hmax p0). specialize (Hmax0 p). lia. }
  assert (pc0 ∈ ranked_counts allLikes) as Hin.
  { eapply subseteq_take. rewrite Htake. left. }
  apply elem_of_ranked_counts in Hin as [Hc _].
  cbn [omap list_omap].
  destruct (popular_item_found products (count pc0) pc0) as [item0 Hitem0].
  { apply Hcat. lia. }
  rewrite Hitem0. intros [= <- _].
  apply popular_item_Some in Hitem0 as (_ & -> & -> & _).
  rewrite <- Hc, Hm. done.
Qed.

Lemma popular_recommendations_length products (productCounts : list productCount) :
  len (popular_recommendations products productCounts) ≤ len productCounts.
Proof.
  unfold popular_recommendations, len. apply Nat2Z.inj_le, length_omap_le.
Qed.

Lemma ranked_counts_nil : ranked_counts [] = [].
Proof. reflexivity. Qed.

Lemma getPopularProducts_reads (s : recommendationService F) limit
    allLikes allViews allPurchases :
  store_holds s allLikes allViews allPurchases →
  0 ≤ limit →
  getPopularProducts s limit
  = Done {| RecommendationResponse.UserID := 0;
            RecommendationResponse.Recommendations :=
              popular_recommendations (productRepo s)
                (take (Z.to_nat limit) (ranked_counts allLikes));
            RecommendationResponse.Algorithm := "popularity_based";
            RecommendationResponse.GeneratedAt := timeNow s |}.
Proof.
  intros (HL & _ & _) Hlimit. unfold getPopularProducts.
  rewrite HL. simpl. by rewrite truncate_nonneg.
Qed.

End PopularityProofs.

(** ** GetRecommendations *)

Lemma clamp_limit_range (limit : Z) : 1 ≤ clamp_limit limit ≤ 50.
Proof. unfold clamp_limit. case_bool_decide; lia. Qed.

Lemma clamp_limit_idemp (limit : Z) : clamp_limit (clamp_limit limit) = clamp_limit limit.
Proof.
  pose proof (clamp_limit_range limit). unfold clamp_limit at 1.
  by rewrite bool_decide_false by lia.
Qed.

Section GetRecommendationsProofs.
Context {F : Type} `{!ScoreArith F}.
Implicit Types (allLikes : list UserProductLike.t)
  (allViews : list UserProductView.t)
  (allPurchases : list (UserProductPurchase.t F)).

(** The orchestrator, once the three reads have succeeded. *)
Lemma GetRecommendations_reads (s : recommendationService F) userID limit
    allLikes allViews allPurchases :
  store_holds s allLikes allViews allPurchases →
  let target := interactions_of userID allLikes allViews allPurchases in
  let similarUsers :=
    take 10 (sort_Slice higher_similarity
               (similar_candidates userID allLikes allViews allPurchases)) in
  let st := aggregate (productRepo s) (liked target) (purchased target)
                      similarUsers allLikes allPurchases in
  let recommendations :=
    take (Z.to_nat (clamp_limit limit))
         (sort_Slice higher_score (to_recommendations st.1 st.2)) in
  GetRecommendations s userID limit
  = if bool_decide (no_events target) then getPopularProducts s (clamp_limit limit)
    else if bool_decide (len similarUsers = 0)
         then getPopularProducts s (clamp_limit limit)
    else if bool_decide (len recommendations = 0)
         then getPopularProducts s (clamp_limit limit)
    else Done {| RecommendationResponse.UserID := userID;
                 RecommendationResponse.Recommendations := recommendations;
                 RecommendationResponse.Algorithm := "collaborative_filtering";
                 RecommendationResponse.GeneratedAt := timeNow s |}.
Proof.
  intros Hs target similarUsers st recommendations.
  pose proof (clamp_limit_range limit).
  unfold GetRecommendations.
  rewrite (GetSimilarUsers_reads _ _ _ _ _ _ Hs), truncate_nonneg by lia.
  destruct Hs as (HL & HV & HP). rewrite HL, HV, HP. simpl.
  rewrite !own_products_spec.
  rewrite (bool_decide_ext (len_set _ = 0 ∧ _ ∧ _) (no_events target))
    by (unfold no_events, target; simpl; by rewrite !len_set_0).
  case_bool_decide; [done|].
  change (take (Z.to_nat 10) ?l) with (take 10 l). fold similarUsers.
  case_bool_decide; [done|].
  rewrite truncate_nonneg by lia. simpl. fold st. fold recommendations.
  done.
Qed.

(** Either the fallback answered, or the collaborative path did. *)
Lemma GetRecommendations_cases (s : recommendationService F) userID limit
    allLikes allViews allPurchases :
  store_holds s allLikes allViews allPurchases →
  GetRecommendations s userID limit = getPopularProducts s (clamp_limit limit)
  ∨ ∃ similarUsers recommendations,
      let target := interactions_of userID allLikes allViews allPurchases in
      let st := aggregate (productRepo s) (liked target) (purchased target)
                          similarUsers allLikes allPurchases in
      GetSimilarUsers s userID 10 = Done similarUsers
      ∧ recommendations
        = take (Z.to_nat (clamp_limit limit))
               (sort_Slice higher_score (to_recommendations st.1 st.2))
      ∧ recommendations ≠ []
      ∧ GetRecommendations s userID limit
        = Done {| RecommendationResponse.UserID := userID;
                  RecommendationResponse.Recommendations := recommendations;
                  RecommendationResponse.Algorithm := "collaborative_filtering";
                  RecommendationResponse.GeneratedAt := timeNow s |}.
Proof.
  intros Hs. rewrite (GetRecommendations_reads _ _ _ _ _ _ Hs).
  case_bool_decide; [by left|]. case_bool_decide; [by left|].
  case_bool_decide as Hr; [by left|]. right.
  eexists _, _. split; [|split; [reflexivity|split; [|reflexivity]]].
  - by rewrite (GetSimilarUsers_reads _ _ _ _ _ _ Hs), truncate_nonneg by lia.
  - intros Hnil. apply Hr. by rewrite Hnil.
Qed.

Lemma GetRecommendations_Done_store (s : recommendationService F) userID limit r :
  GetRecommendations s userID limit = Done r →
  ∃ allLikes allViews allPurchases, store_holds s allLikes allViews allPurchases.
Proof.
  unfold GetRecommendations, store_holds.
  destruct (GetAllUserLikes _) as [allLikes|]; [|done].
  destruct (GetAllUserViews _) as [allViews|]; [|done].
  destruct (GetAllUserPurchases _) as [allPurchases|]; [|done].
  intros _. by exists allLikes, allViews, allPurchases.
Qed.

End GetRecommendationsProofs.

(** ** Claims about GetRecommendations *)

Section GetRecommendationsClaims.
Context {F : Type} `{!ScoreArith F}.
Implicit Types (allLikes : list UserProductLike.t)
  (allViews : list UserProductView.t)
  (allPurchases : list (UserProductPurchase.t F)).

Lemma getPopularProducts_Done (s : recommendationService F) limit r :
  getPopularProducts s limit = Done r →
  RecommendationResponse.UserID r = 0
  ∧ RecommendationResponse.Algorithm r = "popularity_based"
  ∧ len (RecommendationResponse.Recommendations r) ≤ limit.
Proof.
  unfold getPopularProducts.
  destruct (GetAllUserLikes _) as [allLikes|]; [|done]. simpl.
  destruct (truncate _ limit) as [productCounts| |] eqn:Ht; [|done..]. simpl.
  intros [= <-]. simpl. split; [done|]. split; [done|].
  apply truncate_len in Ht.
  pose proof (popular_recommendations_length (productRepo s) productCounts). lia.
Qed.

(** C6. A product the target user already purchased never appears in the
    collaborative-filtering output of [GetRecommendations]; of the two scoring
    passes, started from any state, the purchase pass adds no purchased
    product and the like pass adds no liked or purchased product. *)
Theorem C6_purchased_never_recommended (s : recommendationService F) userID limit
    allLikes allViews allPurchases r :
  store_holds s allLikes allViews allPurchases →
  GetRecommendations s userID limit = Done r →
  RecommendationResponse.Algorithm r = "collaborative_filtering" →
  let target := interactions_of userID allLikes allViews allPurchases in
  (∀ item, item ∈ RecommendationResponse.Recommendations r →
           ProductRecommendation.ProductID item ∉ purchased target)
  ∧ (∀ similarUsers st id,
       id ∈ purchased target →
       id ∈ dom (purchase_pass (productRepo s) (purchased target)
                   similarUsers allPurchases st).1 →
       id ∈ dom st.1)
  ∧ (∀ similarUsers st id,
       id ∈ liked target ∨ id ∈ purchased target →
       id ∈ dom (like_pass (productRepo s) (liked target) (purchased target)
                   similarUsers allLikes st).1 →
       id ∈ dom st.1).
Proof.
  intros Hs Hr Halg target. split; [|split].
  - destruct (GetRecommendations_cases s userID limit _ _ _ Hs)
      as [Hpop|(similarUsers & recs & _ & Hrecs & _ & Hcf)].
    + rewrite Hpop in Hr. apply getPopularProducts_Done in Hr as (_ & Hp & _).
      rewrite Hp in Halg. discriminate.
    + rewrite Hcf in Hr. injection Hr as <-. simpl. intros item Hitem.
      rewrite Hrecs in Hitem. apply subseteq_take in Hitem.
      apply elem_of_sort_Slice in Hitem.
      apply elem_of_to_recommendations in Hitem as [Hscore _].
      intros Hp. eapply aggregate_skips_purchased; [exact Hp|].
      by eapply elem_of_dom_2.
  - intros similarUsers st id Hid. unfold purchase_pass.
    apply score_pass_skips. by rewrite bool_decide_true.
  - intros similarUsers st id Hid. unfold like_pass.
    apply score_pass_skips. apply orb_true_iff.
    destruct Hid; [left|right]; by rewrite bool_decide_true.
Qed.

(** C7. Whatever the user id and the limit, the list returned by
    [GetRecommendations] is no longer than the clamped limit; a limit that is
    [<= 0] or [> 50] is replaced by 10 and the call behaves as the call with
    the clamped limit, so the limit is never the cause of an error. *)
Theorem C7_length_within_clamped_limit (s : recommendationService F) userID limit
    allLikes allViews allPurchases :
  store_holds s allLikes allViews allPurchases →
  (limit ≤ 0 ∨ limit > 50 → clamp_limit limit = 10)
  ∧ (0 < limit ≤ 50 → clamp_limit limit = limit)
  ∧ GetRecommendations s userID limit
    = GetRecommendations s userID (clamp_limit limit)
  ∧ ∃ r, GetRecommendations s userID limit = Done r
         ∧ len (RecommendationResponse.Recommendations r) ≤ clamp_limit limit.
Proof.
  intros Hs. pose proof (clamp_limit_range limit) as Hc.
  split; [|split; [|split]].
  - intros Hout. unfold clamp_limit. by rewrite bool_decide_true.
  - intros Hin. unfold clamp_limit. by rewrite bool_decide_false by lia.
  - unfold GetRecommendations. by rewrite clamp_limit_idemp.
  - destruct (GetRecommendations_cases s userID limit _ _ _ Hs)
      as [Hpop|(similarUsers & recs & _ & Hrecs & _ & Hcf)].
    + rewrite Hpop, (getPopularProducts_reads _ _ _ _ _ Hs) by lia.
      eexists. split; [done|]. simpl.
      etrans; [apply popular_recommendations_length|].
      unfold len. rewrite length_take. lia.
    + rewrite Hcf. eexists. split; [done|]. simpl. rewrite Hrecs.
      unfold len. rewrite length_take. lia.
Qed.

(** C8. A failing catalog lookup never makes [GetRecommendations] fail: with
    the interaction store readable the call returns a response, every
    returned product is one the catalog returned, and the aggregation is the
    one over the events whose product the catalog returns, so an event on a
    missing product changes no score. *)
Theorem C8_missing_product_skipped (s : recommendationService F) userID limit
    allLikes allViews allPurchases :
  store_holds s allLikes allViews allPurchases →
  (∃ r, GetRecommendations s userID limit = Done r
        ∧ ∀ item, item ∈ RecommendationResponse.Recommendations r →
                  in_catalog (productRepo s)
                    (ProductRecommendation.ProductID item) = true)
  ∧ ∀ userLikedProducts userPurchasedProducts similarUsers,
      let found_like like :=
        in_catalog (productRepo s) (UserProductLike.ProductID like) = true in
      let found_purchase purchase :=
        in_catalog (productRepo s) (UserProductPurchase.ProductID purchase) = true in
      let st := aggregate (productRepo s) userLikedProducts userPurchasedProducts
                          similarUsers allLikes allPurchases in
      st = aggregate (productRepo s) userLikedProducts userPurchasedProducts
             similarUsers (filter found_like allLikes)
             (filter found_purchase allPurchases)
      ∧ ∀ id, in_catalog (productRepo s) id = false → st.1 !! id = None.
Proof.
  intros Hs. split.
  - destruct (GetRecommendations_cases s userID limit _ _ _ Hs)
      as [Hpop|(similarUsers & recs & _ & Hrecs & _ & Hcf)].
    + pose proof (clamp_limit_range limit).
      rewrite Hpop, (getPopularProducts_reads _ _ _ _ _ Hs) by lia.
      eexists. split; [done|]. simpl. intros item Hitem.
      by apply popular_recommendations_spec in Hitem as (m & _ & ? & _).
    + rewrite Hcf. eexists. split; [done|]. simpl. intros item Hitem.
      rewrite Hrecs in Hitem. apply subseteq_take in Hitem.
      apply elem_of_sort_Slice in Hitem.
      apply elem_of_to_recommendations in Hitem as [_ (product & Hd & _)].
      apply aggregate_cache_ok in Hd. unfold in_catalog. by rewrite Hd.
  - intros uL uP similarUsers found_like found_purchase st. split.
    + unfold st, found_like, found_purchase, aggregate, like_pass, purchase_pass.
      rewrite <- (score_pass_found_only _ _ _ _ _ _ allPurchases)
        by apply cache_ok_empty.
      rewrite <- (score_pass_found_only _ _ _ _ _ _ allLikes); [done|].
      apply score_pass_cache_ok, cache_ok_empty.
    + intros id Hmiss. apply not_elem_of_dom. intros Hin.
      destruct (aggregate_cache_ok (productRepo s) uL uP similarUsers
                  allLikes allPurchases) as [Hcat Hdom].
      apply Hdom, elem_of_dom in Hin as [product Hd]. apply Hcat in Hd.
      unfold in_catalog in Hmiss. by rewrite Hd in Hmiss.
Qed.

(** C9. A response of [GetRecommendations] either is the response of the
    popularity fallback, whose [user_id] is 0 whatever user asked, or comes
    from the collaborative path, which alone echoes the requested user id. *)
Theorem C9_fallback_user_id_zero (s : recommendationService F) userID limit r :
  GetRecommendations s userID limit = Done r →
  (getPopularProducts s (clamp_limit limit) = Done r
   ∧ RecommendationResponse.Algorithm r = "popularity_based"
   ∧ RecommendationResponse.UserID r = 0)
  ∨ (RecommendationResponse.Algorithm r = "collaborative_filtering"
     ∧ RecommendationResponse.UserID r = userID).
Proof.
  intros Hr.
  destruct (GetRecommendations_Done_store _ _ _ _ Hr) as (L & V & P & Hs).
  destruct (GetRecommendations_cases s userID limit _ _ _ Hs)
    as [Hpop|(similarUsers & recs & _ & _ & _ & Hcf)].
  - left. rewrite Hpop in Hr. split; [done|].
    by apply getPopularProducts_Done in Hr as (? & ? & _).
  - right. rewrite Hcf in Hr. by injection Hr as <-.
Qed.

End GetRecommendationsClaims.

(** *** The claims on concrete stores *)

Lemma deleted_store :
  store_holds Scenario.deleted Scenario.deleted_likes [] Scenario.deleted_purchases.
Proof. by repeat split. Qed.

(** Products 102 and 104 are gone from the catalog: the neighbor's purchase
    of 102 and like of 104 leave no trace, 103 and 105 are recommended. *)
Lemma deleted_recommendations :
  GetRecommendations Scenario.deleted 1 10 = Done Scenario.deleted_response.
Proof. vm_compute. reflexivity. Qed.

Lemma C6_purchased_never_recommended_witness :
  (∀ item, item ∈ RecommendationResponse.Recommendations Scenario.deleted_response →
           ProductRecommendation.ProductID item
           ∉ purchased (Scenario.deleted_user 1))
  ∧ (∀ similarUsers st id,
       id ∈ purchased (Scenario.deleted_user 1) →
       id ∈ dom (purchase_pass (productRepo Scenario.deleted)
                   (purchased (Scenario.deleted_user 1))
                   similarUsers Scenario.deleted_purchases st).1 →
       id ∈ dom st.1)
  ∧ (∀ similarUsers st id,
       id ∈ liked (Scenario.deleted_user 1)
       ∨ id ∈ purchased (Scenario.deleted_user 1) →
       id ∈ dom (like_pass (productRepo Scenario.deleted)
                   (liked (Scenario.deleted_user 1))
                   (purchased (Scenario.deleted_user 1))
                   similarUsers Scenario.deleted_likes st).1 →
       id ∈ dom st.1).
Proof.
  apply (C6_purchased_never_recommended Scenario.deleted 1 10 _ _ _ _
           deleted_store deleted_recommendations).
  reflexivity.
Defined.

Lemma C7_length_within_clamped_limit_witness :
  (0 ≤ 0 ∨ 0 > 50 → clamp_limit 0 = 10)
  ∧ (0 < 0 ≤ 50 → clamp_limit 0 = 0)
  ∧ GetRecommendations Scenario.cold 1 0
    = GetRecommendations Scenario.cold 1 (clamp_limit 0)
  ∧ ∃ r, GetRecommendations Scenario.cold 1 0 = Done r
         ∧ len (RecommendationResponse.Recommendations r) ≤ clamp_limit 0.
Proof.
  apply (C7_length_within_clamped_limit Scenario.cold 1 0
           Scenario.cold_likes [] []).
  by repeat split.
Defined.

Lemma C8_missing_product_skipped_witness :
  (∃ r, GetRecommendations Scenario.deleted 1 10 = Done r
        ∧ ∀ item, item ∈ RecommendationResponse.Recommendations r →
                  in_catalog (productRepo Scenario.deleted)
                    (ProductRecommendation.ProductID item) = true)
  ∧ ∀ userLikedProducts userPurchasedProducts similarUsers,
      let found_like like :=
        in_catalog (productRepo Scenario.deleted)
                   (UserProductLike.ProductID like) = true in
      let found_purchase purchase :=
        in_catalog (productRepo Scenario.deleted)
                   (UserProductPurchase.ProductID purchase) = true in
      let st := aggregate (productRepo Scenario.deleted) userLikedProducts
                          userPurchasedProducts similarUsers
                          Scenario.deleted_likes Scenario.deleted_purchases in
      st = aggregate (productRepo Scenario.deleted) userLikedProducts
             userPurchasedProducts similarUsers
             (filter found_like Scenario.deleted_likes)
             (filter found_purchase Scenario.deleted_purchases)
      ∧ ∀ id, in_catalog (productRepo Scenario.deleted) id = false →
              st.1 !! id = None.
Proof.
  apply (C8_missing_product_skipped Scenario.deleted 1 10 _ _ _ deleted_store).
Defined.

Lemma cold_recommendations :
  GetRecommendations Scenario.cold 1 10 = Done Scenario.cold_response.
Proof. vm_compute. reflexivity. Qed.

Lemma C9_fallback_user_id_zero_witness :
  (getPopularProducts Scenario.cold (clamp_limit 10) = Done Scenario.cold_response
   ∧ RecommendationResponse.Algorithm Scenario.cold_response = "popularity_based"
   ∧ RecommendationResponse.UserID Scenario.cold_response = 0)
  ∨ (RecommendationResponse.Algorithm Scenario.cold_response
     = "collaborative_filtering"
     ∧ RecommendationResponse.UserID Scenario.cold_response = 1).
Proof.
  apply (C9_fallback_user_id_zero Scenario.cold 1 10 _ cold_recommendations).
Defined.

(** The collaborative path echoes the user id; the fallback does not. *)
Example user_id_of_each_path :
  RecommendationResponse.UserID Scenario.deleted_response = 1
  ∧ RecommendationResponse.UserID Scenario.cold_response = 0.
Proof. done. Qed.

(** ** The cold-start claim *)

Lemma top_like_count_unique allLikes m m' :
  top_like_count allLikes m → top_like_count allLikes m' → m = m'.
Proof.
  intros [[p Hp] Hmax] [[p' Hp'] Hmax'].
  specialize (Hmax p'). specialize (Hmax' p). lia.
Qed.

Lemma normalized_score_exact_mono allLikes m a b :
  0 < m →
  like_count allLikes b ≤ like_count allLikes a →
  (normalized_score (F:=Q) allLikes m b <= normalized_score (F:=Q) allLikes m a)%Q.
Proof.
  intros Hm Hle. unfold normalized_score. simpl. unfold Qdiv.
  apply Qmult_le_compat_r; [by rewrite <- Zle_Qle|].
  apply Qinv_le_0_compat. change 0%Q with (inject_Z 0). rewrite <- Zle_Qle. lia.
Qed.

Lemma normalized_score_exact_top allLikes m product :
  0 < m → like_count allLikes product = m →
  (normalized_score (F:=Q) allLikes m product == 1)%Q.
Proof.
  intros Hm Hp. unfold normalized_score. rewrite Hp. simpl. apply Qmult_inv_r.
  change 0%Q with (inject_Z 0). rewrite inject_Z_injective. lia.
Qed.

Lemma like_count_le_len allLikes product :
  like_count allLikes product ≤ len allLikes.
Proof. unfold like_count, len. apply Nat2Z.inj_le, length_filter. Qed.

(** C3, as the code has it. For a user without any event,
    [GetRecommendations] answers with the popularity ranking: user id 0, tag
    "popularity_based", at most [clamp_limit limit] items (so at most [limit]
    for a positive [limit]), empty when nobody liked anything. Each item's
    score is its like count over the largest like count of any product [m],
    divided in binary64, and its reason spells out its like count. The
    binary64 scores are in descending order. The first item scores exactly
    1.0 when it is a product with [m] likes, which is the case when the
    catalog returns every product with [m] likes. The like list is shorter
    than 2^63, as every Go slice is. *)
Theorem C3_cold_start_popularity (s : recommendationService float) userID limit
    (allLikes : list UserProductLike.t) (allViews : list UserProductView.t)
    (allPurchases : list (UserProductPurchase.t float)) :
  store_holds s allLikes allViews allPurchases →
  no_events (interactions_of userID allLikes allViews allPurchases) →
  len allLikes < 2 ^ 63 →
  ∃ recs m,
    GetRecommendations s userID limit
    = Done {| RecommendationResponse.UserID := 0;
              RecommendationResponse.Recommendations := recs;
              RecommendationResponse.Algorithm := "popularity_based";
              RecommendationResponse.GeneratedAt := timeNow s |}
    ∧ len recs ≤ clamp_limit limit
    ∧ (0 < limit → len recs ≤ limit)
    ∧ (allLikes = [] → recs = [])
    ∧ (recs ≠ [] → top_like_count allLikes m)
    ∧ (∀ item, item ∈ recs →
         ProductRecommendation.Score item
         = normalized_score allLikes m (ProductRecommendation.ProductID item)
         ∧ ProductRecommendation.Reason item
           = "Popular choice - "
             +:+ fmt_d (like_count allLikes (ProductRecommendation.ProductID item))
             +:+ " users liked this")
    ∧ StronglySorted
        (λ a b, PrimFloat.leb (ProductRecommendation.Score b)
                              (ProductRecommendation.Score a) = true)
        recs
    ∧ (∀ item rest, recs = item :: rest →
         (like_count allLikes (ProductRecommendation.ProductID item) = m →
          ProductRecommendation.Score item = 1%float)
         ∧ ((∀ product, like_count allLikes product = m →
                        in_catalog (productRepo s) product = true) →
            like_count allLikes (ProductRecommendation.ProductID item) = m))
    ∧ StronglySorted
        (λ a b, (normalized_score (F:=Q) allLikes m
                   (ProductRecommendation.ProductID b)
                 <= normalized_score (F:=Q) allLikes m
                      (ProductRecommendation.ProductID a))%Q)
        recs.
Proof.
  intros Hs Hcold Hsize. pose proof (clamp_limit_range limit) as Hc.
  rewrite (GetRecommendations_reads _ _ _ _ _ _ Hs).
  rewrite bool_decide_true by done.
  rewrite (getPopularProducts_reads _ _ _ _ _ Hs) by lia.
  set (n := Z.to_nat (clamp_limit limit)).
  set (recs := popular_recommendations (productRepo s)
                 (take n (ranked_counts allLikes))).
  assert (len recs ≤ clamp_limit limit) as Hlen.
  { etrans; [apply popular_recommendations_length|].
    unfold len. rewrite length_take. lia. }
  assert (0 < limit → len recs ≤ limit) as Hlim.
  { intros Hpos. unfold clamp_limit in Hlen. case_bool_decide; lia. }
  assert (allLikes = [] → recs = []) as Hnil.
  { intros ->. unfold recs. by rewrite ranked_counts_nil, take_nil. }
  destruct recs as [|item0 rest] eqn:Hrecs.
  { exists [], 1.
    split; [done|]. split; [done|]. split; [by apply Hlim|].
    split; [done|]. split; [done|].
    split; [by intros item ?%elem_of_nil|]. split; [constructor|].
    split; [done|constructor]. }
  assert (item0 ∈ popular_recommendations (productRepo s)
                     (take n (ranked_counts allLikes))) as Hin0
    by (fold recs; rewrite Hrecs; left).
  apply popular_recommendations_spec in Hin0 as (m & Htop & _ & Hpos0 & _).
  assert (0 < m) as Hm by (destruct Htop as [_ Hmax]; specialize (Hmax
    (ProductRecommendation.ProductID item0)); lia).
  assert (m < 2 ^ 63) as Hm63.
  { destruct Htop as [[p <-] _]. pose proof (like_count_le_len allLikes p). lia. }
  assert (∀ item, item ∈ item0 :: rest →
            ProductRecommendation.Score item
            = normalized_score allLikes m (ProductRecommendation.ProductID item)
            ∧ ProductRecommendation.Reason item
              = "Popular choice - "
                +:+ fmt_d (like_count allLikes
                             (ProductRecommendation.ProductID item))
                +:+ " users liked this") as Hitems.
  { intros item Hitem. rewrite <- Hrecs in Hitem.
    apply popular_recommendations_spec in Hitem
      as (m' & Htop' & _ & _ & Hscore & Hreason).
    rewrite (top_like_count_unique _ _ _ Htop Htop'). done. }
  exists (item0 :: rest), m.
  split; [done|]. split; [done|]. split; [done|]. split; [done|].
  split; [done|]. split; [done|]. split; [|split].
  - pose proof (popular_recommendations_sorted (productRepo s) allLikes n)
      as Hsorted.
    fold recs in Hsorted. rewrite Hrecs in Hsorted.
    apply (StronglySorted_Forall _
             (λ item, ProductRecommendation.Score item
                      = normalized_score allLikes m
                          (ProductRecommendation.ProductID item))) in Hsorted;
      [|apply Forall_forall; intros item Hitem; by apply Hitems].
    eapply StronglySorted_mono; [|exact Hsorted].
    intros a b (Hle & -> & ->). unfold normalized_score.
    pose proof (like_count_nonneg allLikes (ProductRecommendation.ProductID b)).
    pose proof (like_count_le_len allLikes (ProductRecommendation.ProductID a)).
    apply ratio64_mono; lia.
  - intros item rest' [= <- <-]. split.
    + intros Hcount. destruct (Hitems item0) as [-> _]; [left|].
      unfold normalized_score. rewrite Hcount. apply ratio64_self. lia.
    + intros Hcat.
      by destruct (popular_recommendations_head (productRepo s) allLikes n
                     item0 rest m Htop Hcat Hrecs) as [Hcount _].
  - rewrite <- Hrecs.
    eapply StronglySorted_mono; [|apply popular_recommendations_sorted].
    intros a b. by apply normalized_score_exact_mono.
Qed.

Lemma cold_no_events :
  no_events (interactions_of (F:=float) 1 Scenario.cold_likes [] []).
Proof. by repeat split. Qed.

Lemma cold_top_deleted_recommendations :
  GetRecommendations Scenario.cold_top_deleted 1 10
  = Done Scenario.cold_top_deleted_response.
Proof. vm_compute. reflexivity. Qed.

Lemma cold_recommendations_limit_0 :
  GetRecommendations Scenario.cold 1 0 = Done Scenario.cold_response.
Proof. vm_compute. reflexivity. Qed.

(** C3 as stated fails twice. With the most liked product deleted from the
    catalog, the first (and only) item scores 0.5; and for the limit 0 the
    list has two items. User 1 has no event in either store. *)
Lemma C3_counterexample :
  no_events (interactions_of (F:=float) 1 Scenario.cold_likes [] [])
  ∧ GetRecommendations Scenario.cold_top_deleted 1 10
    = Done Scenario.cold_top_deleted_response
  ∧ ¬ (∀ item rest,
         RecommendationResponse.Recommendations Scenario.cold_top_deleted_response
         = item :: rest →
         ProductRecommendation.Score item = 1%float)
  ∧ GetRecommendations Scenario.cold 1 0 = Done Scenario.cold_response
  ∧ ¬ (len (RecommendationResponse.Recommendations Scenario.cold_response) ≤ 0).
Proof.
  split; [exact cold_no_events|].
  split; [exact cold_top_deleted_recommendations|]. split; [|split].
  - intros H. specialize (H _ _ eq_refl).
    apply (f_equal (λ x, PrimFloat.ltb x 1%float)) in H. vm_compute in H.
    discriminate.
  - exact cold_recommendations_limit_0.
  - vm_compute. by intros H.
Qed.

Lemma C3_cold_start_popularity_witness :
  ∃ recs m,
    GetRecommendations Scenario.cold 1 10
    = Done {| RecommendationResponse.UserID := 0;
              RecommendationResponse.Recommendations := recs;
              RecommendationResponse.Algorithm := "popularity_based";
              RecommendationResponse.GeneratedAt := timeNow Scenario.cold |}
    ∧ len recs ≤ clamp_limit 10
    ∧ (0 < 10 → len recs ≤ 10)
    ∧ (Scenario.cold_likes = [] → recs = [])
    ∧ (recs ≠ [] → top_like_count Scenario.cold_likes m)
    ∧ (∀ item, item ∈ recs →
         ProductRecommendation.Score item
         = normalized_score Scenario.cold_likes m
             (ProductRecommendation.ProductID item)
         ∧ ProductRecommendation.Reason item
           = "Popular choice - "
             +:+ fmt_d (like_count Scenario.cold_likes
                          (ProductRecommendation.ProductID item))
             +:+ " users liked this")
    ∧ StronglySorted
        (λ a b, PrimFloat.leb (ProductRecommendation.Score b)
                              (ProductRecommendation.Score a) = true)
        recs
    ∧ (∀ item rest, recs = item :: rest →
         (like_count Scenario.cold_likes
            (ProductRecommendation.ProductID item) = m →
          ProductRecommendation.Score item = 1%float)
         ∧ ((∀ product, like_count Scenario.cold_likes product = m →
                        in_catalog (productRepo Scenario.cold) product = true) →
            like_count Scenario.cold_likes
              (ProductRecommendation.ProductID item) = m))
    ∧ StronglySorted
        (λ a b, (normalized_score (F:=Q) Scenario.cold_likes m
                   (ProductRecommendation.ProductID b)
                 <= normalized_score (F:=Q) Scenario.cold_likes m
                      (ProductRecommendation.ProductID a))%Q)
        recs.
Proof.
  apply (C3_cold_start_popularity Scenario.cold 1 10 Scenario.cold_likes [] []).
  - by repeat split.
  - exact cold_no_events.
  - vm_compute. reflexivity.
Defined.

(** In [Scenario.cold] the catalog holds every product, and in binary64 the
    first item scores exactly 1.0. *)
Example cold_top_item :
  ∃ rest, RecommendationResponse.Recommendations Scenario.cold_response
          = Scenario.popular 101 1%float "2" :: rest.
Proof. by eexists. Qed.

(** Two products tie for the most likes and one of them is gone from the
    catalog: the other one is returned and scores exactly 1.0. *)
Example cold_tie_one_deleted :
  GetRecommendations
    (Scenario.service [Scenario.like 2 101; Scenario.like 3 102] [] [] [102])
    1 10
  = Done (Scenario.response 0 [Scenario.popular 102 1%float "1"]
                            "popularity_based").
Proof. vm_compute. reflexivity. Qed.

(** ** The shared-purchase scenario *)

Lemma interaction_set_nil {E} (uid pid : E → Z) user :
  interaction_set uid pid user [] = ∅.
Proof. reflexivity. Qed.

Lemma interaction_set_cons {E} (uid pid : E → Z) user e events :
  interaction_set uid pid user (e :: events)
  = if bool_decide (uid e = user)
    then {[pid e]} ∪ interaction_set uid pid user events
    else interaction_set uid pid user events.
Proof.
  unfold interaction_set. rewrite filter_cons.
  case_decide; [by rewrite bool_decide_true|by rewrite bool_decide_false].
Qed.

Lemma sort_Slice_singleton {A} (less : A → A → bool) (x : A) :
  sort_Slice less [x] = [x].
Proof. reflexivity. Qed.

Section SharedPurchase.
Variables (s : recommendationService float) (u v P1 P2 : Z).
Variables (p1 p2 p3 : UserProductPurchase.t float) (product2 : Product.t float).
Hypothesis users_differ : u ≠ v.
Hypothesis products_differ : P1 ≠ P2.
Hypothesis target_bought_P1 :
  UserProductPurchase.UserID p1 = u ∧ UserProductPurchase.ProductID p1 = P1.
Hypothesis other_bought_P1 :
  UserProductPurchase.UserID p2 = v ∧ UserProductPurchase.ProductID p2 = P1.
Hypothesis other_bought_P2 :
  UserProductPurchase.UserID p3 = v ∧ UserProductPurchase.ProductID p3 = P2.
Hypothesis only_these : store_holds s [] [] [p1; p2; p3].
Hypothesis P2_in_catalog : GetByID (productRepo s) P2 = Ok product2.

Local Abbreviation target := (interactions_of u [] [] [p1; p2; p3]).
Local Abbreviation other := (interactions_of v [] [] [p1; p2; p3]).

Lemma shared_purchase_target :
  target = {| liked := ∅; viewed := ∅; purchased := {[P1]} |}.
Proof.
  destruct target_bought_P1 as [U1 I1], other_bought_P1 as [U2 I2],
    other_bought_P2 as [U3 I3].
  unfold target, interactions_of.
  rewrite !interaction_set_cons, !interaction_set_nil, U1, U2, U3, I1.
  rewrite (bool_decide_true (u = u)), (bool_decide_false (v = u)) by done.
  by rewrite union_empty_r_L.
Qed.

Lemma shared_purchase_other :
  other = {| liked := ∅; viewed := ∅; purchased := {[P1]} ∪ {[P2]} |}.
Proof.
  destruct target_bought_P1 as [U1 I1], other_bought_P1 as [U2 I2],
    other_bought_P2 as [U3 I3].
  unfold other, interactions_of.
  rewrite !interaction_set_cons, !interaction_set_nil, U1, U2, U3, I2, I3.
  rewrite (bool_decide_true (v = v)), (bool_decide_false (u = v)) by done.
  by rewrite union_empty_r_L.
Qed.

Lemma shared_purchase_score : weighted_jaccard target other = 0.25%float.
Proof.
  rewrite shared_purchase_target, shared_purchase_other.
  unfold weighted_jaccard, jaccard_index. cbn [liked viewed purchased].
  assert (({[P1]} : gset Z) ∩ ({[P1]} ∪ {[P2]}) = {[P1]}) as ->
    by apply subseteq_intersection_1_L, union_subseteq_l.
  rewrite intersection_empty_r_L.
  assert (len_set ({[P1]} ∪ {[P2]}) = 2) as ->.
  { unfold len_set. rewrite size_union, !size_singleton; [done|].
    by apply disjoint_singleton_l, not_elem_of_singleton. }
  assert (len_set {[P1]} = 1) as -> by (unfold len_set; by rewrite size_singleton).
  reflexivity.
Qed.

Lemma shared_purchase_share : ¬ share_nothing target other.
Proof.
  rewrite shared_purchase_target, shared_purchase_other.
  intros (_ & _ & HP). cbn [purchased] in HP.
  assert (P1 ∈ ({[P1]} : gset Z) ∩ ({[P1]} ∪ {[P2]})) as Hin.
  { apply elem_of_intersection. split; [|apply elem_of_union; left];
      by apply elem_of_singleton. }
  rewrite HP in Hin. by apply elem_of_empty in Hin.
Qed.

Lemma shared_purchase_entry :
  similarity_entry target other v = UserSimilarity.mk v 0.25%float 0 0.
Proof.
  unfold similarity_entry. rewrite shared_purchase_score.
  rewrite shared_purchase_target, shared_purchase_other. reflexivity.
Qed.

Lemma shared_purchase_candidates :
  similar_candidates u [] [] [p1; p2; p3] = [UserSimilarity.mk v 0.25%float 0 0].
Proof.
  destruct target_bought_P1 as [U1 I1], other_bought_P1 as [U2 I2],
    other_bought_P2 as [U3 I3].
  unfold similar_candidates.
  set (ids := _ ∪ _ ∪ _).
  assert (ids = {[v]}) as ->.
  { apply set_eq. intros x. unfold ids.
    rewrite !elem_of_union, !elem_of_dom_group_products, elem_of_singleton.
    rewrite !interaction_set_cons, !interaction_set_nil, U1, U2, U3.
    destruct (decide (x = v)) as [->|Hv].
    - rewrite (bool_decide_true (v = v)) by done.
      split; [done|]. intros _. right. split; [done|].
      rewrite (bool_decide_false (u = v)) by done.
      apply non_empty_inhabited_L with (x := UserProductPurchase.ProductID p2).
      rewrite elem_of_union, elem_of_singleton. by left.
    - rewrite (bool_decide_false (v = x)) by done.
      split; [|done]. intros [[[_ ?]|[_ ?]]|[Hu Hne]]; [done..|].
      by rewrite (bool_decide_false (u = x)) in Hne. }
  rewrite elements_singleton. cbn [omap list_omap].
  rewrite compare_user_groups by done. cbn zeta. fold target other.
  rewrite bool_decide_false by apply shared_purchase_share.
  rewrite shared_purchase_score, shared_purchase_entry. reflexivity.
Qed.

Lemma shared_purchase_similar limit :
  1 ≤ limit →
  GetSimilarUsers s u limit = Done [UserSimilarity.mk v 0.25%float 0 0].
Proof.
  intros Hl.
  rewrite (GetSimilarUsers_reads _ _ _ _ _ _ only_these), shared_purchase_candidates.
  rewrite sort_Slice_singleton, truncate_nonneg by lia.
  destruct (Z.to_nat limit) as [|n] eqn:Hn; [lia|]. by rewrite firstn_cons, take_nil.
Qed.


Lemma shared_purchase_aggregate :
  aggregate (productRepo s) (liked target) (purchased target)
            [UserSimilarity.mk v 0.25%float 0 0] [] [p1; p2; p3]
  = ({[P2 := 0.75%float]}, {[P2 := product2]}).
Proof.
  destruct target_bought_P1 as [U1 I1], other_bought_P1 as [U2 I2],
    other_bought_P2 as [U3 I3].
  rewrite shared_purchase_target. cbn [liked purchased].
  unfold aggregate, like_pass, purchase_pass, score_pass. cbn [foldl].
  unfold score_event. cbn [UserSimilarity.UserID UserSimilarity.SimilarityScore].
  rewrite U1, U2, U3, I2, I3.
  rewrite (bool_decide_true (u ≠ v)), (bool_decide_false (v ≠ v)) by auto.
  rewrite (bool_decide_true (P1 ∈ _)) by (by apply elem_of_singleton).
  rewrite (bool_decide_false (P2 ∈ _))
    by (by intros ?%elem_of_singleton).
  unfold cached_product. cbn [fst snd]. rewrite lookup_empty, P2_in_catalog.
  unfold add_score. rewrite lookup_empty. reflexivity.
Qed.

Lemma shared_purchase_jaccard :
  jaccard_index (F:=float) (purchased target) (purchased other) = 0.5%float.
Proof.
  rewrite shared_purchase_target, shared_purchase_other.
  unfold jaccard_index. cbn [purchased].
  assert (({[P1]} : gset Z) ∩ ({[P1]} ∪ {[P2]}) = {[P1]}) as ->
    by apply subseteq_intersection_1_L, union_subseteq_l.
  assert (len_set ({[P1]} ∪ {[P2]}) = 2) as ->.
  { unfold len_set. rewrite size_union, !size_singleton; [done|].
    by apply disjoint_singleton_l, not_elem_of_singleton. }
  assert (len_set {[P1]} = 1) as ->
    by (unfold len_set; by rewrite size_singleton).
  reflexivity.
Qed.

Lemma shared_purchase_recommendations limit :
  GetRecommendations s u limit
  = Done {| RecommendationResponse.UserID := u;
              RecommendationResponse.Recommendations :=
                [ {| ProductRecommendation.ProductID := P2;
                     ProductRecommendation.ProductName := Product.Name product2;
                     ProductRecommendation.CategoryID :=
                       default 0 (Product.CategoryID product2);
                     ProductRecommendation.Price := Product.Price product2;
                     ProductRecommendation.Score := 0.75%float;
                     ProductRecommendation.Reason :=
                       "Users with similar interests liked this" |} ];
              RecommendationResponse.Algorithm := "collaborative_filtering";
              RecommendationResponse.GeneratedAt := timeNow s |}.
Proof.
  pose proof (clamp_limit_range limit) as Hc.
  rewrite (GetRecommendations_reads _ _ _ _ _ _ only_these).
  fold target. rewrite shared_purchase_candidates, sort_Slice_singleton.
  cbn [take]. rewrite shared_purchase_aggregate.
  rewrite bool_decide_false.
  2:{ rewrite shared_purchase_target. intros (_ & _ & HP). cbn in HP.
      assert (P1 ∈ (∅ : gset Z)) as Hin
        by (rewrite <- HP; by apply elem_of_singleton).
      by apply elem_of_empty in Hin. }
  rewrite (bool_decide_false (len [_] = 0)) by done.
  cbn [fst snd]. unfold to_recommendations.
  rewrite map_to_list_singleton. cbn [omap list_omap fst snd].
  rewrite lookup_singleton_eq, sort_Slice_singleton.
  destruct (Z.to_nat (clamp_limit limit)) as [|n] eqn:Hn; [lia|].
  rewrite firstn_cons, take_nil. by rewrite bool_decide_false.
Qed.

(** C2, as the code has it. The target's only event is a purchase of [P1];
    the only other user purchased [P1] and [P2]. The purchase Jaccard index
    is 1/2 (one shared product out of two in the union), the combined
    similarity 0.25, so [GetSimilarUsers] returns that user with score 0.25
    and [GetRecommendations] returns [P2] alone, with score
    [0.25 * 3.0 = 0.75]; [P1] is not returned. *)
Theorem C2_shared_purchase_scenario limit :
  jaccard_index (F:=float) (purchased target) (purchased other) = 0.5%float
  ∧ (∀ n, 1 ≤ n →
          GetSimilarUsers s u n = Done [UserSimilarity.mk v 0.25%float 0 0])
  ∧ GetRecommendations s u limit
    = Done {| RecommendationResponse.UserID := u;
              RecommendationResponse.Recommendations :=
                [ {| ProductRecommendation.ProductID := P2;
                     ProductRecommendation.ProductName := Product.Name product2;
                     ProductRecommendation.CategoryID :=
                       default 0 (Product.CategoryID product2);
                     ProductRecommendation.Price := Product.Price product2;
                     ProductRecommendation.Score := 0.75%float;
                     ProductRecommendation.Reason :=
                       "Users with similar interests liked this" |} ];
              RecommendationResponse.Algorithm := "collaborative_filtering";
              RecommendationResponse.GeneratedAt := timeNow s |}
  ∧ (∀ r, GetRecommendations s u limit = Done r →
          P1 ∉ ProductRecommendation.ProductID
               <$> RecommendationResponse.Recommendations r).
Proof.
  split; [apply shared_purchase_jaccard|].
  split; [apply shared_purchase_similar|].
  split; [apply shared_purchase_recommendations|].
  intros r Hr. rewrite shared_purchase_recommendations in Hr.
  injection Hr as <-. cbn. by intros Hin%list_elem_of_singleton.
Qed.

End SharedPurchase.

Lemma shared_purchase_similar_users :
  GetSimilarUsers Scenario.shared_purchase 1 10
  = Done Scenario.shared_purchase_neighbors.
Proof. vm_compute. reflexivity. Qed.

Lemma shared_purchase_response_eq :
  GetRecommendations Scenario.shared_purchase 1 10
  = Done Scenario.shared_purchase_response.
Proof. vm_compute. reflexivity. Qed.

(** C2 as stated fails on the store it describes (user 1 bought 101, user 2
    bought 101 and 102, both products in the catalog): the neighbor's score
    is 0.25, not 0.5, and product 102 is recommended with score 0.75, not
    1.5. *)
Lemma C2_counterexample :
  GetSimilarUsers Scenario.shared_purchase 1 10
  = Done [UserSimilarity.mk 2 0.25%float 0 0]
  ∧ GetRecommendations Scenario.shared_purchase 1 10
    = Done (Scenario.response 1 [Scenario.recommended 102 0.75%float]
                              "collaborative_filtering")
  ∧ ¬ (∃ e, GetSimilarUsers Scenario.shared_purchase 1 10 = Done [e]
            ∧ UserSimilarity.SimilarityScore e = 0.5%float)
  ∧ ¬ (∃ r item, GetRecommendations Scenario.shared_purchase 1 10 = Done r
                 ∧ item ∈ RecommendationResponse.Recommendations r
                 ∧ ProductRecommendation.ProductID item = 102
                 ∧ ProductRecommendation.Score item = 1.5%float).
Proof.
  split; [exact shared_purchase_similar_users|].
  split; [exact shared_purchase_response_eq|]. split.
  - intros (e & He & Hscore). rewrite shared_purchase_similar_users in He.
    injection He as <-. cbn in Hscore.
    apply (f_equal (λ x, PrimFloat.ltb x 0.5%float)) in Hscore.
    vm_compute in Hscore. discriminate.
  - intros (r & item & Hr & Hitem & _ & Hscore).
    rewrite shared_purchase_response_eq in Hr. injection Hr as <-.
    apply list_elem_of_singleton in Hitem as ->. cbn in Hscore.
    apply (f_equal (λ x, PrimFloat.ltb x 1.5%float)) in Hscore.
    vm_compute in Hscore. discriminate.
Qed.

Lemma C2_shared_purchase_scenario_witness :
  jaccard_index (F:=float) (purchased (Scenario.shared_purchase_user 1))
                (purchased (Scenario.shared_purchase_user 2)) = 0.5%float
  ∧ (∀ n, 1 ≤ n →
          GetSimilarUsers Scenario.shared_purchase 1 n
          = Done [UserSimilarity.mk 2 0.25%float 0 0])
  ∧ GetRecommendations Scenario.shared_purchase 1 10
    = Done Scenario.shared_purchase_response
  ∧ (∀ r, GetRecommendations Scenario.shared_purchase 1 10 = Done r →
          101 ∉ ProductRecommendation.ProductID
                <$> RecommendationResponse.Recommendations r).
Proof.
  apply (C2_shared_purchase_scenario Scenario.shared_purchase 1 2 101 102
           (Scenario.purchase 1 101) (Scenario.purchase 2 101)
           (Scenario.purchase 2 102) (Scenario.product 102));
    by repeat split.
Defined.

(** * Further properties of the service *)

(** ** Outcomes of the two public methods *)

Section Outcomes.
Context {F : Type} `{!ScoreArith F}.

(** X1. [GetRecommendations] never panics, whatever the user, the limit,
    the store and the catalog: it asks [GetSimilarUsers] for the constant 10
    and clamps its own limit before any slice expression. When one of its
    own three bulk reads fails, it returns the error of the first failing
    read (likes, then views, then purchases) under that read's prefix. *)
Theorem X1_GetRecommendations_outcome (s : recommendationService F) userID limit :
  (∀ msg, GetRecommendations s userID limit ≠ Panicked msg)
  ∧ (∀ e, GetAllUserLikes (interactionRepo s) = Err e →
          GetRecommendations s userID limit = Failed ("get all likes: " +:+ e))
  ∧ (∀ allLikes e,
       GetAllUserLikes (interactionRepo s) = Ok allLikes →
       GetAllUserViews (interactionRepo s) = Err e →
       GetRecommendations s userID limit = Failed ("get all views: " +:+ e))
  ∧ (∀ allLikes allViews e,
       GetAllUserLikes (interactionRepo s) = Ok allLikes →
       GetAllUserViews (interactionRepo s) = Ok allViews →
       GetAllUserPurchases (interactionRepo s) = Err e →
       GetRecommendations s userID limit
       = Failed ("get all purchases: " +:+ e)).
Proof.
  split; [|split; [|split]].
  - intros msg.
    destruct (GetAllUserLikes (interactionRepo s)) as [allLikes|e] eqn:HL;
      [|unfold GetRecommendations; by rewrite HL].
    destruct (GetAllUserViews (interactionRepo s)) as [allViews|e] eqn:HV;
      [|unfold GetRecommendations; by rewrite HL, HV].
    destruct (GetAllUserPurchases (interactionRepo s)) as [allPurchases|e] eqn:HP;
      [|unfold GetRecommendations; by rewrite HL, HV, HP].
    assert (store_holds s allLikes allViews allPurchases) as Hs by done.
    pose proof (clamp_limit_range limit).
    destruct (GetRecommendations_cases s userID limit _ _ _ Hs)
      as [Hpop|(similarUsers & recs & _ & _ & _ & Hcf)].
    + by rewrite Hpop, (getPopularProducts_reads _ _ _ _ _ Hs) by lia.
    + by rewrite Hcf.
  - intros e HL. unfold GetRecommendations. by rewrite HL.
  - intros allLikes e HL HV. unfold GetRecommendations. by rewrite HL, HV.
  - intros allLikes allViews e HL HV HP. unfold GetRecommendations.
    by rewrite HL, HV, HP.
Qed.

(** X2. [GetSimilarUsers] reports the first failing read in the same way,
    whatever the limit; with the store readable it returns a list for every
    limit [>= 0] and panics on the slice bound for every limit [< 0], even
    when nobody qualifies as a neighbor. *)
Theorem X2_GetSimilarUsers_outcome (s : recommendationService F) userID limit :
  match GetAllUserLikes (interactionRepo s),
        GetAllUserViews (interactionRepo s),
        GetAllUserPurchases (interactionRepo s) with
  | Err e, _, _ =>
      GetSimilarUsers s userID limit = Failed ("get all likes: " +:+ e)
  | Ok _, Err e, _ =>
      GetSimilarUsers s userID limit = Failed ("get all views: " +:+ e)
  | Ok _, Ok _, Err e =>
      GetSimilarUsers s userID limit = Failed ("get all purchases: " +:+ e)
  | Ok _, Ok _, Ok _ =>
      if bool_decide (0 ≤ limit)
      then ∃ l, GetSimilarUsers s userID limit = Done l
      else GetSimilarUsers s userID limit = Panicked "slice bounds out of range"
  end.
Proof.
  unfold GetSimilarUsers.
  destruct (GetAllUserLikes _) as [allLikes|e]; [|done].
  destruct (GetAllUserViews _) as [allViews|e]; [|done].
  destruct (GetAllUserPurchases _) as [allPurchases|e]; [|done]. simpl.
  case_bool_decide.
  - rewrite truncate_nonneg by done. by eexists.
  - apply truncate_negative. lia.
Qed.

End Outcomes.

(** ** The neighbor list *)

Lemma NoDup_fmap_omap {A B K} (key : B → K) (f : A → option B) (g : A → K)
    (l : list A) :
  Inj (=) (=) g →
  (∀ x y, f x = Some y → key y = g x) →
  NoDup l → NoDup (key <$> omap f l).
Proof.
  intros Hg Hkey. induction 1 as [|x l Hx Hl IH]; [constructor|].
  cbn [omap list_omap]. destruct (f x) as [y|] eqn:Hfx; [|done].
  rewrite fmap_cons. constructor; [|done].
  intros (y' & Hk & (x' & Hx' & Hfx')%list_elem_of_omap)%list_elem_of_fmap.
  apply Hkey in Hfx, Hfx'. rewrite Hfx, Hfx' in Hk. apply Hg in Hk.
  by subst.
Qed.

Lemma NoDup_take {A} (n : nat) (l : list A) : NoDup l → NoDup (take n l).
Proof. intros Hl. eapply sublist_NoDup; [exact Hl|apply sublist_take]. Qed.

Lemma Sorted_take {A} (R : relation A) (n : nat) (l : list A) :
  Sorted R l → Sorted R (take n l).
Proof.
  intros Hl. revert n. induction Hl as [|x l Hl IH Hx]; intros [|n]; simpl;
    try constructor; [apply IH|].
  destruct Hx as [|y l' Hxy]; [by destruct n; constructor|].
  destruct n; by constructor.
Qed.

Section NeighborList.
Context {F : Type} `{!ScoreArith F}.
Implicit Types (allLikes : list UserProductLike.t)
  (allViews : list UserProductView.t)
  (allPurchases : list (UserProductPurchase.t F)).

Lemma compare_user_UserID uL uV uP (oLs oVs oPs : gmap Z (gset Z)) v
    (e : UserSimilarity.t F) :
  compare_user uL uV uP oLs oVs oPs v = Some e → UserSimilarity.UserID e = v.
Proof.
  rewrite compare_user_spec. cbn zeta.
  case_bool_decide; [done|]. destruct (f_ltb _ _); [done|]. by intros [= <-].
Qed.

Lemma similar_candidates_NoDup userID allLikes allViews allPurchases :
  NoDup (UserSimilarity.UserID
           <$> similar_candidates userID allLikes allViews allPurchases).
Proof.
  unfold similar_candidates.
  apply (NoDup_fmap_omap _ _ (λ v, v)); [apply _| |apply NoDup_elements].
  intros v e. apply compare_user_UserID.
Qed.

Lemma GetSimilarUsers_sorted_take (s : recommendationService F) userID limit
    allLikes allViews allPurchases l :
  store_holds s allLikes allViews allPurchases →
  GetSimilarUsers s userID limit = Done l →
  0 ≤ limit
  ∧ l = take (Z.to_nat limit)
          (sort_Slice higher_similarity
             (similar_candidates userID allLikes allViews allPurchases)).
Proof.
  intros Hs Hl. rewrite (GetSimilarUsers_reads _ _ _ _ _ _ Hs) in Hl.
  by apply truncate_Done in Hl.
Qed.

(** X3. The list returned by [GetSimilarUsers] has at most [limit] entries,
    names no user twice and never names the target user. *)
Theorem X3_neighbors_distinct (s : recommendationService F) userID limit
    allLikes allViews allPurchases l :
  store_holds s allLikes allViews allPurchases →
  GetSimilarUsers s userID limit = Done l →
  len l ≤ limit
  ∧ NoDup (UserSimilarity.UserID <$> l)
  ∧ userID ∉ UserSimilarity.UserID <$> l.
Proof.
  intros Hs Hl.
  destruct (GetSimilarUsers_sorted_take _ _ _ _ _ _ _ Hs Hl) as [Hlim Heq].
  split; [|split].
  - rewrite Heq. unfold len. rewrite length_take. lia.
  - rewrite Heq, fmap_take. apply NoDup_take.
    rewrite sort_Slice_perm. apply similar_candidates_NoDup.
  - intros (e & Hid & He)%list_elem_of_fmap.
    pose proof (GetSimilarUsers_elem_of _ _ _ _ _ _ _ _ Hs Hl He) as Hc.
    apply elem_of_similar_candidates in Hc as (v & Hv & _ & _ & ->).
    simpl in Hid. congruence.
Qed.

(** X4. When [GetSimilarUsers] returns fewer entries than [limit], nobody
    was cut: every other user who shares a product with the target and whose
    score is not below the threshold is in the list. *)
Theorem X4_neighbors_complete (s : recommendationService F) userID limit
    allLikes allViews allPurchases l v :
  store_holds s allLikes allViews allPurchases →
  GetSimilarUsers s userID limit = Done l →
  len l < limit →
  let target := interactions_of userID allLikes allViews allPurchases in
  let other := interactions_of v allLikes allViews allPurchases in
  v ≠ userID →
  ¬ share_nothing target other →
  f_ltb (weighted_jaccard target other) min_similarity = false →
  similarity_entry target other v ∈ l.
Proof.
  intros Hs Hl Hlen target other Hv Hshare Hlt.
  destruct (GetSimilarUsers_sorted_take _ _ _ _ _ _ _ Hs Hl) as [Hlim Heq].
  rewrite Heq in Hlen |- *. unfold len in Hlen. rewrite length_take in Hlen.
  rewrite take_ge by lia. apply elem_of_sort_Slice.
  apply elem_of_similar_candidates. by exists v.
Qed.

(** X5. In every returned entry, [common_likes] and [common_views] are the
    numbers of products that both users liked, respectively viewed; they
    never exceed either user's own count, and the two users share at least
    one product in some interaction type (purchases included, which the
    entry does not report). *)
Theorem X5_common_counts (s : recommendationService F) userID limit
    allLikes allViews allPurchases l e :
  store_holds s allLikes allViews allPurchases →
  GetSimilarUsers s userID limit = Done l →
  e ∈ l →
  let target := interactions_of userID allLikes allViews allPurchases in
  let other :=
    interactions_of (UserSimilarity.UserID e) allLikes allViews allPurchases in
  UserSimilarity.CommonLikes e = len_set (liked target ∩ liked other)
  ∧ UserSimilarity.CommonViews e = len_set (viewed target ∩ viewed other)
  ∧ UserSimilarity.CommonLikes e ≤ len_set (liked target)
  ∧ UserSimilarity.CommonLikes e ≤ len_set (liked other)
  ∧ UserSimilarity.CommonViews e ≤ len_set (viewed target)
  ∧ UserSimilarity.CommonViews e ≤ len_set (viewed other)
  ∧ 0 < UserSimilarity.CommonLikes e + UserSimilarity.CommonViews e
        + len_set (purchased target ∩ purchased other).
Proof.
  intros Hs Hl He target other.
  pose proof (GetSimilarUsers_elem_of _ _ _ _ _ _ _ _ Hs Hl He) as Hc.
  apply elem_of_similar_candidates in Hc as (v & _ & Hshare & _ & ->).
  cbn [similarity_entry UserSimilarity.CommonLikes UserSimilarity.CommonViews].
  subst target other. cbn [similarity_entry UserSimilarity.UserID].
  repeat split;
    try apply len_set_inter_l; try apply len_set_inter_r.
  set (t := interactions_of userID _ _ _) in *.
  set (o := interactions_of v _ _ _) in *.
  pose proof (len_set_nonneg (liked t ∩ liked o)).
  pose proof (len_set_nonneg (viewed t ∩ viewed o)).
  pose proof (len_set_nonneg (purchased t ∩ purchased o)).
  destruct (decide (len_set (liked t ∩ liked o) = 0)) as [HL|]; [|lia].
  destruct (decide (len_set (viewed t ∩ viewed o) = 0)) as [HV|]; [|lia].
  destruct (decide (len_set (purchased t ∩ purchased o) = 0)) as [HP|]; [|lia].
  exfalso. apply Hshare. by rewrite !len_set_0 in HL, HV, HP.
Qed.

End NeighborList.

(** ** Symmetry, order and what the similarity depends on *)

Section SimilarityStructure.
Context {F : Type} `{!ScoreArith F}.
Implicit Types (allLikes : list UserProductLike.t)
  (allViews : list UserProductView.t)
  (allPurchases : list (UserProductPurchase.t F)).

Lemma jaccard_index_sym (A B : gset Z) :
  jaccard_index (F:=F) A B = jaccard_index B A.
Proof.
  unfold jaccard_index.
  by rewrite (intersection_comm_L B A), (Z.add_comm (len_set B)).
Qed.

Lemma weighted_jaccard_sym (a b : interactions) :
  weighted_jaccard (F:=F) a b = weighted_jaccard b a.
Proof.
  unfold weighted_jaccard.
  by rewrite (jaccard_index_sym (purchased b)), (jaccard_index_sym (liked b)),
    (jaccard_index_sym (viewed b)).
Qed.

Lemma share_nothing_sym (a b : interactions) :
  share_nothing a b ↔ share_nothing b a.
Proof.
  unfold share_nothing.
  by rewrite (intersection_comm_L (liked b)), (intersection_comm_L (viewed b)),
    (intersection_comm_L (purchased b)).
Qed.

(** X6. Similarity is mutual. Before the limit is applied, [b] qualifies as
    a neighbor of [a] exactly when [a] qualifies as a neighbor of [b]; and
    whenever [GetSimilarUsers] for [a] lists [b] and [GetSimilarUsers] for
    [b] lists [a], the two entries carry the same score and the same common
    counts. *)
Theorem X6_similarity_mutual (s : recommendationService F) a b
    allLikes allViews allPurchases :
  store_holds s allLikes allViews allPurchases →
  (b ∈ UserSimilarity.UserID
         <$> similar_candidates a allLikes allViews allPurchases
   ↔ a ∈ UserSimilarity.UserID
           <$> similar_candidates b allLikes allViews allPurchases)
  ∧ ∀ limit_a limit_b la lb ea eb,
      GetSimilarUsers s a limit_a = Done la →
      GetSimilarUsers s b limit_b = Done lb →
      ea ∈ la → UserSimilarity.UserID ea = b →
      eb ∈ lb → UserSimilarity.UserID eb = a →
      UserSimilarity.SimilarityScore ea = UserSimilarity.SimilarityScore eb
      ∧ UserSimilarity.CommonLikes ea = UserSimilarity.CommonLikes eb
      ∧ UserSimilarity.CommonViews ea = UserSimilarity.CommonViews eb.
Proof.
  intros Hs. split.
  - assert (∀ x y, y ∈ UserSimilarity.UserID
                         <$> similar_candidates x allLikes allViews allPurchases →
                   x ∈ UserSimilarity.UserID
                         <$> similar_candidates y allLikes allViews allPurchases)
      as Hone; [|split; apply Hone].
    intros x y (e & -> & He)%list_elem_of_fmap.
    apply elem_of_similar_candidates in He as (v & Hv & Hsh & Hlt & ->).
    cbn. apply list_elem_of_fmap. eexists. split;
      [|apply elem_of_similar_candidates; exists x; cbn zeta;
        split; [done|split; [|split; [|reflexivity]]]].
    + done.
    + by rewrite share_nothing_sym.
    + by rewrite weighted_jaccard_sym.
  - intros limit_a limit_b la lb ea eb Hla Hlb Hea Hb Heb Ha.
    pose proof (GetSimilarUsers_elem_of _ _ _ _ _ _ _ _ Hs Hla Hea) as Hca.
    pose proof (GetSimilarUsers_elem_of _ _ _ _ _ _ _ _ Hs Hlb Heb) as Hcb.
    apply elem_of_similar_candidates in Hca as (v & Hv & Hsh & Hlt & ->).
    apply elem_of_similar_candidates in Hcb as (w & Hw & Hsh' & Hlt' & ->).
    cbn in Hb, Ha. subst v w. cbn.
    split; [apply weighted_jaccard_sym|].
    split; by rewrite intersection_comm_L.
Qed.

Lemma not_after_total_of_asym {A} (score : A → F) :
  ltb_asymmetric F → Total (not_after (λ a b, f_ltb (score b) (score a))).
Proof.
  intros Hasym a b. unfold not_after.
  destruct (f_ltb (score a) (score b)) eqn:Hab; [right|by left].
  by apply Hasym.
Qed.

(** X7. The list returned by [GetSimilarUsers] is in descending order of
    score: no entry is directly followed by one with a strictly higher
    score. *)
Theorem X7_neighbors_descending (s : recommendationService F) userID limit l :
  ltb_asymmetric F →
  GetSimilarUsers s userID limit = Done l →
  Sorted (λ e1 e2, f_ltb (UserSimilarity.SimilarityScore e1)
                         (UserSimilarity.SimilarityScore e2) = false) l.
Proof.
  intros Hasym Hl.
  apply GetSimilarUsers_Done in Hl as (L & V & P & _ & _ & ->).
  apply Sorted_take. unfold sort_Slice.
  pose proof (not_after_total_of_asym UserSimilarity.SimilarityScore Hasym).
  apply (Sorted_merge_sort (not_after higher_similarity)).
Qed.

(** X8. Who qualifies as a neighbor, and with which entry, depends on the
    events only through the users' interaction sets. Of two stores in which
    every user has the same three sets (events repeated, reordered or
    re-timed), the similarity loop yields the same entries; [GetSimilarUsers]
    returns lists of the same length, and the same entries whenever the
    limit cuts nothing. *)
Theorem X8_similarity_reads_sets (s s' : recommendationService F) userID limit
    allLikes allViews allPurchases allLikes' allViews' allPurchases' :
  store_holds s allLikes allViews allPurchases →
  store_holds s' allLikes' allViews' allPurchases' →
  (∀ user, interactions_of user allLikes allViews allPurchases
           = interactions_of user allLikes' allViews' allPurchases') →
  (∀ e, e ∈ similar_candidates userID allLikes allViews allPurchases
        ↔ e ∈ similar_candidates userID allLikes' allViews' allPurchases')
  ∧ ∀ l l', GetSimilarUsers s userID limit = Done l →
            GetSimilarUsers s' userID limit = Done l' →
            len l = len l' ∧ (len l < limit → ∀ e, e ∈ l ↔ e ∈ l').
Proof.
  intros Hs Hs' Hsame.
  assert (∀ {E E'} (uid pid : E → Z) (uid' pid' : E' → Z) events events',
            (∀ user, interaction_set uid pid user events
                     = interaction_set uid' pid' user events') →
            group_products uid pid userID events
            = group_products uid' pid' userID events') as Hgroup.
  { intros E E' uid pid uid' pid' events events' Hset.
    rewrite (surjective_pairing (group_products uid pid userID events)),
      (surjective_pairing (group_products uid' pid' userID events')).
    f_equal.
    - by rewrite !group_products_own.
    - apply map_eq. intros v. by rewrite !group_products_other, Hset. }
  assert (similar_candidates userID allLikes allViews allPurchases
          = similar_candidates userID allLikes' allViews' allPurchases')
    as Hcand.
  { unfold similar_candidates.
    rewrite (Hgroup _ _ _ _ UserProductLike.UserID UserProductLike.ProductID
               allLikes allLikes'),
      (Hgroup _ _ _ _ UserProductView.UserID UserProductView.ProductID
         allViews allViews'),
      (Hgroup _ _ _ _ (UserProductPurchase.UserID (F:=F))
         UserProductPurchase.ProductID allPurchases allPurchases'); [done|..];
      intros user; specialize (Hsame user); by inversion Hsame. }
  split; [by rewrite Hcand|]. intros l l' Hl Hl'.
  destruct (GetSimilarUsers_sorted_take _ _ _ _ _ _ _ Hs Hl) as [_ ->].
  destruct (GetSimilarUsers_sorted_take _ _ _ _ _ _ _ Hs' Hl') as [_ ->].
  by rewrite Hcand.
Qed.

End SimilarityStructure.

(** ** The collaborative list *)

Lemma NoDup_fmap_omap_key {A B K} (key : B → K) (f : A → option B) (g : A → K)
    (l : list A) :
  (∀ x y, f x = Some y → key y = g x) →
  NoDup (g <$> l) → NoDup (key <$> omap f l).
Proof.
  intros Hkey. induction l as [|x l IH]; [constructor|].
  rewrite fmap_cons, NoDup_cons. intros [Hx Hl].
  cbn [omap list_omap]. destruct (f x) as [y|] eqn:Hfx; [|by apply IH].
  rewrite fmap_cons. constructor; [|by apply IH].
  intros (y' & Hk & (x' & Hx' & Hfx')%list_elem_of_omap)%list_elem_of_fmap.
  apply Hkey in Hfx, Hfx'. apply Hx. rewrite <- Hfx, Hk, Hfx'.
  by apply list_elem_of_fmap_2.
Qed.

Section CollaborativeList.
Context {F : Type} `{!ScoreArith F}.
Implicit Types (allLikes : list UserProductLike.t)
  (allViews : list UserProductView.t)
  (allPurchases : list (UserProductPurchase.t F))
  (st : gmap Z F * gmap Z (Product.t F)).

(** Every product a pass adds to the scores comes from an event of one of
    the neighbors that the pass does not skip. *)
Lemma score_pass_origin {E} (uid pid : E → Z) skip boost products
    similarUsers events st id :
  id ∈ dom (score_pass uid pid skip boost products similarUsers events st).1 →
  id ∈ dom st.1
  ∨ ∃ simUser e, simUser ∈ similarUsers ∧ e ∈ events
                 ∧ uid e = UserSimilarity.UserID simUser ∧ pid e = id
                 ∧ skip id = false.
Proof.
  unfold score_pass. revert st.
  induction similarUsers as [|simUser similarUsers IH]; intros st; [by left|].
  simpl. intros Hin. apply IH in Hin as [Hin|(u & e & Hu & He & ?)].
  - assert (∀ evs st', id ∈ dom (foldl (score_event uid pid skip boost products
                                          simUser) st' evs).1 →
              id ∈ dom st'.1
              ∨ ∃ e, e ∈ evs ∧ uid e = UserSimilarity.UserID simUser
                     ∧ pid e = id ∧ skip id = false) as Hinner.
    { clear. induction evs as [|e evs IHe]; intros st' Hin; [by left|].
      simpl in Hin. apply IHe in Hin as [Hin|(e' & He' & ?)].
      - unfold score_event in Hin.
        case_bool_decide as Hu; [by left|].
        destruct (skip (pid e)) eqn:Hs; [by left|].
        destruct (cached_product _ _ _); [|by left].
        cbn [fst] in Hin. unfold add_score in Hin.
        rewrite dom_insert_L, elem_of_union, elem_of_singleton in Hin.
        destruct Hin as [->|Hin]; [|by left].
        right. exists e. split; [left|]. split; [|done].
        by destruct (decide (uid e = UserSimilarity.UserID simUser)).
      - right. exists e'. split; [by right|done]. }
    apply Hinner in Hin as [Hin|(e & He & ?)]; [by left|].
    right. exists simUser, e. split; [left|done].
  - right. exists u, e. split; [by right|done].
Qed.

Lemma to_recommendations_NoDup (productScores : gmap Z F)
    (productDetails : gmap Z (Product.t F)) :
  NoDup (ProductRecommendation.ProductID
           <$> to_recommendations productScores productDetails).
Proof.
  unfold to_recommendations.
  apply (NoDup_fmap_omap_key _ _ fst); [|apply NoDup_fst_map_to_list].
  intros [id score] item. cbn [fst snd].
  destruct (productDetails !! id); [|done]. by intros [= <-].
Qed.

(** X9. The collaborative list of [GetRecommendations] is in descending
    order of score (no item is directly followed by one with a strictly
    higher score) and names no product twice. *)
Theorem X9_collaborative_descending (s : recommendationService F) userID limit r :
  ltb_asymmetric F →
  GetRecommendations s userID limit = Done r →
  RecommendationResponse.Algorithm r = "collaborative_filtering" →
  Sorted (λ a b, f_ltb (ProductRecommendation.Score a)
                       (ProductRecommendation.Score b) = false)
         (RecommendationResponse.Recommendations r)
  ∧ NoDup (ProductRecommendation.ProductID
             <$> RecommendationResponse.Recommendations r).
Proof.
  intros Hasym Hr Halg.
  destruct (GetRecommendations_Done_store _ _ _ _ Hr) as (L & V & P & Hs).
  destruct (GetRecommendations_cases s userID limit _ _ _ Hs)
    as [Hpop|(similarUsers & recs & _ & Hrecs & _ & Hcf)].
  { rewrite Hpop in Hr. apply getPopularProducts_Done in Hr as (_ & Hp & _).
    rewrite Hp in Halg. discriminate. }
  rewrite Hcf in Hr. injection Hr as <-. cbn. rewrite Hrecs. split.
  - apply Sorted_take. unfold sort_Slice.
    pose proof (not_after_total_of_asym ProductRecommendation.Score Hasym).
    apply (Sorted_merge_sort (not_after higher_score)).
  - rewrite fmap_take. apply NoDup_take. rewrite sort_Slice_perm.
    apply to_recommendations_NoDup.
Qed.

(** X10. Every product of the collaborative list was purchased, or liked, by
    one of the (at most ten) neighbors that [GetSimilarUsers] returns for the
    user; a product that comes only from likes is one the user has not
    liked. *)
Theorem X10_recommendation_origin (s : recommendationService F) userID limit
    allLikes allViews allPurchases r item :
  store_holds s allLikes allViews allPurchases →
  GetRecommendations s userID limit = Done r →
  RecommendationResponse.Algorithm r = "collaborative_filtering" →
  item ∈ RecommendationResponse.Recommendations r →
  ∃ neighbors neighbor,
    GetSimilarUsers s userID 10 = Done neighbors
    ∧ neighbor ∈ neighbors
    ∧ let target := interactions_of userID allLikes allViews allPurchases in
      let other := interactions_of (UserSimilarity.UserID neighbor)
                                   allLikes allViews allPurchases in
      ProductRecommendation.ProductID item ∈ purchased other
      ∨ (ProductRecommendation.ProductID item ∈ liked other
         ∧ ProductRecommendation.ProductID item ∉ liked target).
Proof.
  intros Hs Hr Halg Hitem.
  destruct (GetRecommendations_cases s userID limit _ _ _ Hs)
    as [Hpop|(similarUsers & recs & Hsim & Hrecs & _ & Hcf)].
  { rewrite Hpop in Hr. apply getPopularProducts_Done in Hr as (_ & Hp & _).
    rewrite Hp in Halg. discriminate. }
  rewrite Hcf in Hr. injection Hr as <-. cbn in Hitem.
  rewrite Hrecs in Hitem. apply subseteq_take in Hitem.
  apply elem_of_sort_Slice in Hitem.
  apply elem_of_to_recommendations in Hitem as [Hscore _].
  apply elem_of_dom_2 in Hscore.
  exists similarUsers. unfold aggregate, like_pass, purchase_pass in Hscore.
  apply score_pass_origin in Hscore
    as [Hscore|(nb & e & Hnb & He & Hu & Hp & Hskip)].
  - apply score_pass_origin in Hscore
      as [Hscore|(nb & e & Hnb & He & Hu & Hp & Hskip)].
    { cbn [fst] in Hscore. by rewrite dom_empty_L in Hscore. }
    exists nb. split; [done|]. split; [done|]. left. cbn.
    apply elem_of_interaction_set. by exists e.
  - exists nb. split; [done|]. split; [done|]. right. split.
    + cbn. apply elem_of_interaction_set. by exists e.
    + apply orb_false_iff in Hskip as [Hl _].
      by apply bool_decide_eq_false in Hl.
Qed.

End CollaborativeList.

(** ** Limits and the popularity ranking *)

Lemma StronglySorted_lookup_lt {A} (R : relation A) (l : list A) i j x y :
  StronglySorted R l → l !! i = Some x → l !! j = Some y → (i < j)%nat → R x y.
Proof.
  intros Hl. revert i j. induction Hl as [|z l Hl IH Hz]; intros i j Hi Hj Hij.
  - by rewrite lookup_nil in Hi.
  - destruct j as [|j]; [lia|]. destruct i as [|i]; simpl in *.
    + injection Hi as <-. rewrite Forall_forall in Hz. apply Hz.
      by eapply list_elem_of_lookup_2.
    + apply (IH i j); [done..|lia].
Qed.

Lemma ranked_counts_NoDup allLikes :
  NoDup (productID <$> ranked_counts allLikes).
Proof.
  unfold ranked_counts. rewrite sort_Slice_perm, <- list_fmap_compose.
  apply (NoDup_fst_map_to_list (count_likes allLikes)).
Qed.

Section Ranking.
Context {F : Type} `{!ScoreArith F}.
Implicit Types (allLikes : list UserProductLike.t)
  (allViews : list UserProductView.t)
  (allPurchases : list (UserProductPurchase.t F)).

Lemma popular_recommendations_NoDup (products : ProductRepository F)
    allLikes (n : nat) :
  NoDup (ProductRecommendation.ProductID
           <$> popular_recommendations products (take n (ranked_counts allLikes))).
Proof.
  unfold popular_recommendations.
  apply (NoDup_fmap_omap_key _ _ productID).
  - intros pc item Hitem. by apply popular_item_Some in Hitem as (_ & ? & _).
  - rewrite fmap_take. apply NoDup_take, ranked_counts_NoDup.
Qed.

(** The response of the fallback, whenever [GetRecommendations] takes it. *)
Lemma GetRecommendations_popular (s : recommendationService F) userID limit
    allLikes allViews allPurchases r :
  store_holds s allLikes allViews allPurchases →
  GetRecommendations s userID limit = Done r →
  RecommendationResponse.Algorithm r = "popularity_based" →
  RecommendationResponse.Recommendations r
  = popular_recommendations (productRepo s)
      (take (Z.to_nat (clamp_limit limit)) (ranked_counts allLikes)).
Proof.
  intros Hs Hr Halg. pose proof (clamp_limit_range limit).
  destruct (GetRecommendations_cases s userID limit _ _ _ Hs)
    as [Hpop|(similarUsers & recs & _ & _ & _ & Hcf)].
  - rewrite Hpop, (getPopularProducts_reads _ _ _ _ _ Hs) in Hr by lia.
    by injection Hr as <-.
  - rewrite Hcf in Hr. injection Hr as <-. discriminate.
Qed.

(** X12. The popularity fallback keeps the most liked products: when it
    answers, any catalog product with strictly more likes than a returned
    item is returned as well. *)
Theorem X12_popular_keeps_top (s : recommendationService F) userID limit
    allLikes allViews allPurchases r item product :
  store_holds s allLikes allViews allPurchases →
  GetRecommendations s userID limit = Done r →
  RecommendationResponse.Algorithm r = "popularity_based" →
  item ∈ RecommendationResponse.Recommendations r →
  like_count allLikes (ProductRecommendation.ProductID item)
  < like_count allLikes product →
  in_catalog (productRepo s) product = true →
  product ∈ ProductRecommendation.ProductID
            <$> RecommendationResponse.Recommendations r.
Proof.
  intros Hs Hr Halg Hitem Hmore Hcat.
  rewrite (GetRecommendations_popular _ _ _ _ _ _ _ Hs Hr Halg) in Hitem |- *.
  set (n := Z.to_nat (clamp_limit limit)) in *.
  unfold popular_recommendations in *.
  set (m := match take n (ranked_counts allLikes) with
            | pc :: _ => count pc | [] => 1 end) in *.
  apply list_elem_of_omap in Hitem as (pc & Hpc & Hsome).
  apply popular_item_Some in Hsome as (_ & Hid & _). rewrite Hid in Hmore.
  apply elem_of_take in Hpc as (i & Hi & Hin).
  pose proof (list_elem_of_lookup_2 _ _ _ Hi) as Hpc.
  apply elem_of_ranked_counts in Hpc as [Hc _].
  pose proof (like_count_nonneg allLikes (productID pc)).
  set (pcp := {| productID := product; count := like_count allLikes product |}).
  assert (pcp ∈ ranked_counts allLikes) as Hp.
  { apply elem_of_ranked_counts. simpl. split; [done|lia]. }
  apply list_elem_of_lookup_1 in Hp as [j Hj].
  assert (j < i)%nat as Hji.
  { destruct (decide (j < i)%nat) as [|Hge]; [done|]. exfalso.
    destruct (decide (i = j)) as [->|Hne].
    - rewrite Hi in Hj. injection Hj as ->. simpl in *. lia.
    - pose proof (StronglySorted_lookup_lt _ _ i j _ _
                    (ranked_counts_sorted allLikes) Hi Hj) as Hle.
      simpl in Hle. lia. }
  destruct (popular_item_found (productRepo s) m pcp Hcat) as [item' Hitem'].
  apply list_elem_of_fmap. exists item'. split.
  - by apply popular_item_Some in Hitem' as (_ & -> & _).
  - apply list_elem_of_omap. exists pcp. split; [|done].
    apply elem_of_take. exists j. split; [done|lia].
Qed.

(** X13. The list of the popularity fallback names no product twice, and
    every product in it has at least one like. *)
Theorem X13_popular_distinct (s : recommendationService F) userID limit
    allLikes allViews allPurchases r :
  store_holds s allLikes allViews allPurchases →
  GetRecommendations s userID limit = Done r →
  RecommendationResponse.Algorithm r = "popularity_based" →
  NoDup (ProductRecommendation.ProductID
           <$> RecommendationResponse.Recommendations r)
  ∧ ∀ item, item ∈ RecommendationResponse.Recommendations r →
            1 ≤ like_count allLikes (ProductRecommendation.ProductID item).
Proof.
  intros Hs Hr Halg.
  rewrite (GetRecommendations_popular _ _ _ _ _ _ _ Hs Hr Halg). split.
  - apply popular_recommendations_NoDup.
  - intros item Hitem.
    apply popular_recommendations_spec in Hitem as (m & _ & _ & Hpos & _). lia.
Qed.

End Ranking.

(** ** The further properties on concrete stores *)

(** binary64 comparison: [x < y] and [y < x] never hold together. *)
Lemma SFcompare_Lt_asym x y :
  SFcompare x y = Some Lt → SFcompare y x = Some Gt.
Proof.
  destruct x as [sx|sx| |sx mx ex], y as [sy|sy| |sy my ey]; simpl;
    try discriminate;
    try (destruct sx); try (destruct sy); simpl; try congruence;
    rewrite (Z.compare_antisym ey ex);
    destruct (ey ?= ex)%Z; simpl; try congruence;
    pose proof (Pos.compare_cont_antisym mx my Eq) as Hp; simpl in Hp;
    rewrite <- Hp; destruct (Pos.compare_cont Eq mx my); simpl; congruence.
Qed.

Lemma float64_ltb_asymmetric : ltb_asymmetric float.
Proof.
  intros x y. cbn. rewrite !ltb_spec. unfold SFltb.
  destruct (SFcompare (Prim2SF x) (Prim2SF y)) as [[]|] eqn:H; try discriminate.
  intros _. by rewrite (SFcompare_Lt_asym _ _ H).
Qed.

Lemma interaction_set_perm {E} (uid pid : E → Z) user (events events' : list E) :
  events ≡ₚ events' →
  interaction_set uid pid user events = interaction_set uid pid user events'.
Proof. intros Hp. unfold interaction_set. by rewrite Hp. Qed.

Lemma X3_neighbors_distinct_witness :
  len Scenario.neighbors_of_1 ≤ 10
  ∧ NoDup (UserSimilarity.UserID <$> Scenario.neighbors_of_1)
  ∧ 1 ∉ UserSimilarity.UserID <$> Scenario.neighbors_of_1.
Proof.
  apply (X3_neighbors_distinct Scenario.neighbors 1 10 _ _ _ _
           neighbors_store neighbors_similar).
Defined.

Lemma X4_neighbors_complete_witness :
  similarity_entry (F:=float) (Scenario.neighbors_user 1)
                   (Scenario.neighbors_user 2) 2
  ∈ Scenario.neighbors_of_1.
Proof.
  apply (X4_neighbors_complete Scenario.neighbors 1 10 _ _ _ _ 2
           neighbors_store neighbors_similar).
  - vm_compute. reflexivity.
  - discriminate.
  - intros (HL & _). vm_compute in HL. discriminate.
  - vm_compute. reflexivity.
Defined.

Lemma X5_common_counts_witness :
  let e := UserSimilarity.mk 2 1%float 1 1 in
  let target := Scenario.neighbors_user 1 in
  let other := Scenario.neighbors_user 2 in
  UserSimilarity.CommonLikes e = len_set (liked target ∩ liked other)
  ∧ UserSimilarity.CommonViews e = len_set (viewed target ∩ viewed other)
  ∧ UserSimilarity.CommonLikes e ≤ len_set (liked target)
  ∧ UserSimilarity.CommonLikes e ≤ len_set (liked other)
  ∧ UserSimilarity.CommonViews e ≤ len_set (viewed target)
  ∧ UserSimilarity.CommonViews e ≤ len_set (viewed other)
  ∧ 0 < UserSimilarity.CommonLikes e + UserSimilarity.CommonViews e
        + len_set (purchased target ∩ purchased other).
Proof.
  apply (X5_common_counts Scenario.neighbors 1 10 _ _ _ _
           (UserSimilarity.mk 2 1%float 1 1) neighbors_store neighbors_similar).
  apply list_elem_of_singleton. reflexivity.
Defined.

Lemma X6_similarity_mutual_witness :
  (2 ∈ UserSimilarity.UserID
         <$> similar_candidates 1 Scenario.neighbors_likes
               Scenario.neighbors_views Scenario.neighbors_purchases
   ↔ 1 ∈ UserSimilarity.UserID
           <$> similar_candidates 2 Scenario.neighbors_likes
                 Scenario.neighbors_views Scenario.neighbors_purchases)
  ∧ ∀ limit_a limit_b la lb ea eb,
      GetSimilarUsers Scenario.neighbors 1 limit_a = Done la →
      GetSimilarUsers Scenario.neighbors 2 limit_b = Done lb →
      ea ∈ la → UserSimilarity.UserID ea = 2 →
      eb ∈ lb → UserSimilarity.UserID eb = 1 →
      UserSimilarity.SimilarityScore ea = UserSimilarity.SimilarityScore eb
      ∧ UserSimilarity.CommonLikes ea = UserSimilarity.CommonLikes eb
      ∧ UserSimilarity.CommonViews ea = UserSimilarity.CommonViews eb.
Proof.
  apply (X6_similarity_mutual Scenario.neighbors 1 2 _ _ _ neighbors_store).
Defined.

Lemma X7_neighbors_descending_witness :
  Sorted (λ e1 e2, f_ltb (UserSimilarity.SimilarityScore e1)
                         (UserSimilarity.SimilarityScore e2) = false)
         Scenario.neighbors_of_1.
Proof.
  apply (X7_neighbors_descending Scenario.neighbors 1 10 _
           float64_ltb_asymmetric neighbors_similar).
Defined.

Lemma X8_similarity_reads_sets_witness :
  let s' := Scenario.service (reverse Scenario.neighbors_likes)
                             (reverse Scenario.neighbors_views)
                             (reverse Scenario.neighbors_purchases) [] in
  (∀ e, e ∈ similar_candidates 1 Scenario.neighbors_likes
              Scenario.neighbors_views Scenario.neighbors_purchases
        ↔ e ∈ similar_candidates 1 (reverse Scenario.neighbors_likes)
                (reverse Scenario.neighbors_views)
                (reverse Scenario.neighbors_purchases))
  ∧ ∀ l l', GetSimilarUsers Scenario.neighbors 1 10 = Done l →
            GetSimilarUsers s' 1 10 = Done l' →
            len l = len l' ∧ (len l < 10 → ∀ e, e ∈ l ↔ e ∈ l').
Proof.
  apply (X8_similarity_reads_sets Scenario.neighbors _ 1 10 _ _ _
           (reverse Scenario.neighbors_likes)
           (reverse Scenario.neighbors_views)
           (reverse Scenario.neighbors_purchases) neighbors_store).
  - by repeat split.
  - intros user. unfold interactions_of.
    f_equal; apply interaction_set_perm; by rewrite reverse_Permutation.
Defined.

Lemma X9_collaborative_descending_witness :
  Sorted (λ a b, f_ltb (ProductRecommendation.Score a)
                       (ProductRecommendation.Score b) = false)
         (RecommendationResponse.Recommendations Scenario.deleted_response)
  ∧ NoDup (ProductRecommendation.ProductID
             <$> RecommendationResponse.Recommendations
                   Scenario.deleted_response).
Proof.
  apply (X9_collaborative_descending Scenario.deleted 1 10 _
           float64_ltb_asymmetric deleted_recommendations).
  reflexivity.
Defined.

Lemma X10_recommendation_origin_witness :
  ∃ neighbors neighbor,
    GetSimilarUsers Scenario.deleted 1 10 = Done neighbors
    ∧ neighbor ∈ neighbors
    ∧ let target := Scenario.deleted_user 1 in
      let other := interactions_of (F:=float) (UserSimilarity.UserID neighbor)
                     Scenario.deleted_likes [] Scenario.deleted_purchases in
      103 ∈ purchased other ∨ (103 ∈ liked other ∧ 103 ∉ liked target).
Proof.
  apply (X10_recommendation_origin Scenario.deleted 1 10 _ _ _ _
           (Scenario.recommended 103 0.5%float)
           deleted_store deleted_recommendations).
  - reflexivity.
  - apply list_elem_of_here.
Defined.

Lemma cold_store :
  store_holds Scenario.cold Scenario.cold_likes [] [].
Proof. by repeat split. Qed.

Lemma X12_popular_keeps_top_witness :
  101 ∈ ProductRecommendation.ProductID
        <$> RecommendationResponse.Recommendations Scenario.cold_response.
Proof.
  apply (X12_popular_keeps_top Scenario.cold 1 10 _ _ _ _
           (Scenario.popular 102 0.5%float "1") 101
           cold_store cold_recommendations).
  - reflexivity.
  - apply list_elem_of_further, list_elem_of_here.
  - vm_compute. reflexivity.
  - reflexivity.
Defined.

Lemma X13_popular_distinct_witness :
  NoDup (ProductRecommendation.ProductID
           <$> RecommendationResponse.Recommendations Scenario.cold_response)
  ∧ ∀ item, item ∈ RecommendationResponse.Recommendations Scenario.cold_response →
            1 ≤ like_count Scenario.cold_likes
                  (ProductRecommendation.ProductID item).
Proof.
  apply (X13_popular_distinct Scenario.cold 1 10 _ _ _ _
           cold_store cold_recommendations).
  reflexivity.
Defined.

(** ** The HTTP handlers *)

Section HandlerProofs.
Context {F : Type} `{!ScoreArith F}.
Variable Atoi : string → Z * option string.
Implicit Types (s : recommendationService F) (c : Handler.Context).

Lemma query_limit_range c : 1 ≤ Handler.query_limit Atoi c ≤ 50.
Proof. unfold Handler.query_limit. cbn zeta. case_bool_decide; lia. Qed.

Lemma clamp_query_limit c :
  clamp_limit (Handler.query_limit Atoi c) = Handler.query_limit Atoi c.
Proof.
  pose proof (query_limit_range c). unfold clamp_limit.
  rewrite bool_decide_false; [done|lia].
Qed.

(** With a limit that is not negative, [GetSimilarUsers] returns a list
    when the store is readable and an error otherwise. *)
Lemma GetSimilarUsers_total s userID limit :
  0 ≤ limit →
  (∃ l, GetSimilarUsers s userID limit = Done l
        ∧ ∃ allLikes allViews allPurchases,
            store_holds s allLikes allViews allPurchases)
  ∨ (∃ e, GetSimilarUsers s userID limit = Failed e
          ∧ ¬ ∃ allLikes allViews allPurchases,
                store_holds s allLikes allViews allPurchases).
Proof.
  intros Hlimit. unfold GetSimilarUsers, store_holds.
  destruct (GetAllUserLikes _) as [allLikes|e];
    [|right; eexists; split; [done|]; by intros (? & ? & ? & ? & _)].
  destruct (GetAllUserViews _) as [allViews|e];
    [|right; eexists; split; [done|]; by intros (? & ? & ? & _ & ? & _)].
  destruct (GetAllUserPurchases _) as [allPurchases|e];
    [|right; eexists; split; [done|]; by intros (? & ? & ? & _ & _ & ?)].
  left. simpl. rewrite truncate_nonneg by done.
  eexists. split; [done|]. by eexists _, _, _.
Qed.

Lemma GetRecommendations_total s userID limit :
  (∃ r, GetRecommendations s userID limit = Done r
        ∧ len (RecommendationResponse.Recommendations r) ≤ clamp_limit limit
        ∧ ∃ allLikes allViews allPurchases,
            store_holds s allLikes allViews allPurchases)
  ∨ (∃ e, GetRecommendations s userID limit = Failed e
          ∧ ¬ ∃ allLikes allViews allPurchases,
                store_holds s allLikes allViews allPurchases).
Proof.
  destruct (GetAllUserLikes (interactionRepo s)) as [allLikes|e] eqn:HL;
    [|right; unfold GetRecommendations, store_holds; rewrite HL;
      eexists; split; [done|]; by intros (? & ? & ? & ? & _)].
  destruct (GetAllUserViews (interactionRepo s)) as [allViews|e] eqn:HV;
    [|right; unfold GetRecommendations, store_holds; rewrite HL, HV;
      eexists; split; [done|]; by intros (? & ? & ? & _ & ? & _)].
  destruct (GetAllUserPurchases (interactionRepo s)) as [allPurchases|e] eqn:HP;
    [|right; unfold GetRecommendations, store_holds; rewrite HL, HV, HP;
      eexists; split; [done|]; by intros (? & ? & ? & _ & _ & ?)].
  assert (store_holds s allLikes allViews allPurchases) as Hs by done.
  pose proof (clamp_limit_range limit). left.
  destruct (GetRecommendations_cases s userID limit _ _ _ Hs)
    as [Hpop|(similarUsers & recs & _ & Hrecs & _ & Hcf)].
  - rewrite Hpop, (getPopularProducts_reads _ _ _ _ _ Hs) by lia.
    eexists. split; [done|]. split; [|by eexists _, _, _]. cbn.
    pose proof (popular_recommendations_length (productRepo s)
                  (take (Z.to_nat (clamp_limit limit)) (ranked_counts allLikes))).
    unfold len in *. rewrite length_take in *. lia.
  - rewrite Hcf. eexists. split; [done|]. split; [|by eexists _, _, _]. cbn.
    rewrite Hrecs. unfold len. rewrite length_take. lia.
Qed.

(** X15. A request that carries a string user id always gets a reply from
    the similar-users handler: the limit it passes on lies in [1,50], so the
    slice-bound panic of [GetSimilarUsers] is out of reach. The status is 400
    exactly when the user id does not parse, 500 exactly when it parses and
    a bulk read fails, and 200 otherwise; a 500 reply carries a fixed
    message and logs the error of the service. *)
Theorem X15_similar_users_handler_replies s c userIDStr :
  Handler.userId c = Some (Handler.Str userIDStr) →
  let readable := ∃ allLikes allViews allPurchases,
                    store_holds s allLikes allViews allPurchases in
  ∃ reply,
    Handler.GetSimilarUsers Atoi s c = Done reply
    ∧ (Handler.status reply = 400 ↔ (Atoi userIDStr).2 ≠ None)
    ∧ (Handler.status reply = 500 ↔ (Atoi userIDStr).2 = None ∧ ¬ readable)
    ∧ (Handler.status reply = 200 ↔ (Atoi userIDStr).2 = None ∧ readable)
    ∧ (Handler.status reply = 500 →
       Handler.body reply = Handler.ErrorResponse "failed to get similar users"
       ∧ ∃ e, GetSimilarUsers s (Atoi userIDStr).1 (Handler.query_limit Atoi c)
              = Failed e
              ∧ Handler.logged reply
                = [{| Handler.component := "recommendation";
                      Handler.error := e;
                      Handler.message := "Failed to get similar users" |}]).
Proof.
  intros Hu readable. unfold Handler.GetSimilarUsers, Handler.user_id.
  rewrite Hu. destruct (Atoi userIDStr) as [userID [err|]] eqn:Hparse.
  { eexists. split; [done|]. cbn. repeat split; try done; by intros []. }
  pose proof (query_limit_range c) as Hlimit. cbn [fst snd].
  destruct (GetSimilarUsers_total s userID (Handler.query_limit Atoi c))
    as [(l & -> & Hs)|(e & -> & Hs)]; [lia|..];
    (eexists; split; [done|]); cbn.
  - repeat split; try done; by intros [].
  - repeat split; try done; try (by intros []). by eexists.
Qed.

(** X16. A 200 reply of the similar-users handler reports the user id read
    from the context, the list that [GetSimilarUsers] returns for that user
    and the clamped limit, and its length as [count]; the list has at most
    as many entries as the clamped limit, hence at most 50, names no user
    twice and not the requesting user; nothing is logged. *)
Theorem X16_similar_users_handler_ok s c reply :
  Handler.GetSimilarUsers Atoi s c = Done reply →
  Handler.status reply = 200 →
  ∃ userIDStr userID similarUsers,
    Handler.userId c = Some (Handler.Str userIDStr)
    ∧ Atoi userIDStr = (userID, None)
    ∧ GetSimilarUsers s userID (Handler.query_limit Atoi c) = Done similarUsers
    ∧ reply = {| Handler.status := 200;
                 Handler.body :=
                   Handler.SimilarUsers userID similarUsers (len similarUsers);
                 Handler.logged := [] |}
    ∧ len similarUsers ≤ Handler.query_limit Atoi c ≤ 50
    ∧ NoDup (UserSimilarity.UserID <$> similarUsers)
    ∧ userID ∉ UserSimilarity.UserID <$> similarUsers.
Proof.
  unfold Handler.GetSimilarUsers, Handler.user_id. intros Hreply Hstatus.
  destruct (Handler.userId c) as [[userIDStr|]|];
    [|done|by injection Hreply as <-].
  destruct (Atoi userIDStr) as [userID [err|]] eqn:Hparse;
    [by injection Hreply as <-|].
  pose proof (query_limit_range c) as Hlimit.
  destruct (GetSimilarUsers s userID _) as [l|e|msg] eqn:Hl;
    [|by injection Hreply as <-|done].
  injection Hreply as <-. exists userIDStr, userID, l.
  do 4 (split; [done|]).
  destruct (GetSimilarUsers_Done _ _ _ _ Hl) as (L & V & P & Hs & _).
  destruct (GetSimilarUsers_sorted_take _ _ _ _ _ _ _ Hs Hl) as [_ Heq].
  split; [|split].
  - split; [|lia]. rewrite Heq. unfold len. rewrite length_take. lia.
  - rewrite Heq, fmap_take. apply NoDup_take.
    rewrite sort_Slice_perm. apply similar_candidates_NoDup.
  - intros (e & Hid & He)%list_elem_of_fmap.
    pose proof (GetSimilarUsers_elem_of _ _ _ _ _ _ _ _ Hs Hl He) as Hc.
    apply elem_of_similar_candidates in Hc as (v & Hv & _ & _ & ->).
    simpl in Hid. congruence.
Qed.

(** X17. A request that carries a string user id always gets a reply from
    the recommendations handler, because [GetRecommendations] never panics.
    The status is 400 exactly when the user id does not parse, 500 exactly
    when it parses and the service returns an error, and 200 exactly when it
    parses and the service returns a response; a 500 reply carries a fixed
    message and logs the error of the service. *)
Theorem X17_recommendations_handler_replies s c userIDStr :
  Handler.userId c = Some (Handler.Str userIDStr) →
  let call := GetRecommendations s (Atoi userIDStr).1
                                 (Handler.query_limit Atoi c) in
  ∃ reply,
    Handler.GetRecommendations Atoi s c = Done reply
    ∧ (Handler.status reply = 400 ↔ (Atoi userIDStr).2 ≠ None)
    ∧ (Handler.status reply = 500
       ↔ (Atoi userIDStr).2 = None ∧ ∃ e, call = Failed e)
    ∧ (Handler.status reply = 200
       ↔ (Atoi userIDStr).2 = None ∧ ∃ response, call = Done response)
    ∧ (Handler.status reply = 500 →
       Handler.body reply
       = Handler.ErrorResponse "failed to get recommendations"
       ∧ ∃ e, call = Failed e
              ∧ Handler.logged reply
                = [{| Handler.component := "recommendation";
                      Handler.error := e;
                      Handler.message := "Failed to get recommendations" |}]).
Proof.
  intros Hu call. subst call.
  unfold Handler.GetRecommendations, Handler.user_id.
  rewrite Hu. destruct (Atoi userIDStr) as [userID [err|]] eqn:Hparse.
  { eexists. split; [done|]. cbn. repeat split; try done; by intros []. }
  cbn [fst snd].
  destruct (GetRecommendations_total s userID (Handler.query_limit Atoi c))
    as [(r & -> & _ & Hs)|(e & -> & Hs)];
    (eexists; split; [done|]); cbn.
  - repeat split; try done; try (by intros [_ []]); try (by intros []).
    by eexists.
  - repeat split; try done; try (by intros [_ []]); try (by intros []);
      by eexists.
Qed.

(** X18. A 200 reply of the recommendations handler carries the response of
    the service for the user id read from the context and the clamped
    limit. The service receives a limit that its own clamp leaves alone, the
    list has at most that many items, hence at most 50, and the response
    names the user id of the request or 0. *)
Theorem X18_recommendations_handler_ok s c reply :
  Handler.GetRecommendations Atoi s c = Done reply →
  Handler.status reply = 200 →
  ∃ userIDStr userID response,
    Handler.userId c = Some (Handler.Str userIDStr)
    ∧ Atoi userIDStr = (userID, None)
    ∧ GetRecommendations s userID (Handler.query_limit Atoi c) = Done response
    ∧ clamp_limit (Handler.query_limit Atoi c) = Handler.query_limit Atoi c
    ∧ reply = {| Handler.status := 200;
                 Handler.body := Handler.Recommendations response;
                 Handler.logged := [] |}
    ∧ len (RecommendationResponse.Recommendations response)
      ≤ Handler.query_limit Atoi c ≤ 50
    ∧ (RecommendationResponse.UserID response = userID
       ∨ RecommendationResponse.UserID response = 0).
Proof.
  unfold Handler.GetRecommendations, Handler.user_id. intros Hreply Hstatus.
  destruct (Handler.userId c) as [[userIDStr|]|];
    [|done|by injection Hreply as <-].
  destruct (Atoi userIDStr) as [userID [err|]] eqn:Hparse;
    [by injection Hreply as <-|].
  pose proof (query_limit_range c) as Hlimit.
  pose proof (clamp_query_limit c) as Hclamp.
  destruct (GetRecommendations_total s userID (Handler.query_limit Atoi c))
    as [(r & Hr & Hlen & L & V & P & Hs)|(e & Hr & _)];
    rewrite Hr in Hreply; [|by injection Hreply as <-].
  injection Hreply as <-. exists userIDStr, userID, r.
  do 5 (split; [done|]). split; [lia|].
  destruct (GetRecommendations_cases s userID (Handler.query_limit Atoi c)
              _ _ _ Hs) as [Hpop|(similarUsers & recs & _ & _ & _ & Hcf)].
  - rewrite Hpop in Hr. apply getPopularProducts_Done in Hr as (Hid & _).
    by right.
  - rewrite Hcf in Hr. injection Hr as <-. by left.
Qed.

End HandlerProofs.

(** ** cosineSimilarity *)

Lemma SFmul_comm prec emax x y : SFmul prec emax x y = SFmul prec emax y x.
Proof.
  destruct x as [sx|sx| |sx mx ex], y as [sy|sy| |sy my ey]; simpl;
    try reflexivity; rewrite ?(Bool.xorb_comm sx sy); try reflexivity.
  by rewrite Pos.mul_comm, Z.add_comm.
Qed.

Lemma float64_mul_comm (x y : float) : PrimFloat.mul x y = PrimFloat.mul y x.
Proof. apply Prim2SF_inj. rewrite !mul_spec. apply SFmul_comm. Qed.

Lemma dot_product_filter (a b : gmap Z bool) :
  dot_product a b
  = len (filter (λ kv : Z * bool, b !! kv.1 = Some true) (map_to_list a)).
Proof.
  unfold dot_product.
  rewrite (foldl_count (λ kv : Z * bool, default false (b !! kv.1))), Z.add_0_l.
  unfold len. do 2 f_equal. apply list_filter_iff. intros [key value]. cbn.
  destruct (b !! key) as [[]|]; naive_solver.
Qed.

Lemma dot_product_sym (a b : gmap Z bool) :
  only_true a → only_true b → dot_product a b = dot_product b a.
Proof.
  intros Ha Hb. rewrite !dot_product_filter. unfold len. f_equal.
  apply Permutation_length, NoDup_Permutation;
    [apply NoDup_filter, NoDup_map_to_list..|].
  intros [key value]. rewrite !list_elem_of_filter, !elem_of_map_to_list. cbn.
  split; intros [Hother Hmine].
  - pose proof (Ha _ _ Hmine) as ->. done.
  - pose proof (Hb _ _ Hmine) as ->. done.
Qed.

(** X20. On sets, that is on maps that hold only [true] values,
    [cosineSimilarity] is symmetric in binary64. *)
Theorem X20_cosineSimilarity_symmetric (a b : gmap Z bool) :
  only_true a → only_true b → cosineSimilarity a b = cosineSimilarity b a.
Proof.
  intros Ha Hb. unfold cosineSimilarity.
  rewrite (bool_decide_ext _ _ (or_comm (len (map_to_list a) = 0)
                                        (len (map_to_list b) = 0))).
  case_bool_decide; [done|]. cbn zeta.
  rewrite orb_comm. destruct (_ || _); [done|].
  by rewrite (dot_product_sym a b), float64_mul_comm.
Qed.

Lemma X20_cosineSimilarity_symmetric_witness :
  cosineSimilarity {[1 := true; 2 := true]} {[2 := true; 3 := true; 4 := true]}
  = cosineSimilarity {[2 := true; 3 := true; 4 := true]} {[1 := true; 2 := true]}.
Proof.
  apply X20_cosineSimilarity_symmetric.
  - apply (bool_decide_unpack (map_Forall (λ _ value, value = true) _)).
    vm_compute. exact I.
  - apply (bool_decide_unpack (map_Forall (λ _ value, value = true) _)).
    vm_compute. exact I.
Defined.

(** A key stored with [false] still counts for [len] and for the loop over
    the first map, so the symmetry is lost outside sets. *)
Example cosineSimilarity_false_value :
  cosineSimilarity {[1 := false]} {[1 := true]} = 1%float
  ∧ cosineSimilarity {[1 := true]} {[1 := false]} = 0%float.
Proof. split; vm_compute; reflexivity. Qed.

(** ** The handlers on concrete requests *)

Lemma X15_similar_users_handler_replies_witness :
  let c := Request.authenticated "1" (Some "-3") in
  ∃ reply,
    Handler.GetSimilarUsers Request.Atoi Scenario.neighbors c = Done reply
    ∧ (Handler.status reply = 400 ↔ (Request.Atoi "1").2 ≠ None)
    ∧ (Handler.status reply = 500
       ↔ (Request.Atoi "1").2 = None
         ∧ ¬ ∃ allLikes allViews allPurchases,
               store_holds Scenario.neighbors allLikes allViews allPurchases)
    ∧ (Handler.status reply = 200
       ↔ (Request.Atoi "1").2 = None
         ∧ ∃ allLikes allViews allPurchases,
             store_holds Scenario.neighbors allLikes allViews allPurchases)
    ∧ (Handler.status reply = 500 →
       Handler.body reply = Handler.ErrorResponse "failed to get similar users"
       ∧ ∃ e, GetSimilarUsers Scenario.neighbors (Request.Atoi "1").1
                (Handler.query_limit Request.Atoi c) = Failed e
              ∧ Handler.logged reply
                = [{| Handler.component := "recommendation";
                      Handler.error := e;
                      Handler.message := "Failed to get similar users" |}]).
Proof.
  apply (X15_similar_users_handler_replies Request.Atoi Scenario.neighbors
           (Request.authenticated "1" (Some "-3")) "1").
  reflexivity.
Defined.

Lemma X16_similar_users_handler_ok_witness :
  let c := Request.authenticated "1" (Some "5") in
  ∃ userIDStr userID similarUsers,
    Handler.userId c = Some (Handler.Str userIDStr)
    ∧ Request.Atoi userIDStr = (userID, None)
    ∧ GetSimilarUsers Scenario.neighbors userID
        (Handler.query_limit Request.Atoi c) = Done similarUsers
    ∧ {| Handler.status := 200;
         Handler.body := Handler.SimilarUsers 1 Scenario.neighbors_of_1 1;
         Handler.logged := [] |}
      = {| Handler.status := 200;
           Handler.body :=
             Handler.SimilarUsers userID similarUsers (len similarUsers);
           Handler.logged := [] |}
    ∧ len similarUsers ≤ Handler.query_limit Request.Atoi c ≤ 50
    ∧ NoDup (UserSimilarity.UserID <$> similarUsers)
    ∧ userID ∉ UserSimilarity.UserID <$> similarUsers.
Proof.
  apply (X16_similar_users_handler_ok Request.Atoi Scenario.neighbors
           (Request.authenticated "1" (Some "5"))).
  - vm_compute. reflexivity.
  - reflexivity.
Defined.

Lemma X17_recommendations_handler_replies_witness :
  let c := Request.authenticated "1" None in
  let call := GetRecommendations Scenario.deleted (Request.Atoi "1").1
                                 (Handler.query_limit Request.Atoi c) in
  ∃ reply,
    Handler.GetRecommendations Request.Atoi Scenario.deleted c = Done reply
    ∧ (Handler.status reply = 400 ↔ (Request.Atoi "1").2 ≠ None)
    ∧ (Handler.status reply = 500
       ↔ (Request.Atoi "1").2 = None ∧ ∃ e, call = Failed e)
    ∧ (Handler.status reply = 200
       ↔ (Request.Atoi "1").2 = None ∧ ∃ response, call = Done response)
    ∧ (Handler.status reply = 500 →
       Handler.body reply
       = Handler.ErrorResponse "failed to get recommendations"
       ∧ ∃ e, call = Failed e
              ∧ Handler.logged reply
                = [{| Handler.component := "recommendation";
                      Handler.error := e;
                      Handler.message := "Failed to get recommendations" |}]).
Proof.
  apply (X17_recommendations_handler_replies Request.Atoi Scenario.deleted
           (Request.authenticated "1" None) "1").
  reflexivity.
Defined.

Lemma X18_recommendations_handler_ok_witness :
  let c := Request.authenticated "1" (Some "50") in
  ∃ userIDStr userID response,
    Handler.userId c = Some (Handler.Str userIDStr)
    ∧ Request.Atoi userIDStr = (userID, None)
    ∧ GetRecommendations Scenario.deleted userID
        (Handler.query_limit Request.Atoi c) = Done response
    ∧ clamp_limit (Handler.query_limit Request.Atoi c)
      = Handler.query_limit Request.Atoi c
    ∧ {| Handler.status := 200;
         Handler.body := Handler.Recommendations Scenario.deleted_response;
         Handler.logged := [] |}
      = {| Handler.status := 200;
           Handler.body := Handler.Recommendations response;
           Handler.logged := [] |}
    ∧ len (RecommendationResponse.Recommendations response)
      ≤ Handler.query_limit Request.Atoi c ≤ 50
    ∧ (RecommendationResponse.UserID response = userID
       ∨ RecommendationResponse.UserID response = 0).
Proof.
  apply (X18_recommendations_handler_ok Request.Atoi Scenario.deleted
           (Request.authenticated "1" (Some "50"))).
  - vm_compute. reflexivity.
  - reflexivity.
Defined.

